(** * Universal citekeys for a Papers2 library: a model of [citations.py]

    The development follows the layout of the plugin: Python values and
    exceptions, the universal citekey algorithm (CRC-32 based hashes), the
    accessors of the Papers database (listing and PDF lookup), and the
    pyparsing grammar of bracketed citation groups. *)

From Stdlib Require Import String Ascii.
From Stdlib Require Import List NArith ZArith Bool Arith Lia.
From Stdlib Require Import Sorted Permutation.
Import ListNotations.

Set Implicit Arguments.

(** ** Python values *)

(** A Python [str] is a sequence of code points.  [bytes] are sequences of
    numbers below 256. *)
Definition pystr := list N.
Definition pybytes := list N.

(** [py "abc"] is the Python literal ["abc"] (ASCII and Latin-1 literals). *)
Definition py (s : string) : pystr := map N_of_ascii (list_ascii_of_string s).
Arguments py s%_string.

(** The values that flow through the plugin are text or [None]: a column of
    the store holds text or NULL, a hash function returns text or [None]. *)
Inductive value : Type :=
| PyNone
| PyStr (s : pystr).

(** The exceptions that the modelled code can raise. *)
Inductive exn : Type :=
| ValueError
| TypeError
| IndexError
| ZeroDivisionError
| UnicodeEncodeError
| Exception (msg : pystr).

Inductive result (A : Type) : Type :=
| Ok (a : A)
| Raise (e : exn).
Arguments Ok {A} a.
Arguments Raise {A} e.

Definition bind {A B} (m : result A) (k : A -> result B) : result B :=
  match m with
  | Ok a => k a
  | Raise e => Raise e
  end.

Notation "x <- m ;; k" := (bind m (fun x => k))
  (at level 61, m at next level, right associativity).
Notation "' p <- m ;; k" := (bind m (fun x => let p := x in k))
  (at level 61, p pattern, m at next level, right associativity).

(** Truth value of an object in a condition: [None] and [""] are false. *)
Definition truthy (v : value) : bool :=
  match v with
  | PyNone => false
  | PyStr [] => false
  | PyStr (_ :: _) => true
  end.

(** ["%s" % v] *)
Definition format_s (v : value) : pystr :=
  match v with
  | PyNone => py "None"
  | PyStr s => s
  end.

(** [s[i:j]] for non-negative [i] and [j]: never fails on a string. *)
Definition slice (s : pystr) (i j : nat) : pystr := firstn (j - i) (skipn i s).

(** [v[i:j]]: [None] is not subscriptable. *)
Definition subscript (v : value) (i j : nat) : result pystr :=
  match v with
  | PyNone => Raise TypeError
  | PyStr s => Ok (slice s i j)
  end.

(** [range(a, b)] and [chr] *)
Definition range (a b : N) : list N :=
  map N.of_nat (seq (N.to_nat a) (N.to_nat b - N.to_nat a)).
Definition chr (x : N) : pystr := [x].
Definition ord (c : ascii) : N := N_of_ascii c.
Arguments ord c%_char.

(** [l[n]] on a list: [IndexError] out of range. *)
Definition getitem {A} (l : list A) (n : N) : result A :=
  match nth_error l (N.to_nat n) with
  | Some a => Ok a
  | None => Raise IndexError
  end.

Definition len {A} (l : list A) : N := N.of_nat (length l).

(** ** UTF-8 and CRC-32 *)

(** [bytes(s, "UTF-8")] with the strict error handler: surrogate code points
    have no encoding.  (Numbers above U+10FFFF are not code points of any
    [str]; the encoder rejects them too.) *)
Definition continuation (c : N) (shift : N) : N :=
  N.lor 0x80%N (N.land (N.shiftr c shift) 0x3F%N).

Definition utf8_char (c : N) : result pybytes :=
  if (c <? 0x80)%N then Ok [c]
  else if (c <? 0x800)%N then
    Ok [N.lor 0xC0%N (N.shiftr c 6%N); continuation c 0%N]
  else if (c <? 0x10000)%N then
    if ((0xD800 <=? c) && (c <=? 0xDFFF))%N then Raise UnicodeEncodeError
    else Ok [N.lor 0xE0%N (N.shiftr c 12%N); continuation c 6%N;
             continuation c 0%N]
  else if (c <? 0x110000)%N then
    Ok [N.lor 0xF0%N (N.shiftr c 18%N); continuation c 12%N;
        continuation c 6%N; continuation c 0%N]
  else Raise UnicodeEncodeError.

Fixpoint utf8_encode (s : pystr) : result pybytes :=
  match s with
  | [] => Ok []
  | c :: s' =>
      b <- utf8_char c ;;
      bs <- utf8_encode s' ;;
      Ok (b ++ bs)
  end.

(** [zlib.crc32]: CRC-32/ISO-HDLC, reflected polynomial [0xEDB88320],
    initial value and final xor [0xFFFFFFFF], one bit at a time. *)
Definition crc_poly : N := 0xEDB88320%N.

Definition crc_bit (c : N) : N :=
  if N.testbit c 0%N then N.lxor (N.shiftr c 1%N) crc_poly else N.shiftr c 1%N.

Definition crc_byte (c b : N) : N :=
  N.iter 8%N crc_bit (N.lxor c b).

Definition crc32 (data : pybytes) : N :=
  N.lxor (fold_left crc_byte data 0xFFFFFFFF%N) 0xFFFFFFFF%N.

(** ** Universal Citekey Algorithm *)

Definition alphabet : list pystr := map chr (range (ord "a") (ord "z" + 1)%N).
Definition title_suffix : list pystr := map chr (range (ord "t") (ord "w" + 1)%N).
Definition doi_suffix : list pystr := map chr (range (ord "b") (ord "k" + 1)%N).

Definition gen_crc (s : pystr) : result N :=
  b <- utf8_encode s ;;
  Ok (N.land (crc32 b) 0xffffffff%N).

Definition gen_hash (text : pystr) (suffixes : list pystr) : result pystr :=
  n1 <- gen_crc text ;;
  if (len alphabet * len suffixes =? 0)%N then Raise ZeroDivisionError else
  let n2 := (n1 mod (len alphabet * len suffixes))%N in
  let n3 := (n2 / len alphabet)%N in
  let n4 := (n2 mod len alphabet)%N in
  s <- getitem suffixes n3 ;;
  a <- getitem alphabet n4 ;;
  Ok (s ++ a).

Definition gen_title_hash (title : value) : result value :=
  match title with
  | PyNone => Ok PyNone
  | PyStr t => h <- gen_hash t title_suffix ;; Ok (PyStr h)
  end.

Definition gen_doi_hash (doi : value) : result value :=
  match doi with
  | PyNone => Ok PyNone
  | PyStr d => h <- gen_hash d doi_suffix ;; Ok (PyStr h)
  end.

(** ["%s:%s%s" % (base, year, h)] *)
Definition format_citekey (base year h : value) : pystr :=
  format_s base ++ py ":" ++ format_s year ++ format_s h.

Definition gen_citekey (base year doi title : value) : result pystr :=
  if truthy doi then
    h <- gen_doi_hash doi ;; Ok (format_citekey base year h)
  else
    h <- gen_title_hash title ;; Ok (format_citekey base year h).

(** ** Papers Database Access *)

(** The store.  Every column of [Publication] read by the plugin is text or
    NULL; [ROWID] and [object_id] are integers; the [Path] of a [PDF] row is
    text.  A table is the list of its rows in the order in which a [SELECT]
    without [ORDER BY] returns them. *)
Record Publication : Type := {
  ROWID : Z;
  author_year_string : value;
  attributed_title : value;
  canonical_title : value;
  doi : value;
  citekey_base : value;
  publication_date : value
}.

Record PDF : Type := {
  object_id : Z;
  Path : pystr
}.

Record database : Type := {
  Publication_table : list Publication;
  PDF_table : list PDF
}.

Definition pystr_eqb (a b : pystr) : bool :=
  if list_eq_dec N.eq_dec a b then true else false.

(** [a == b] on values: text equals text with the same code points, [None]
    equals [None] only. *)
Definition value_eqb (a b : value) : bool :=
  match a, b with
  | PyNone, PyNone => true
  | PyStr x, PyStr y => pystr_eqb x y
  | _, _ => false
  end.

(** SQL [column = ?] against a bound text parameter: NULL never compares
    equal. *)
Definition sql_eq (column : value) (param : pystr) : bool :=
  match column with
  | PyNone => false
  | PyStr s => pystr_eqb s param
  end.

(** The characters of a text that SQLite's [substr] walks through: it reads
    its argument as a C string, one character at a time, and stops at the
    first NUL character. *)
Fixpoint sql_chars (s : pystr) : pystr :=
  match s with
  | [] => []
  | c :: s' => if (c =? 0)%N then [] else c :: sql_chars s'
  end.

(** SQL [substr(X, Y, Z)] for [1 <= Y]: [Z] characters from the [Y]-th on,
    both counts ending at the first NUL character; NULL for NULL. *)
Definition sql_substr (x : value) (y z : nat) : value :=
  match x with
  | PyNone => PyNone
  | PyStr s => PyStr (firstn z (skipn (y - 1) (sql_chars s)))
  end.

(** Binding a text parameter encodes it as UTF-8. *)
Definition sql_bind (param : pystr) : result unit :=
  _ <- utf8_encode param ;; Ok tt.

(** The body of the loop of [list_citations]: what the [try] block computes
    for one row. *)
Definition try_citekey (r : Publication) : result pystr :=
  year <- subscript (publication_date r) 2 6 ;;
  gen_citekey (citekey_base r) (PyStr year) (doi r) (canonical_title r).

(** ["%s %s" % (author_year, title)] *)
Definition format_label (author_year title : value) : pystr :=
  format_s author_year ++ py " " ++ format_s title.

(** The generator, as the list of the pairs it yields, in order. *)
Fixpoint list_citations_from (candidates : list Publication)
  : list (pystr * pystr) :=
  match candidates with
  | [] => []
  | r :: rest =>
      match try_citekey r with
      | Raise _ => list_citations_from rest
      | Ok citekey =>
          (format_label (author_year_string r) (attributed_title r), citekey)
            :: list_citations_from rest
      end
  end.

Definition list_citations (db : database) : list (pystr * pystr) :=
  list_citations_from (Publication_table db).

(** [citekey.split(":")]: the parts between the occurrences of the
    separator. *)
Fixpoint split (sep : N) (s : pystr) : list pystr :=
  match s with
  | [] => [[]]
  | c :: s' =>
      if (c =? sep)%N then [] :: split sep s'
      else match split sep s' with
           | part :: parts => (c :: part) :: parts
           | [] => [[c]]
           end
  end.

Definition colon : N := ord ":".

(** Unpacking into two targets needs exactly two parts. *)
Definition split_key (citekey : pystr) : result (pystr * pystr * pystr) :=
  match split colon citekey with
  | [base; suffix] =>
      let year := slice suffix 0 4 in
      let citehash := skipn 4 suffix in
      Ok (base, year, citehash)
  | _ => Raise ValueError
  end.

(** [os.path.join(a, b)] of [posixpath]. *)
Definition slash : N := ord "/".

Definition startswith (c : N) (s : pystr) : bool :=
  match s with
  | [] => false
  | x :: _ => (x =? c)%N
  end.

Definition endswith (c : N) (s : pystr) : bool :=
  match rev s with
  | [] => false
  | x :: _ => (x =? c)%N
  end.

Definition os_path_join (a b : pystr) : pystr :=
  if startswith slash b then b
  else match a with
       | [] => a ++ b
       | _ => if endswith slash a then a ++ b else a ++ [slash] ++ b
       end.

(** The default of the configuration variable. *)
Definition default_basepath : pystr := py "/Users/username/Papers2/".

Section Resolver.

(** The root folder of the Papers2 library, set by the user. *)
Variable basepath : pystr.

(** [SELECT ROWID, canonical_title, doi FROM Publication
     WHERE citekey_base = ? AND substr(publication_date, 3, 4) == ?] *)
Definition is_candidate (base year : pystr) (r : Publication) : bool :=
  sql_eq (citekey_base r) base
  && sql_eq (sql_substr (publication_date r) 3 4) year.

Definition select_candidates (db : database) (base year : pystr)
  : result (list (Z * value * value)) :=
  _ <- sql_bind base ;;
  _ <- sql_bind year ;;
  Ok (map (fun r => (ROWID r, canonical_title r, doi r))
          (filter (is_candidate base year) (Publication_table db))).

(** [SELECT Path FROM PDF WHERE object_id = ?] *)
Definition select_paths (db : database) (rowid : Z) : list pystr :=
  map Path (filter (fun p => (object_id p =? rowid)%Z) (PDF_table db)).

(** [citehash == gen_title_hash(title) or citehash == gen_doi_hash(doi)]:
    the second hash is computed only when the first comparison fails. *)
Definition hash_matches (citehash : pystr) (title doi : value) : result bool :=
  th <- gen_title_hash title ;;
  if value_eqb (PyStr citehash) th then Ok true
  else dh <- gen_doi_hash doi ;; Ok (value_eqb (PyStr citehash) dh).

(** The loop over the candidates. *)
Fixpoint find_pdf_loop (db : database) (citekey citehash : pystr)
         (candidates : list (Z * value * value)) : result pystr :=
  match candidates with
  | [] => Raise (Exception (py "No matching PDF found for " ++ citekey))
  | (rowid, title, doi) :: rest =>
      m <- hash_matches citehash title doi ;;
      if m then
        match select_paths db rowid with
        | pdf_path :: _ => Ok (os_path_join basepath pdf_path)
        | [] => find_pdf_loop db citekey citehash rest
        end
      else find_pdf_loop db citekey citehash rest
  end.

Definition find_pdf (db : database) (citekey : pystr) : result pystr :=
  '(base, year, citehash) <- split_key citekey ;;
  candidates <- select_candidates db base year ;;
  find_pdf_loop db citekey citehash candidates.

End Resolver.

(** [reversed(list(list_citations(db)))] *)
Definition get_citations (db : database) : list (pystr * pystr) :=
  rev (list_citations db).

(** ** Sublime Text Bibliography Command: the pyparsing grammar *)

(** A token of a parse result: a matched string, or the pair
    [(locn, tokens[0])] that the parse action [add_loc] returns. *)
Inductive token : Type :=
| Tok (s : pystr)
| Located (locn : nat) (t : token).

(** A parser element: whether [_parse] skips leading whitespace, the
    element's [parseImpl] (with its [postParse] applied), and its parse
    action.  [None] is a [ParseException]. *)
Record ParserElement : Type := {
  skipWhitespace : bool;
  parseImpl : pystr -> nat -> option (nat * list token);
  parseAction : option (nat -> list token -> option (list token))
}.

Definition mem (c : N) (chars : pystr) : bool := existsb (N.eqb c) chars.

Definition whiteChars : pystr := py " " ++ [10; 9; 13]%N.

Fixpoint count_while (p : N -> bool) (s : pystr) : nat :=
  match s with
  | c :: s' => if p c then S (count_while p s') else 0
  | [] => 0
  end.

Definition preParse (e : ParserElement) (instring : pystr) (loc : nat) : nat :=
  if skipWhitespace e
  then loc + count_while (fun c => mem c whiteChars) (skipn loc instring)
  else loc.

(** [e._parse(instring, loc, callPreParse)]: the parse action receives the
    location at which the element's own match starts. *)
Definition _parse (e : ParserElement) (callPreParse : bool)
           (instring : pystr) (loc : nat) : option (nat * list token) :=
  let preloc := if callPreParse then preParse e instring loc else loc in
  match parseImpl e instring preloc with
  | None => None
  | Some (loc', tokens) =>
      match parseAction e with
      | None => Some (loc', tokens)
      | Some fn =>
          match fn preloc tokens with
          | Some tokens' => Some (loc', tokens')
          | None => None
          end
      end
  end.

Definition alphas : pystr :=
  py "ABCDEFGHIJKLMNOPQRSTUVWXYZ" ++ py "abcdefghijklmnopqrstuvwxyz".
Definition nums : pystr := py "0123456789".

(** [Word(chars, min, max, exact)]: [0] for [max] and [exact] means
    unspecified. *)
Definition Word (chars : pystr) (min max exact : nat) : ParserElement :=
  let minLen := if exact =? 0 then min else exact in
  let maxLen := if exact =? 0 then (if max =? 0 then None else Some max)
                else Some exact in
  {| skipWhitespace := true;
     parseImpl := fun instring loc =>
       match nth_error instring loc with
       | None => None
       | Some c =>
           if negb (mem c chars) then None else
           let run := count_while (fun x => mem x chars) (skipn loc instring) in
           let n := match maxLen with
                    | None => run
                    | Some m => Nat.min run m
                    end in
           if n <? minLen then None
           else if negb (max =? 0)
                   && match nth_error instring (loc + n) with
                      | Some x => mem x chars
                      | None => false
                      end
           then None
           else Some (loc + n, [Tok (slice instring loc (loc + n))])
       end;
     parseAction := None |}.

Fixpoint is_prefix (m s : pystr) : bool :=
  match m, s with
  | [], _ => true
  | x :: m', y :: s' => (x =? y)%N && is_prefix m' s'
  | _ :: _, [] => false
  end.

Definition Literal (matchString : pystr) : ParserElement :=
  {| skipWhitespace := true;
     parseImpl := fun instring loc =>
       if is_prefix matchString (skipn loc instring) && (loc <? length instring)
       then Some (loc + length matchString, [Tok matchString])
       else None;
     parseAction := None |}.

(** [e1 + e2 + ...] *)
Fixpoint And_rest (exprs : list ParserElement) (instring : pystr) (loc : nat)
         (resultlist : list token) : option (nat * list token) :=
  match exprs with
  | [] => Some (loc, resultlist)
  | e :: es =>
      match _parse e true instring loc with
      | None => None
      | Some (loc', exprtokens) =>
          And_rest es instring loc' (resultlist ++ exprtokens)
      end
  end.

Definition And (first : ParserElement) (others : list ParserElement)
  : ParserElement :=
  {| skipWhitespace := skipWhitespace first;
     parseImpl := fun instring loc =>
       match _parse first false instring loc with
       | None => None
       | Some (loc', resultlist) => And_rest others instring loc' resultlist
       end;
     parseAction := None |}.

(** [e.suppress()] *)
Definition Suppress (e : ParserElement) : ParserElement :=
  {| skipWhitespace := skipWhitespace e;
     parseImpl := fun instring loc =>
       match _parse e false instring loc with
       | None => None
       | Some (loc', _) => Some (loc', [])
       end;
     parseAction := None |}.

Definition Optional (e : ParserElement) : ParserElement :=
  {| skipWhitespace := skipWhitespace e;
     parseImpl := fun instring loc =>
       match _parse e false instring loc with
       | None => Some (loc, [])
       | Some r => Some r
       end;
     parseAction := None |}.

(** [OneOrMore(e)]: the repetition stops at the first failure.  The loop is
    bounded by the length of the input. *)
Fixpoint OneOrMore_loop (fuel : nat) (e : ParserElement) (instring : pystr)
         (loc : nat) (tokens : list token) : nat * list token :=
  match fuel with
  | 0 => (loc, tokens)
  | S fuel' =>
      match _parse e true instring loc with
      | None => (loc, tokens)
      | Some (loc', tmptokens) =>
          OneOrMore_loop fuel' e instring loc' (tokens ++ tmptokens)
      end
  end.

Definition OneOrMore (e : ParserElement) : ParserElement :=
  {| skipWhitespace := skipWhitespace e;
     parseImpl := fun instring loc =>
       match _parse e false instring loc with
       | None => None
       | Some (loc', tokens) =>
           Some (OneOrMore_loop (S (length instring)) e instring loc' tokens)
       end;
     parseAction := None |}.

(** [Combine(e)]: the elements of [e] are matched with no whitespace in
    between, and their strings are joined into one token. *)
Definition leaveWhitespace (e : ParserElement) : ParserElement :=
  {| skipWhitespace := false;
     parseImpl := parseImpl e;
     parseAction := parseAction e |}.

Fixpoint asString (t : token) : pystr :=
  match t with
  | Tok s => s
  | Located _ t' => asString t'
  end.

Definition Combine (first : ParserElement) (others : list ParserElement)
  : ParserElement :=
  let expr := leaveWhitespace
                (And (leaveWhitespace first) (map leaveWhitespace others)) in
  {| skipWhitespace := true;
     parseImpl := fun instring loc =>
       match _parse expr false instring loc with
       | None => None
       | Some (loc', tokenlist) =>
           Some (loc', [Tok (concat (map asString tokenlist))])
       end;
     parseAction := None |}.

Definition setParseAction (e : ParserElement)
           (fn : nat -> list token -> option (list token)) : ParserElement :=
  {| skipWhitespace := skipWhitespace e;
     parseImpl := parseImpl e;
     parseAction := Some fn |}.

(** [str.expandtabs()] with the default tab size. *)
Fixpoint expandtabs_from (column : nat) (s : pystr) : pystr :=
  match s with
  | [] => []
  | c :: s' =>
      if (c =? 9)%N then
        let incr := 8 - column mod 8 in
        repeat (ord " ") incr ++ expandtabs_from (column + incr) s'
      else if ((c =? 10) || (c =? 13))%N then c :: expandtabs_from 0 s'
      else c :: expandtabs_from (S column) s'
  end.

Definition expandtabs (s : pystr) : pystr := expandtabs_from 0 s.

(** [e.scanString(instring)]: the matches [(tokens, start, end)], left to
    right.  Every turn of the loop moves [loc] forward, so the loop runs at
    most [len(instring) + 1] times. *)
Fixpoint scan (fuel : nat) (e : ParserElement) (instring : pystr) (loc : nat)
  : list (list token * nat * nat) :=
  match fuel with
  | 0 => []
  | S fuel' =>
      if length instring <? loc then [] else
      let preloc := preParse e instring loc in
      match _parse e false instring preloc with
      | None => scan fuel' e instring (preloc + 1)
      | Some (nextLoc, tokens) =>
          if loc <? nextLoc
          then (tokens, preloc, nextLoc) :: scan fuel' e instring nextLoc
          else scan fuel' e instring (preloc + 1)
      end
  end.

Definition scanString (e : ParserElement) (instring : pystr)
  : list (list token * nat * nat) :=
  let instring := expandtabs instring in
  scan (S (S (length instring))) e instring 0.

(** The grammar for multiple citekeys within curly brackets. *)

(** [lambda locn, tokens: (locn, tokens[0])]; the pair is the single token
    of the result. *)
Definition add_loc (locn : nat) (tokens : list token) : option (list token) :=
  match tokens with
  | t :: _ => Some [Located locn t]
  | [] => None
  end.

Definition citekey_expr : ParserElement :=
  setParseAction
    (Combine (Word alphas 1 0 0)
             [Literal (py ":"); Word nums 1 0 4; Word alphas 1 0 2])
    add_loc.

Definition citations_expr : ParserElement :=
  And (Suppress (Literal (py "{")))
      [OneOrMore (And citekey_expr [Suppress (Optional (Literal (py ",")))]);
       Suppress (Literal (py "}"))].

(** [sep.join(items)] *)
Fixpoint join (sep : pystr) (items : list pystr) : pystr :=
  match items with
  | [] => []
  | x :: rest =>
      match rest with
      | [] => x
      | _ :: _ => x ++ sep ++ join sep rest
      end
  end.

(** ["{%s}" % ", ".join(keys)] *)
Definition format_citekeys (keys : list pystr) : pystr :=
  py "{" ++ join (py ", ") keys ++ py "}".

(** [", ".join("[%s](papers2://publication/citekey/%s)" % (key, key)
               for key in keys)] *)
Definition format_markdown (keys : list pystr) : pystr :=
  join (py ", ")
       (map (fun key => py "[" ++ key ++ py "](papers2://publication/citekey/"
                           ++ key ++ py ")")
            keys).

(** What [parse_line] prints: one line per [print] call. *)
Inductive item : Type :=
| Int (n : nat)
| Obj (t : token).

Definition unpack2 (t : token) : result (item * item) :=
  match t with
  | Located loc key => Ok (Int loc, Obj key)
  | Tok [a; b] => Ok (Obj (Tok [a]), Obj (Tok [b]))
  | Tok _ => Raise ValueError
  end.

Fixpoint print_keys (matches : list token) : result (list (item * item)) :=
  match matches with
  | [] => Ok []
  | t :: rest =>
      '(loc, key) <- unpack2 t ;;
      out <- print_keys rest ;;
      Ok ((loc, key) :: out)
  end.

Fixpoint print_results (results : list (list token * nat * nat))
  : result (list (item * item)) :=
  match results with
  | [] => Ok []
  | (matches, start, end_) :: rest =>
      keys <- print_keys matches ;;
      out <- print_results rest ;;
      Ok ((Int start, Int end_) :: keys ++ out)
  end.

Definition parse_line (text : pystr) : result (list (item * item)) :=
  print_results (scanString citations_expr text).

(** ** Sublime Text Bibliography Command: the commands *)

(** [sublime.Region(a, b)] *)
Module Region.
Record t : Type := { a : Z; b : Z }.
End Region.

(** What the command reads of the active view: the selected regions
    [view.sel()], [view.line(point)] and [view.substr(region)]. *)
Record View : Type := {
  sel : list Region.t;
  line : Z -> Region.t;
  substr : Region.t -> pystr
}.

(** [for pos, key in group]: every token of a match of [citations_expr] is
    a pair that [add_loc] made of an offset and the string of a key, and
    unpacks into the two.  The other branches stand for tokens of another
    kind, which no match of [citations_expr] holds: a string does not unpack
    into an offset and a key, and a pair is not the string of a key. *)
Definition unpack_key (t : token) : result (nat * pystr) :=
  match t with
  | Located pos (Tok key) => Ok (pos, key)
  | Located _ (Located _ _) => Raise TypeError
  | Tok _ => Raise ValueError
  end.

Fixpoint unpack_keys (group : list token) : result (list (nat * pystr)) :=
  match group with
  | [] => Ok []
  | t :: rest =>
      p <- unpack_key t ;;
      ps <- unpack_keys rest ;;
      Ok (p :: ps)
  end.

(** The inner loop of [citekeys_at_cursor]: the first key of the group that
    the offset touches. *)
Fixpoint key_at (offset : Z) (group : list (nat * pystr)) : option pystr :=
  match group with
  | [] => None
  | (pos, citekey) :: rest =>
      if ((Z.of_nat pos <=? offset)
          && (offset <=? Z.of_nat pos + Z.of_nat (length citekey)))%Z
      then Some citekey
      else key_at offset rest
  end.

(** The outer loop, over the matches of the scan. *)
Fixpoint group_at (offset line_a : Z)
         (results : list (list token * nat * nat))
  : result (option (pystr * list pystr * (Z * Z))) :=
  match results with
  | [] => Ok None
  | (group, start, end_) :: rest =>
      pairs <- unpack_keys group ;;
      let keys := map snd pairs in
      if ((Z.of_nat start <=? offset) && (offset <=? Z.of_nat end_))%Z then
        match key_at offset pairs with
        | Some citekey =>
            Ok (Some (citekey, keys,
                      (Z.of_nat start + line_a, Z.of_nat end_ + line_a)%Z))
        | None => group_at offset line_a rest
        end
      else group_at offset line_a rest
  end.

Definition citekeys_at_cursor (view : View)
  : result (value * list pystr * (Z * Z)) :=
  loc <- getitem (sel view) 0 ;;
  let line := line view (Region.a loc) in
  let text := substr view line in
  let offset := (Region.a loc - Region.a line)%Z in
  found <- group_at offset (Region.a line) (scanString citations_expr text) ;;
  match found with
  | Some (citekey, keys, location) => Ok (PyStr citekey, keys, location)
  | None => Ok (PyNone, [], (Region.a loc, Region.b loc))
  end.

(** [zip] applied to the pairs as its arguments, and unpacked into two
    targets: with no pair, [zip] yields nothing to unpack. *)
Definition unzip (pairs : list (pystr * pystr))
  : result (list pystr * list pystr) :=
  match pairs with
  | [] => Raise ValueError
  | _ :: _ => Ok (map fst pairs, map snd pairs)
  end.

(** The attributes of an [InsertCitationCommand]. *)
Record InsertCitationCommand : Type := {
  citations : list pystr;
  citekeys : list pystr;
  citekey : value;
  group : list pystr;
  location : Z * Z;
  commands : list pystr
}.

(** [run]: the attributes it sets and the items of the quick panel it
    shows. *)
Definition run (db : database) (view : View)
  : result (InsertCitationCommand * list pystr) :=
  '(citations, citekeys) <- unzip (get_citations db) ;;
  '(citekey, group, location) <- citekeys_at_cursor view ;;
  let commands :=
    if truthy citekey
    then [format_s citekey ++ py ": Open PDF"; py "-----------------"]
    else [] in
  Ok ({| citations := citations; citekeys := citekeys; citekey := citekey;
         group := group; location := location; commands := commands |},
      commands ++ citations).

(** [l[i]] for an integer index: a negative index counts from the end. *)
Definition getitem_int {A} (l : list A) (i : Z) : result A :=
  if (i <? 0)%Z then
    if (i + Z.of_nat (length l) <? 0)%Z then Raise IndexError
    else getitem l (Z.to_N (i + Z.of_nat (length l)))
  else getitem l (Z.to_N i).

(** [s.startswith(prefix)] and [s.endswith(suffix)] *)
Definition str_startswith (s prefix : pystr) : bool := is_prefix prefix s.
Definition str_endswith (s suffix : pystr) : bool :=
  is_prefix (rev suffix) (rev s).

(** [x in l] on a list of strings *)
Definition contains (x : pystr) (l : list pystr) : bool :=
  existsb (pystr_eqb x) l.

(** [a < b] on strings: the order of the code points. *)
Fixpoint str_ltb (a b : pystr) : bool :=
  match a, b with
  | _, [] => false
  | [], _ :: _ => true
  | x :: a', y :: b' => (x <? y)%N || ((x =? y)%N && str_ltb a' b')
  end.

(** [lambda k: split_key(k)[1]] *)
Definition year_of (k : pystr) : result pystr :=
  '(base, year, citehash) <- split_key k ;; Ok year.

(** [sorted(keys, key=year_of)]: the keys are computed first, one per
    element; the sort is stable. *)
Fixpoint decorate (keys : list pystr) : result (list (pystr * pystr)) :=
  match keys with
  | [] => Ok []
  | k :: rest =>
      year <- year_of k ;;
      others <- decorate rest ;;
      Ok ((year, k) :: others)
  end.

Fixpoint insert (p : pystr * pystr) (l : list (pystr * pystr))
  : list (pystr * pystr) :=
  match l with
  | [] => [p]
  | q :: rest =>
      if str_ltb (fst q) (fst p) then q :: insert p rest else p :: q :: rest
  end.

Definition sorted_by_year (keys : list pystr) : result (list pystr) :=
  decorated <- decorate keys ;;
  Ok (map snd (fold_right insert [] decorated)).

(** The calls that a command makes to the editor. *)
Inductive call : Type :=
| show_quick_panel (items : list pystr)
| run_command (name : pystr) (citetext : pystr) (loc : Z * Z)
| set_timeout (callback : call) (delay : nat).

Section Selection.

(** The order in which [set(l)] is iterated: Python leaves it open. *)
Variable set_order : list pystr -> list pystr.

(** What [open_citekey] does with the current citekey. *)
Variable open_citekey : value -> result unit.

(** [on_citekey]: the attributes after the call and the calls made to the
    editor.  An exception leaves the panel closed; the attributes are set
    again by the next [run]. *)
Definition on_citekey (cmd : InsertCitationCommand) (item : Z)
  : result (InsertCitationCommand * list call) :=
  if (Z.of_nat (length (commands cmd)) <=? item)%Z then
    key <- getitem_int (citekeys cmd)
                       (item - Z.of_nat (length (commands cmd))) ;;
    group' <- (if negb (contains key (group cmd))
               then sorted_by_year (set_order (group cmd ++ [key]))
               else Ok (group cmd)) ;;
    let commands' :=
      [py "Insert {" ++ join (py ", ") group' ++ py "}";
       key ++ py ": Open PDF";
       py "Insert Markdown link";
       py "-----------------"] in
    Ok ({| citations := citations cmd; citekeys := citekeys cmd;
           citekey := PyStr key; group := group';
           location := location cmd; commands := commands' |},
        [set_timeout (show_quick_panel (commands' ++ citations cmd)) 10])
  else
    command <- getitem_int (commands cmd) item ;;
    if str_startswith command (py "Insert") then
      let citetext :=
        if str_startswith command (py "Insert Markdown")
        then format_markdown (group cmd)
        else format_citekeys (group cmd) in
      Ok (cmd, [set_timeout
                  (run_command (py "insert_citation_text") citetext
                               (location cmd)) 10])
    else if str_endswith command (py "Open PDF") then
      _ <- open_citekey (citekey cmd) ;; Ok (cmd, [])
    else Ok (cmd, []).

End Selection.

(** * Vocabulary of the properties *)

(** A string has UTF-8 bytes when the strict encoder accepts it: all its
    code points are Unicode scalar values. *)
Definition encodable (s : pystr) : Prop := exists b, utf8_encode s = Ok b.

Definition scalar_value (c : N) : bool :=
  ((c <? 0xD800) || (0xDFFF <? c) && (c <? 0x110000))%N.

Definition encodable_value (v : value) : Prop :=
  match v with
  | PyNone => True
  | PyStr s => encodable s
  end.

(** The hash that a citekey carries, in the words of the specification:
    the DOI hash when the DOI is present and non-empty, the title hash
    otherwise. *)
Definition expected_hash (doi title : value) : result value :=
  if truthy doi then gen_doi_hash doi else gen_title_hash title.

(** The round trip of the codec: the key is generated, and splitting it
    gives back the base, the year and the expected hash. *)
Definition roundtrip (base year : pystr) (doi title : value) : Prop :=
  exists key h c,
    gen_citekey (PyStr base) (PyStr year) doi title = Ok key /\
    expected_hash doi title = Ok h /\
    split_key key = Ok (base, year, c) /\
    PyStr c = h.

Definition alphabetic (s : pystr) : Prop := Forall (fun c => mem c alphas = true) s.

(** A date that is missing, or too short to hold four characters at
    offsets 2 to 5. *)
Definition lacks_year (date : value) : Prop :=
  match date with
  | PyNone => True
  | PyStr d => length d < 6
  end.

(** The rows for which the [try] block of [list_citations] succeeds, and the
    pair the generator yields for such a row. *)
Definition processed (r : Publication) : bool :=
  match try_citekey r with
  | Ok _ => true
  | Raise _ => false
  end.

Definition citation (r : Publication) : pystr * pystr :=
  (format_label (author_year_string r) (attributed_title r),
   match try_citekey r with
   | Ok citekey => citekey
   | Raise _ => []
   end).

(** A record whose date is too short for a year. *)
Definition short_date_record : Publication :=
  {| ROWID := 1;
     author_year_string := PyStr (py "Smith 2020");
     attributed_title := PyStr (py "A Title");
     canonical_title := PyStr (py "a title");
     doi := PyNone;
     citekey_base := PyStr (py "smith");
     publication_date := PyStr (py "20") |}.

(** A record resolves a hash when its recomputed title hash or DOI hash is
    that hash. *)
Definition resolves (citehash : pystr) (r : Publication) : Prop :=
  gen_title_hash (canonical_title r) = Ok (PyStr citehash) \/
  gen_doi_hash (doi r) = Ok (PyStr citehash).

(** [text] is what SQLite reads of [date]: the characters before its first
    NUL character, all of them when it has none. *)
Definition before_nul (date text : pystr) : Prop :=
  ~ In 0%N text /\ (date = text \/ exists rest, date = text ++ 0%N :: rest).

(** A base and year candidate, on the columns of the record: its
    [citekey_base] is the base, and the characters at offsets 2 to 5 of its
    [publication_date], as far as SQLite reads it, are the year. *)
Definition base_year_candidate (base year : pystr) (r : Publication) : Prop :=
  citekey_base r = PyStr base /\
  exists date text,
    publication_date r = PyStr date /\ before_nul date text /\
    slice text 2 6 = year.

(** A record has an attachment path when a row of [PDF] carries its
    [ROWID]. *)
Definition has_path (db : database) (r : Publication) : Prop :=
  exists p, In p (PDF_table db) /\ object_id p = ROWID r.

(** The first attachment path of a record: the [Path] of the first row of
    [PDF], in the order of the table, that carries its [ROWID]. *)
Definition first_path (db : database) (r : Publication) (pdf_path : pystr)
  : Prop :=
  exists pb p pa,
    PDF_table db = pb ++ p :: pa /\
    (forall p', In p' pb -> object_id p' <> ROWID r) /\
    object_id p = ROWID r /\ Path p = pdf_path.

(** A record settles the lookup when it resolves the hash and has an
    attachment path. *)
Definition settles (db : database) (citehash : pystr) (r : Publication)
  : Prop :=
  resolves citehash r /\ has_path db r.

(** The titles and DOIs of the store have UTF-8 bytes: text read from the
    store was decoded from UTF-8. *)
Definition store_text_ok (db : database) : Prop :=
  Forall (fun r => encodable_value (canonical_title r) /\
                   encodable_value (doi r))
         (Publication_table db).

(** The error of [find_pdf] for a citekey that resolves to no file. *)
Definition NoMatchingPdf (citekey : pystr) : exn :=
  Exception (py "No matching PDF found for " ++ citekey).

(** A store with two records of the same base, year and DOI, of which only
    the second has an attached file. *)
Definition smith_2020 (rowid : Z) : Publication :=
  {| ROWID := rowid;
     author_year_string := PyStr (py "Smith 2020");
     attributed_title := PyStr (py "A Title");
     canonical_title := PyStr (py "a title");
     doi := PyStr (py "10.1/xyz");
     citekey_base := PyStr (py "smith");
     publication_date := PyStr (py "99202000000000000000222000") |}.

Definition duplicate_store : database :=
  {| Publication_table := [smith_2020 7; smith_2020 8];
     PDF_table := [ {| object_id := 8; Path := py "a/b.pdf" |} ] |}.

(** A store that holds one record of base ["smith"] and year ["2020"] with
    one attached file. *)
Definition single_store : database :=
  {| Publication_table := [smith_2020 7];
     PDF_table := [ {| object_id := 7; Path := py "a/b.pdf" |} ] |}.

(** A store with two papers of base ["smith"] and year ["2020"] whose DOIs
    have the same hash, each with one attached file. *)
Definition smith_2020_other : Publication :=
  {| ROWID := 3;
     author_year_string := PyStr (py "Smith 2020");
     attributed_title := PyStr (py "Another Title");
     canonical_title := PyStr (py "another title");
     doi := PyStr (py "10.1/abc200");
     citekey_base := PyStr (py "smith");
     publication_date := PyStr (py "99202000000000000000222000") |}.

Definition two_store : database :=
  {| Publication_table := [smith_2020_other; smith_2020 7];
     PDF_table := [ {| object_id := 3; Path := py "c/d.pdf" |};
                    {| object_id := 7; Path := py "a/b.pdf" |} ] |}.

(** A store that holds one record, whose date starts with a NUL character
    and has ["2020"] at offsets 2 to 5. *)
Definition nul_date_record : Publication :=
  {| ROWID := 7;
     author_year_string := PyStr (py "Smith 2020");
     attributed_title := PyStr (py "A Title");
     canonical_title := PyStr (py "a title");
     doi := PyStr (py "10.1/xyz");
     citekey_base := PyStr (py "smith");
     publication_date := PyStr (0%N :: py "92020") |}.

Definition nul_store : database :=
  {| Publication_table := [nul_date_record];
     PDF_table := [ {| object_id := 7; Path := py "a/b.pdf" |} ] |}.

(** The shape of a key of the grammar: one or more letters, a colon, four
    digits, two letters. *)
Definition is_citekey (key : pystr) : Prop :=
  exists a d h,
    key = a ++ py ":" ++ d ++ h /\
    a <> [] /\ alphabetic a /\
    length d = 4 /\ Forall (fun c => mem c nums = true) d /\
    length h = 2 /\ alphabetic h.

(** An element consumes input when each of its matches ends further in the
    text, within the text. *)
Definition consumes (e : ParserElement) (instring : pystr) : Prop :=
  forall loc loc' tokens,
    _parse e true instring loc = Some (loc', tokens) ->
    loc < loc' <= length instring.

(** The element that [OneOrMore] repeats in [citations_expr]: a key and an
    optional comma. *)
Definition group_item : ParserElement :=
  And citekey_expr [Suppress (Optional (Literal (py ",")))].

(** A token of a citation group: a key paired with the offset at which it
    stands in the text, between the given bounds. *)
Definition key_token (instring : pystr) (lo hi : nat) (t : token) : Prop :=
  exists locn key,
    t = Located locn (Tok key) /\ is_citekey key /\
    slice instring locn (locn + length key) = key /\
    lo <= locn /\ locn + length key <= hi.

(** A match of [scanString]: the span runs from an opening brace to a
    closing brace, and the tokens are the keys found in between, each with
    its offset. *)
Definition group_match (instring : pystr) (m : list token * nat * nat) : Prop :=
  let '(tokens, start, end_) := m in
  nth_error instring start = Some (ord "{") /\
  nth_error instring (end_ - 1) = Some (ord "}") /\
  start < end_ <= length instring /\
  tokens <> [] /\
  Forall (key_token instring (S start) (end_ - 1)) tokens.

(** The line of text of the parser example. *)
Definition example_line : pystr :=
  py "see {smith:2020ab, jones:2019cd} for details".

(** A text of ASCII characters. *)
Definition ascii_text (s : pystr) : Prop := Forall (fun c => c < 128)%N s.

(** A lowercase ASCII letter. *)
Definition lowercase (c : N) : Prop := (ord "a" <= c <= ord "z")%N.

(** The tokens of the keys of a formatted group: each key with the offset at
    which it stands, two characters apart. *)
Fixpoint locate (pos : nat) (keys : list pystr) : list token :=
  match keys with
  | [] => []
  | key :: rest => Located pos (Tok key) :: locate (pos + length key + 2) rest
  end.

(** The tab character, which [scanString] expands before it scans. *)
Definition tab : N := 9%N.

(** The comma that follows a key when further keys follow it. *)
Definition comma (keys : list pystr) : pystr :=
  match keys with
  | [] => []
  | _ :: _ => py ","
  end.

(** The further keys of a group, each after a space and, but for the last,
    before a comma. *)
Fixpoint body (keys : list pystr) : pystr :=
  match keys with
  | [] => []
  | key :: rest => py " " ++ key ++ comma rest ++ body rest
  end.

(** The characters of a key are letters, digits and one colon. *)
Definition key_chars : pystr := alphas ++ nums ++ py ":".

(** The spans of the matches of a scan, left to right: each match starts at
    or after the end of the one before. *)
Fixpoint spans_from (lo : nat) (results : list (list token * nat * nat))
  : Prop :=
  match results with
  | [] => True
  | (_, start, end_) :: rest =>
      lo <= start /\ start < end_ /\ spans_from end_ rest
  end.

(** A key under the cursor: the key stands in the text at [pos], inside the
    group that runs from [start] to [end_], and the offset of the cursor is
    between the start and the end of the key. *)
Definition key_under_cursor (text : pystr) (offset : Z)
           (key : pystr) (keys : list pystr) (start end_ : nat) : Prop :=
  exists pos,
    In key keys /\ Forall is_citekey keys /\
    nth_error text start = Some (ord "{") /\
    nth_error text (end_ - 1) = Some (ord "}") /\
    start < pos /\ pos + length key < end_ /\
    slice text pos (pos + length key) = key /\
    (Z.of_nat pos <= offset <= Z.of_nat (pos + length key))%Z.

(** A view whose line is the example line, at offset 100 of the buffer,
    with the cursor on the first key. *)
Definition example_view : View :=
  {| sel := [ {| Region.a := 107; Region.b := 107 |} ];
     line := fun _ => {| Region.a := 100; Region.b := 144 |};
     substr := fun _ => example_line |}.

(** The keys of a formatted group with their offsets. *)
Fixpoint positions (pos : nat) (keys : list pystr) : list (nat * pystr) :=
  match keys with
  | [] => []
  | key :: rest => (pos, key) :: positions (pos + length key + 2) rest
  end.

(** The length of the text of the keys that stand before a key of a
    formatted group, each with its comma and space. *)
Definition width (keys : list pystr) : nat :=
  length (concat (map (fun key => key ++ py ", ") keys)).

(** An iteration order for sets: an enumeration without repetition of the
    elements of the list the set was built from. *)
Definition set_order_ok (set_order : list pystr -> list pystr) : Prop :=
  forall l, NoDup (set_order l) /\ forall x, In x (set_order l) <-> In x l.

(** Two keys in the order of their years. *)
Definition year_le (k1 k2 : pystr) : Prop :=
  exists y1 y2,
    year_of k1 = Ok y1 /\ year_of k2 = Ok y2 /\ str_ltb y2 y1 = false.

(** A key with one colon: the keys that [split_key] accepts. *)
Definition one_colon (k : pystr) : Prop := count_occ N.eq_dec k colon = 1.

(** The commands of the panel after a citation was chosen. *)
Definition menu (group : list pystr) (key : pystr) : list pystr :=
  [py "Insert " ++ format_citekeys group;
   key ++ py ": Open PDF";
   py "Insert Markdown link";
   py "-----------------"].

(** The deferred call that inserts a text. *)
Definition insert_text (citetext : pystr) (loc : Z * Z) : call :=
  set_timeout (run_command (py "insert_citation_text") citetext loc) 10.

(** One iteration order for sets: the order of first occurrence. *)
Definition first_seen : list pystr -> list pystr :=
  nodup (list_eq_dec N.eq_dec).

(** The command after [run] on a line with one key under the cursor. *)
Definition example_command : InsertCitationCommand :=
  {| citations := [py "Jones 2019 B Title"; py "Smith 2020 A Title"];
     citekeys := [py "jones:2019cd"; py "smith:2020ab"];
     citekey := PyStr (py "smith:2020ab");
     group := [py "smith:2020ab"];
     location := (104, 132)%Z;
     commands := [py "smith:2020ab: Open PDF"; py "-----------------"] |}.

(** The command after a citation was chosen from the panel. *)
Definition chosen_command : InsertCitationCommand :=
  {| citations := [py "Jones 2019 B Title"; py "Smith 2020 A Title"];
     citekeys := [py "jones:2019cd"; py "smith:2020ab"];
     citekey := PyStr (py "jones:2019cd");
     group := [py "jones:2019cd"; py "smith:2020ab"];
     location := (104, 132)%Z;
     commands := menu [py "jones:2019cd"; py "smith:2020ab"]
                      (py "jones:2019cd") |}.

(** A view whose line starts with a tab, with the cursor on the first
    character of the key. *)
Definition tabbed_view : View :=
  {| sel := [ {| Region.a := 2; Region.b := 2 |} ];
     line := fun _ => {| Region.a := 0; Region.b := 15 |};
     substr := fun _ => tab :: py "{smith:2020ab}" |}.

(** * Properties *)

(** ** Values and the error monad *)

Lemma bind_Ok {A B} (m : result A) (k : A -> result B) (b : B) :
  bind m k = Ok b -> exists a, m = Ok a /\ k a = Ok b.
Proof. destruct m as [a|e]; simpl; intros H; [eauto | discriminate]. Qed.

Lemma pystr_eqb_eq (a b : pystr) : pystr_eqb a b = true <-> a = b.
Proof.
  unfold pystr_eqb. destruct (list_eq_dec N.eq_dec a b); split; congruence.
Qed.

Lemma pystr_eqb_refl (a : pystr) : pystr_eqb a a = true.
Proof. apply pystr_eqb_eq. reflexivity. Qed.

Lemma value_eqb_eq (a b : value) : value_eqb a b = true <-> a = b.
Proof.
  destruct a as [|x], b as [|y]; simpl; try (split; congruence).
  rewrite pystr_eqb_eq. split; congruence.
Qed.

Lemma py_app (a b : string) : py (a ++ b) = py a ++ py b.
Proof.
  unfold py. induction a as [|c a IH]; simpl; [reflexivity|].
  f_equal. exact IH.
Qed.

(** ** UTF-8 and CRC-32 *)

Lemma utf8_char_scalar (c : N) :
  scalar_value c = true <-> exists b, utf8_char c = Ok b.
Proof.
  unfold scalar_value, utf8_char.
  destruct (N.ltb_spec c 0x80); [split; [eauto|intros _]|].
  { destruct (N.ltb_spec c 0xD800); [reflexivity | lia]. }
  destruct (N.ltb_spec c 0x800); [split; [eauto|intros _]|].
  { destruct (N.ltb_spec c 0xD800); [reflexivity | lia]. }
  destruct (N.ltb_spec c 0x10000).
  - destruct (N.leb_spec 0xD800 c), (N.leb_spec c 0xDFFF),
      (N.ltb_spec c 0xD800), (N.ltb_spec 0xDFFF c), (N.ltb_spec c 0x110000);
      simpl; try lia; split; eauto; try discriminate;
      intros [b Hb]; discriminate.
  - destruct (N.ltb_spec c 0xD800), (N.ltb_spec 0xDFFF c),
      (N.ltb_spec c 0x110000); simpl; try lia; split; eauto;
      try discriminate; intros [b Hb]; discriminate.
Qed.

Lemma encodable_forallb (s : pystr) :
  encodable s <-> forallb scalar_value s = true.
Proof.
  unfold encodable. induction s as [|c s IH]; simpl.
  - split; eauto.
  - rewrite andb_true_iff, <- IH, utf8_char_scalar. split.
    + intros [b Hb]. apply bind_Ok in Hb as (b1 & H1 & Hb).
      apply bind_Ok in Hb as (b2 & H2 & _). eauto.
    + intros [[b1 H1] [b2 H2]]. rewrite H1, H2. simpl. eauto.
Qed.

Lemma encodable_app (a b : pystr) :
  encodable (a ++ b) <-> encodable a /\ encodable b.
Proof.
  rewrite !encodable_forallb, forallb_app, andb_true_iff. reflexivity.
Qed.

Lemma lxor_lt_pow2 (a b n : N) :
  (a < 2 ^ n -> b < 2 ^ n -> N.lxor a b < 2 ^ n)%N.
Proof.
  intros Ha Hb.
  destruct (N.eq_dec (N.lxor a b) 0) as [E|E].
  { rewrite E. apply N.neq_0_lt_0. apply N.pow_nonzero. discriminate. }
  apply N.log2_lt_pow2; [lia|].
  eapply N.le_lt_trans; [apply N.log2_lxor|].
  destruct (N.eq_dec a 0) as [Ea|Ea], (N.eq_dec b 0) as [Eb|Eb]; subst.
  - exfalso. apply E. reflexivity.
  - rewrite N.max_r by (simpl; lia). apply N.log2_lt_pow2; [lia|exact Hb].
  - rewrite N.max_l by (simpl; lia). apply N.log2_lt_pow2; [lia|exact Ha].
  - apply N.max_lub_lt; apply N.log2_lt_pow2; lia.
Qed.

Lemma shiftr1_lt (c : N) : (c < 2 ^ 32 -> N.shiftr c 1 < 2 ^ 31)%N.
Proof.
  intros H. rewrite N.shiftr_div_pow2. change (2 ^ 1)%N with 2%N.
  apply N.Div0.div_lt_upper_bound. exact H.
Qed.

Lemma crc_bit_lt (c : N) : (c < 2 ^ 32 -> crc_bit c < 2 ^ 32)%N.
Proof.
  intros H. unfold crc_bit. pose proof (shiftr1_lt H) as H1.
  destruct (N.testbit c 0).
  - apply lxor_lt_pow2; [|vm_compute; reflexivity].
    eapply N.lt_trans; [exact H1|vm_compute; reflexivity].
  - eapply N.lt_trans; [exact H1|vm_compute; reflexivity].
Qed.

Lemma crc_byte_lt (c b : N) :
  (c < 2 ^ 32 -> b < 2 ^ 32 -> crc_byte c b < 2 ^ 32)%N.
Proof.
  intros Hc Hb. unfold crc_byte.
  apply N.iter_invariant; [exact crc_bit_lt|].
  apply lxor_lt_pow2; assumption.
Qed.

Lemma crc32_lt (data : pybytes) :
  Forall (fun b => b < 2 ^ 32)%N data -> (crc32 data < 2 ^ 32)%N.
Proof.
  intros H. unfold crc32.
  apply lxor_lt_pow2; [|vm_compute; reflexivity].
  assert (Hinit : (0xFFFFFFFF < 2 ^ 32)%N) by (vm_compute; reflexivity).
  revert Hinit. generalize 0xFFFFFFFF%N as c.
  induction H as [|b data Hb _ IH]; intros c Hc; simpl; [exact Hc|].
  apply IH. apply crc_byte_lt; assumption.
Qed.

Lemma lor_lt_pow2 (a b n : N) :
  (a < 2 ^ n -> b < 2 ^ n -> N.lor a b < 2 ^ n)%N.
Proof.
  intros Ha Hb.
  destruct (N.eq_dec a 0) as [Ea|Ea]; [subst; rewrite N.lor_0_l; exact Hb|].
  destruct (N.eq_dec b 0) as [Eb|Eb]; [subst; rewrite N.lor_0_r; exact Ha|].
  assert (E : N.lor a b <> 0%N).
  { intros E. apply N.lor_eq_0_iff in E. tauto. }
  apply N.log2_lt_pow2; [lia|].
  rewrite N.log2_lor.
  apply N.max_lub_lt; apply N.log2_lt_pow2; lia.
Qed.

Lemma continuation_byte (c k : N) : (continuation c k < 256)%N.
Proof.
  unfold continuation. change 256%N with (2 ^ 8)%N.
  apply lor_lt_pow2; [vm_compute; reflexivity|].
  change 0x3F%N with (N.ones 6). rewrite N.land_ones.
  eapply N.lt_trans; [apply N.mod_lt; discriminate|].
  vm_compute; reflexivity.
Qed.

Lemma leading_byte (tag c k : N) :
  (tag < 256 -> c < 2 ^ k * 256 -> N.lor tag (N.shiftr c k) < 256)%N.
Proof.
  intros Ht Hc. change 256%N with (2 ^ 8)%N.
  apply lor_lt_pow2; [exact Ht|].
  rewrite N.shiftr_div_pow2. apply N.Div0.div_lt_upper_bound. exact Hc.
Qed.

Local Opaque N.lor N.shiftr N.land.

Lemma utf8_char_bytes (c : N) (b : pybytes) :
  utf8_char c = Ok b -> Forall (fun x => x < 256)%N b.
Proof.
  unfold utf8_char.
  destruct (N.ltb_spec c 0x80).
  { intros E. injection E as <-. apply Forall_cons; [lia|apply Forall_nil]. }
  destruct (N.ltb_spec c 0x800).
  { intros E. injection E as <-.
    repeat apply Forall_cons; try apply Forall_nil;
      try apply continuation_byte.
    apply leading_byte; [reflexivity|].
    change (2 ^ 6 * 256)%N with 16384%N. lia. }
  destruct (N.ltb_spec c 0x10000).
  { destruct ((0xD800 <=? c) && (c <=? 0xDFFF))%N; [discriminate|].
    intros E. injection E as <-.
    repeat apply Forall_cons; try apply Forall_nil;
      try apply continuation_byte.
    apply leading_byte; [reflexivity|].
    change (2 ^ 12 * 256)%N with 1048576%N. lia. }
  destruct (N.ltb_spec c 0x110000); [|discriminate].
  intros E. injection E as <-.
  repeat apply Forall_cons; try apply Forall_nil;
    try apply continuation_byte.
  apply leading_byte; [reflexivity|].
  change (2 ^ 18 * 256)%N with 67108864%N. lia.
Qed.

Local Transparent N.lor N.shiftr N.land.

Lemma utf8_encode_bytes (s : pystr) (b : pybytes) :
  utf8_encode s = Ok b -> Forall (fun x => x < 256)%N b.
Proof.
  revert b. induction s as [|c s IH]; simpl; intros b H.
  - injection H as <-. constructor.
  - apply bind_Ok in H as (b1 & H1 & H).
    apply bind_Ok in H as (b2 & H2 & H). injection H as <-.
    apply Forall_app. split; [eapply utf8_char_bytes; eauto | auto].
Qed.

(** The checksum is an unsigned 32-bit number, so the mask in [gen_crc]
    leaves it as it is. *)
Lemma gen_crc_crc32 (s : pystr) (b : pybytes) :
  utf8_encode s = Ok b -> gen_crc s = Ok (crc32 b) /\ (crc32 b < 2 ^ 32)%N.
Proof.
  intros H. unfold gen_crc. rewrite H. simpl.
  assert (L : (crc32 b < 2 ^ 32)%N).
  { apply crc32_lt. eapply Forall_impl; [|eapply utf8_encode_bytes; eauto].
    intros x Hx. simpl in Hx. eapply N.lt_trans; [exact Hx|].
    vm_compute; reflexivity. }
  split; [|exact L].
  change 0xffffffff%N with (N.ones 32). rewrite N.land_ones.
  rewrite N.mod_small by exact L. reflexivity.
Qed.

(** ** Hash engine *)

Lemma nth_error_chr_range (a b : N) (i : nat) :
  i < N.to_nat b - N.to_nat a ->
  nth_error (map chr (range a b)) i = Some (chr (a + N.of_nat i)).
Proof.
  intros H. unfold range. rewrite !nth_error_map, nth_error_seq.
  destruct (Nat.ltb_spec i (N.to_nat b - N.to_nat a)); [|lia].
  simpl. rewrite Nat2N.inj_add, N2Nat.id. reflexivity.
Qed.

Lemma len_alphabet : len alphabet = 26%N.
Proof. reflexivity. Qed.

Lemma getitem_alphabet (n : N) :
  (n < 26)%N -> getitem alphabet n = Ok (chr (ord "a" + n)).
Proof.
  intros H. unfold getitem, alphabet.
  rewrite nth_error_chr_range.
  - rewrite N2Nat.id. reflexivity.
  - change (N.to_nat (ord "z" + 1) - N.to_nat (ord "a")) with 26. lia.
Qed.

Lemma getitem_In {A} (l : list A) (n : N) (a : A) :
  getitem l n = Ok a -> In a l.
Proof.
  unfold getitem. destruct (nth_error l (N.to_nat n)) eqn:E; [|discriminate].
  intros [= <-]. eapply nth_error_In; eauto.
Qed.

Lemma getitem_lt {A} (l : list A) (n : N) :
  (n < len l)%N -> exists a, getitem l n = Ok a.
Proof.
  intros H. unfold getitem, len in *.
  destruct (nth_error l (N.to_nat n)) eqn:E; [eauto|].
  apply nth_error_None in E. lia.
Qed.

(** The two indices computed by [gen_hash] are in range. *)
Lemma hash_indices (n1 k : N) :
  (k <> 0)%N ->
  (n1 mod (26 * k) / 26 < k)%N /\ ((n1 mod (26 * k)) mod 26 < 26)%N.
Proof.
  intros Hk. split.
  - apply N.Div0.div_lt_upper_bound. apply N.mod_lt. lia.
  - apply N.mod_lt. discriminate.
Qed.

Lemma gen_hash_unfold (text : pystr) (suffixes : list pystr) (b : pybytes) :
  utf8_encode text = Ok b ->
  suffixes <> [] ->
  exists s,
    getitem suffixes (crc32 b mod (26 * len suffixes) / 26) = Ok s /\
    gen_hash text suffixes
    = Ok (s ++ chr (ord "a" + (crc32 b mod (26 * len suffixes)) mod 26)).
Proof.
  intros Hb Hs.
  assert (Hk : len suffixes <> 0%N).
  { unfold len. destruct suffixes; [congruence|simpl; lia]. }
  destruct (hash_indices (crc32 b) Hk) as [H3 H4].
  destruct (getitem_lt suffixes H3) as [s Hs3].
  exists s. split; [exact Hs3|].
  unfold gen_hash. destruct (gen_crc_crc32 text Hb) as [-> _].
  cbn [bind]. rewrite len_alphabet.
  destruct (N.eqb_spec (26 * len suffixes) 0); [lia|].
  rewrite Hs3. cbn [bind]. rewrite getitem_alphabet by exact H4.
  reflexivity.
Qed.

Lemma gen_hash_total (text : pystr) (suffixes : list pystr) :
  encodable text -> suffixes <> [] -> exists h, gen_hash text suffixes = Ok h.
Proof.
  intros [b Hb] Hs. destruct (gen_hash_unfold text Hb Hs) as (s & _ & H).
  eauto.
Qed.

Lemma gen_hash_encodable (text : pystr) (suffixes : list pystr) (h : pystr) :
  gen_hash text suffixes = Ok h -> encodable text.
Proof.
  unfold gen_hash, gen_crc. intros H.
  apply bind_Ok in H as (n1 & H & _).
  apply bind_Ok in H as (b & H & _). exists b. exact H.
Qed.

(** A hash is an element of the suffix table followed by a lowercase
    letter. *)
Lemma gen_hash_shape (text : pystr) (suffixes : list pystr) (h : pystr) :
  gen_hash text suffixes = Ok h ->
  exists s c, In s suffixes /\ (ord "a" <= c <= ord "z")%N /\ h = s ++ [c].
Proof.
  intros H. pose proof (gen_hash_encodable _ _ H) as [b Hb].
  assert (Hs : suffixes <> []).
  { intros ->. unfold gen_hash in H. rewrite (proj1 (gen_crc_crc32 text Hb)) in H.
    simpl in H. discriminate. }
  destruct (gen_hash_unfold text Hb Hs) as (s & Hs3 & E).
  rewrite E in H. injection H as <-.
  exists s, (ord "a" + (crc32 b mod (26 * len suffixes)) mod 26)%N.
  split; [eapply getitem_In; eauto|]. split; [|reflexivity].
  assert (L : ((crc32 b mod (26 * len suffixes)) mod 26 < 26)%N)
    by (apply N.mod_lt; discriminate).
  revert L. generalize ((crc32 b mod (26 * len suffixes)) mod 26)%N.
  intros m L. change (ord "a") with 97%N. change (ord "z") with 122%N. lia.
Qed.

(** Case analysis on membership in one of the fixed suffix tables. *)
Ltac in_table Hs Hc :=
  repeat (destruct Hs as [<-|Hs];
          [eexists _, _; split; [reflexivity|];
           split; [vm_compute; split; discriminate|exact Hc]|]);
  contradiction.

Lemma gen_title_hash_shape (t : pystr) (v : value) :
  gen_title_hash (PyStr t) = Ok v ->
  exists x y, v = PyStr [x; y] /\ (ord "t" <= x <= ord "w")%N
              /\ (ord "a" <= y <= ord "z")%N.
Proof.
  simpl. intros H. apply bind_Ok in H as (h & H & E). injection E as <-.
  apply gen_hash_shape in H as (s & c & Hs & Hc & ->).
  vm_compute in Hs. in_table Hs Hc.
Qed.

Lemma gen_doi_hash_shape (d : pystr) (v : value) :
  gen_doi_hash (PyStr d) = Ok v ->
  exists x y, v = PyStr [x; y] /\ (ord "b" <= x <= ord "k")%N
              /\ (ord "a" <= y <= ord "z")%N.
Proof.
  simpl. intros H. apply bind_Ok in H as (h & H & E). injection E as <-.
  apply gen_hash_shape in H as (s & c & Hs & Hc & ->).
  vm_compute in Hs. in_table Hs Hc.
Qed.

(** A title hash and a DOI hash never coincide: their first letters come
    from disjoint tables, and a missing title hashes to [None]. *)
Lemma doi_hash_not_title_hash (d : pystr) (title h : value) :
  gen_doi_hash (PyStr d) = Ok h -> gen_title_hash title <> Ok h.
Proof.
  intros Hd Ht. apply gen_doi_hash_shape in Hd as (x & y & -> & Hx & _).
  destruct title as [|t]; [discriminate|].
  apply gen_title_hash_shape in Ht as (x' & y' & E & Hx' & _).
  injection E as -> _.
  change (ord "t") with 116%N in Hx'. change (ord "k") with 107%N in Hx. lia.
Qed.

(** C2: for every text with UTF-8 bytes [b] and every suffix table [A] of
    four one-character strings, [gen_hash text A] is [A[n3]] followed by the
    letter [alphabet[n4]], where [n1] is the CRC-32 of [b] as an unsigned
    32-bit number, [n2 = n1 mod (26 * 4)], [n3 = n2 div 26] and
    [n4 = n2 mod 26]; the result has two characters and is determined by the
    input. *)
Theorem gen_hash_spec (text : pystr) (A : list pystr) (b : pybytes) :
  length A = 4 ->
  Forall (fun s => length s = 1) A ->
  utf8_encode text = Ok b ->
  let n1 := crc32 b in
  let n2 := (n1 mod (26 * 4))%N in
  let n3 := (n2 / 26)%N in
  let n4 := (n2 mod 26)%N in
  (n1 < 2 ^ 32)%N /\
  gen_crc text = Ok n1 /\
  exists s l,
    nth_error A (N.to_nat n3) = Some s /\
    nth_error alphabet (N.to_nat n4) = Some l /\
    l = chr (ord "a" + n4) /\
    length (s ++ l) = 2 /\
    gen_hash text A = Ok (s ++ l) /\
    forall r, gen_hash text A = r -> r = Ok (s ++ l).
Proof.
  intros HA H1 Hb n1 n2 n3 n4.
  destruct (gen_crc_crc32 text Hb) as [Hcrc Hlt].
  split; [exact Hlt|]. split; [exact Hcrc|].
  assert (HA' : A <> []) by (intros ->; discriminate).
  destruct (gen_hash_unfold text Hb HA') as (s & Hs & Hh).
  assert (Hlen : len A = 4%N) by (unfold len; rewrite HA; reflexivity).
  rewrite Hlen in Hs, Hh. fold n1 n2 n3 in Hs. fold n1 n2 n4 in Hh.
  assert (H4 : (n4 < 26)%N) by (apply N.mod_lt; discriminate).
  exists s, (chr (ord "a" + n4)).
  unfold getitem in Hs.
  destruct (nth_error A (N.to_nat n3)) as [s'|] eqn:E; [|discriminate].
  injection Hs as ->.
  split; [reflexivity|]. split.
  { pose proof (getitem_alphabet H4) as G. unfold getitem in G.
    destruct (nth_error alphabet (N.to_nat n4)); congruence. }
  split; [reflexivity|]. split.
  { rewrite length_app. apply nth_error_In in E.
    rewrite Forall_forall in H1. rewrite (H1 _ E). reflexivity. }
  split; [exact Hh|]. intros r <-. exact Hh.
Qed.

Lemma gen_hash_spec_witness :
  length title_suffix = 4 /\
  Forall (fun s => length s = 1) title_suffix /\
  utf8_encode (py "a title") = Ok (py "a title") /\
  gen_hash (py "a title") title_suffix = Ok (py "tx").
Proof.
  split; [reflexivity|]. split; [repeat constructor|].
  split; [reflexivity|].
  destruct (@gen_hash_spec (py "a title") title_suffix (py "a title")
              eq_refl ltac:(repeat constructor) eq_refl)
    as (_ & _ & s & l & Hs & Hl & _ & _ & Hh & _).
  vm_compute in Hs, Hl. injection Hs as <-. injection Hl as <-.
  exact Hh.
Defined.

(** ** Citekey codec *)

Lemma split_no_sep (sep : N) (s : pystr) :
  ~ In sep s -> split sep s = [s].
Proof.
  induction s as [|c s IH]; simpl; intros H; [reflexivity|].
  destruct (N.eqb_spec c sep) as [->|Hc]; [exfalso; auto|].
  rewrite IH by tauto. reflexivity.
Qed.

Lemma split_app_sep (sep : N) (a b : pystr) :
  ~ In sep a -> split sep (a ++ sep :: b) = a :: split sep b.
Proof.
  induction a as [|c a IH]; simpl; intros H.
  - rewrite N.eqb_refl. reflexivity.
  - destruct (N.eqb_spec c sep) as [->|Hc]; [exfalso; auto|].
    rewrite IH by tauto. reflexivity.
Qed.

Lemma In_split_first (sep : N) (s : pystr) :
  In sep s ->
  exists a b, s = a ++ sep :: b /\ ~ In sep a.
Proof.
  induction s as [|c s IH]; simpl; [contradiction|].
  intros H. destruct (N.eq_dec c sep) as [->|Hc].
  - exists [], s. split; [reflexivity|intros []].
  - destruct H as [H|H]; [contradiction|].
    destruct (IH H) as (a & b & -> & Ha).
    exists (c :: a), b. split; [reflexivity|].
    intros [E|E]; [congruence|contradiction].
Qed.

Lemma split_key_no_colon (citekey : pystr) :
  ~ In colon citekey -> split_key citekey = Raise ValueError.
Proof. intros H. unfold split_key. rewrite split_no_sep by exact H. reflexivity. Qed.

Lemma split_key_one_colon (base suffix : pystr) :
  ~ In colon base -> ~ In colon suffix ->
  split_key (base ++ colon :: suffix)
  = Ok (base, firstn 4 suffix, skipn 4 suffix).
Proof.
  intros Hb Hs. unfold split_key.
  rewrite split_app_sep by exact Hb. rewrite split_no_sep by exact Hs.
  reflexivity.
Qed.

(** C7: a citekey with no colon is malformed: [split_key] raises (the
    [ValueError] of the failed unpacking, as for ["bad-key-no-colon"]); a
    citekey with a single colon splits into the part before the colon, the
    first four characters after it, and the remaining characters. *)
Theorem split_key_spec (citekey : pystr) :
  (~ In colon citekey -> split_key citekey = Raise ValueError) /\
  (count_occ N.eq_dec citekey colon = 1 ->
   exists base suffix,
     citekey = base ++ colon :: suffix /\
     ~ In colon base /\ ~ In colon suffix /\
     split_key citekey = Ok (base, firstn 4 suffix, skipn 4 suffix)) /\
  (forall base suffix,
     citekey = base ++ colon :: suffix ->
     ~ In colon base -> ~ In colon suffix ->
     split_key citekey = Ok (base, firstn 4 suffix, skipn 4 suffix)) /\
  split_key (py "bad-key-no-colon") = Raise ValueError.
Proof.
  split; [apply split_key_no_colon|]. split; [|split].
  - intros H.
    assert (Hin : In colon citekey).
    { apply (count_occ_In N.eq_dec). lia. }
    destruct (In_split_first _ _ Hin) as (base & suffix & -> & Hb).
    exists base, suffix. split; [reflexivity|]. split; [exact Hb|].
    assert (Hs : ~ In colon suffix).
    { rewrite count_occ_app in H. simpl in H.
      destruct (N.eq_dec colon colon); [|congruence].
      apply (count_occ_not_In N.eq_dec). lia. }
    split; [exact Hs|]. apply split_key_one_colon; assumption.
  - intros base suffix -> Hb Hs. apply split_key_one_colon; assumption.
  - reflexivity.
Qed.

Lemma format_citekey_str (base year : pystr) (h : value) :
  format_citekey (PyStr base) (PyStr year) h
  = base ++ colon :: year ++ format_s h.
Proof. reflexivity. Qed.

Lemma gen_doi_hash_total (d : pystr) :
  encodable d ->
  exists x y, gen_doi_hash (PyStr d) = Ok (PyStr [x; y]) /\
              (ord "b" <= x <= ord "k")%N /\ (ord "a" <= y <= ord "z")%N.
Proof.
  intros H. destruct (@gen_hash_total d doi_suffix H) as [h Hh]; [discriminate|].
  assert (E : gen_doi_hash (PyStr d) = Ok (PyStr h)) by (simpl; rewrite Hh; reflexivity).
  destruct (gen_doi_hash_shape _ E) as (x & y & Ev & Hx & Hy).
  exists x, y. rewrite E, Ev. auto.
Qed.

Lemma gen_title_hash_total (t : pystr) :
  encodable t ->
  exists x y, gen_title_hash (PyStr t) = Ok (PyStr [x; y]) /\
              (ord "t" <= x <= ord "w")%N /\ (ord "a" <= y <= ord "z")%N.
Proof.
  intros H. destruct (@gen_hash_total t title_suffix H) as [h Hh]; [discriminate|].
  assert (E : gen_title_hash (PyStr t) = Ok (PyStr h)) by (simpl; rewrite Hh; reflexivity).
  destruct (gen_title_hash_shape _ E) as (x & y & Ev & Hx & Hy).
  exists x, y. rewrite E, Ev. auto.
Qed.

(** C6: with a non-empty DOI the hash component of the citekey is the DOI
    hash, which is never the title hash; with an absent or empty DOI it is
    the title hash. *)
Theorem gen_citekey_prefers_doi (base year : pystr) (doi title : value) :
  (forall d, doi = PyStr d -> d <> [] ->
     gen_citekey (PyStr base) (PyStr year) doi title
     = (h <- gen_doi_hash doi ;; Ok (base ++ py ":" ++ year ++ format_s h)) /\
     (forall h, gen_doi_hash doi = Ok h ->
        gen_title_hash title <> Ok h /\
        exists s, h = PyStr s /\ length s = 2 /\
          gen_citekey (PyStr base) (PyStr year) doi title
          = Ok (base ++ py ":" ++ year ++ s)) /\
     (encodable d -> exists h, gen_doi_hash doi = Ok h)) /\
  (doi = PyNone \/ doi = PyStr [] ->
     gen_citekey (PyStr base) (PyStr year) doi title
     = (h <- gen_title_hash title ;; Ok (base ++ py ":" ++ year ++ format_s h))).
Proof.
  split.
  - intros d -> Hd.
    assert (T : truthy (PyStr d) = true) by (destruct d; [congruence|reflexivity]).
    unfold gen_citekey. rewrite T. split; [reflexivity|]. split.
    + intros h Hh. split; [eapply doi_hash_not_title_hash; eauto|].
      destruct (gen_doi_hash_shape _ Hh) as (x & y & -> & _).
      exists [x; y]. split; [reflexivity|]. split; [reflexivity|].
      rewrite Hh. reflexivity.
    + intros He. destruct (gen_doi_hash_total He) as (x & y & E & _). eauto.
  - intros [->| ->]; reflexivity.
Qed.

(** C10: with an absent or empty DOI and an absent title, [gen_citekey] does
    not fail; the key ends with the four characters of ["None"] in the place
    of a two-character hash. *)
Theorem gen_citekey_no_doi_no_title (base year : pystr) :
  gen_citekey (PyStr base) (PyStr year) PyNone PyNone
  = Ok (base ++ py ":" ++ year ++ py "None") /\
  gen_citekey (PyStr base) (PyStr year) (PyStr (py "")) PyNone
  = Ok (base ++ py ":" ++ year ++ py "None") /\
  length (py "None") = 4.
Proof. repeat split. Qed.

Lemma hash_no_colon (x y : N) :
  (ord "b" <= x <= ord "w")%N -> (ord "a" <= y <= ord "z")%N ->
  ~ In colon [x; y].
Proof.
  change (ord "b") with 98%N. change (ord "w") with 119%N.
  change (ord "a") with 97%N. change (ord "z") with 122%N.
  change colon with 58%N. simpl. lia.
Qed.

Lemma split_key_format (base year h : pystr) :
  ~ In colon base -> length year = 4 -> ~ In colon year -> ~ In colon h ->
  split_key (base ++ py ":" ++ year ++ h) = Ok (base, year, h).
Proof.
  intros Hb Hl Hy Hh. change (py ":" ++ year ++ h) with (colon :: year ++ h).
  rewrite split_key_one_colon; [|exact Hb|].
  - destruct year as [|y1 [|y2 [|y3 [|y4 [|]]]]]; try discriminate.
    reflexivity.
  - intros H. apply in_app_or in H. tauto.
Qed.

(** C3, as stated, fails: with an empty DOI and no title (a pair of which
    one is present) the key ends in the text ["None"], which is not the
    absent title hash; and a year that holds a colon makes the key
    unsplittable. *)
Lemma roundtrip_counterexample :
  (alphabetic (py "smith") /\ length (py "2020") = 4 /\
   ~ roundtrip (py "smith") (py "2020") (PyStr (py "")) PyNone) /\
  (alphabetic (py "smith") /\ length (py "20:0") = 4 /\
   ~ roundtrip (py "smith") (py "20:0") (PyStr (py "10.1/xyz")) PyNone).
Proof.
  split; (split; [repeat constructor|]); (split; [reflexivity|]).
  - intros (key & h & c & Hk & Hh & _ & Hc).
    vm_compute in Hh. injection Hh as <-. discriminate.
  - intros (key & h & c & Hk & _ & Hs & _).
    vm_compute in Hk. injection Hk as <-. vm_compute in Hs. discriminate.
Qed.

(** C3, amended: for a colon-free base, a colon-free year of four characters,
    and a DOI and title such that the DOI is non-empty or the title is
    present, the hashed one having UTF-8 bytes, splitting the generated key
    returns the base, the year and the expected hash. *)
Theorem split_gen_citekey (base year : pystr) (doi title : value) :
  ~ In colon base ->
  length year = 4 -> ~ In colon year ->
  truthy doi = true \/ title <> PyNone ->
  encodable_value (if truthy doi then doi else title) ->
  roundtrip base year doi title.
Proof.
  intros Hb Hl Hy Hp He. unfold roundtrip, gen_citekey, expected_hash.
  destruct (truthy doi) eqn:T.
  - destruct doi as [|d]; [discriminate|]. simpl in He.
    destruct (gen_doi_hash_total He) as (x & y & E & Hx & Hyy).
    rewrite E. exists (base ++ py ":" ++ year ++ [x; y]), (PyStr [x; y]), [x; y].
    split; [reflexivity|]. split; [reflexivity|]. split; [|reflexivity].
    apply split_key_format; try assumption.
    apply hash_no_colon; [|exact Hyy].
    change (ord "k") with 107%N in Hx. change (ord "w") with 119%N. lia.
  - destruct Hp as [Hp|Hp]; [discriminate|].
    destruct title as [|t]; [congruence|]. simpl in He.
    destruct (gen_title_hash_total He) as (x & y & E & Hx & Hyy).
    rewrite E. exists (base ++ py ":" ++ year ++ [x; y]), (PyStr [x; y]), [x; y].
    split; [reflexivity|]. split; [reflexivity|]. split; [|reflexivity].
    apply split_key_format; try assumption.
    apply hash_no_colon; [|exact Hyy].
    change (ord "t") with 116%N in Hx. change (ord "b") with 98%N. lia.
Qed.

Lemma split_gen_citekey_witness :
  roundtrip (py "smith") (py "2020") (PyStr (py "10.1/xyz")) (PyStr (py "a title")).
Proof.
  apply split_gen_citekey.
  - vm_compute. intuition discriminate.
  - reflexivity.
  - vm_compute. intuition discriminate.
  - left. reflexivity.
  - eexists. vm_compute. reflexivity.
Defined.

(** ** Reference index *)

Lemma list_citations_from_app (a b : list Publication) :
  list_citations_from (a ++ b)
  = list_citations_from a ++ list_citations_from b.
Proof.
  induction a as [|r a IH]; simpl; [reflexivity|].
  destruct (try_citekey r); rewrite IH; reflexivity.
Qed.

Lemma list_citations_from_map (rows : list Publication) :
  list_citations_from rows = map citation (filter processed rows).
Proof.
  induction rows as [|r rows IH]; [reflexivity|].
  cbn [list_citations_from filter]. rewrite IH.
  destruct (try_citekey r) eqn:E.
  - assert (P : processed r = true) by (unfold processed; rewrite E; reflexivity).
    rewrite P. cbn [map]. unfold citation at 2. rewrite E. reflexivity.
  - assert (P : processed r = false) by (unfold processed; rewrite E; reflexivity).
    rewrite P. reflexivity.
Qed.

(** C5, as stated, fails: a record whose date is too short for a year is
    listed all the same, with the empty year that the slice gives. *)
Lemma short_date_counterexample :
  lacks_year (publication_date short_date_record) /\
  list_citations {| Publication_table := [short_date_record]; PDF_table := [] |}
  = [(py "Smith 2020 A Title", py "smith:tx")] /\
  list_citations {| Publication_table := [short_date_record]; PDF_table := [] |}
  <> [].
Proof.
  split; [vm_compute; lia|]. split; [vm_compute; reflexivity|].
  vm_compute. discriminate.
Qed.

(** C5, amended: a record with no date is skipped; a record with a date,
    however short, is listed with the key made from the characters found at
    offsets 2 to 5, unless its key cannot be generated, in which case it is
    skipped too; in every case the records before and after it are listed
    as if it were not there. *)
Theorem list_citations_skips (before after : list Publication)
        (r : Publication) (pdfs : list PDF) :
  let listing rows :=
    list_citations {| Publication_table := rows; PDF_table := pdfs |} in
  let generated d :=
    gen_citekey (citekey_base r) (PyStr (slice d 2 6)) (doi r)
                (canonical_title r) in
  (publication_date r = PyNone ->
   listing (before ++ r :: after) = listing before ++ listing after) /\
  (forall d citekey,
     publication_date r = PyStr d -> generated d = Ok citekey ->
     listing (before ++ r :: after)
     = listing before
       ++ (format_label (author_year_string r) (attributed_title r), citekey)
       :: listing after) /\
  (forall d e,
     publication_date r = PyStr d -> generated d = Raise e ->
     listing (before ++ r :: after) = listing before ++ listing after) /\
  (forall d,
     publication_date r = PyStr d ->
     encodable_value (if truthy (doi r) then doi r else canonical_title r) ->
     exists citekey, generated d = Ok citekey).
Proof.
  intros listing generated. unfold listing, generated, list_citations. simpl.
  rewrite list_citations_from_app. simpl. unfold try_citekey.
  repeat split.
  - intros ->. reflexivity.
  - intros d citekey -> E. simpl. rewrite E. reflexivity.
  - intros d e -> E. simpl. rewrite E. reflexivity.
  - intros d _ He. unfold gen_citekey.
    destruct (truthy (doi r)) eqn:T.
    + destruct (doi r) as [|x]; [discriminate|]. simpl in He.
      destruct (gen_doi_hash_total He) as (a & b & -> & _). simpl. eauto.
    + destruct (canonical_title r) as [|t]; [simpl; eauto|]. simpl in He.
      destruct (gen_title_hash_total He) as (a & b & -> & _). simpl. eauto.
Qed.

(** C8: [get_citations] returns the pairs of the successfully processed
    records in the reverse of the order in which the store yields them. *)
Theorem get_citations_reversed (db : database) :
  get_citations db
  = map citation (rev (filter processed (Publication_table db))) /\
  list_citations db = map citation (filter processed (Publication_table db)) /\
  length (get_citations db) = length (list_citations db) /\
  forall i, i < length (list_citations db) ->
    nth_error (get_citations db) i
    = nth_error (list_citations db) (length (list_citations db) - S i).
Proof.
  unfold get_citations, list_citations.
  rewrite list_citations_from_map, map_rev. repeat split.
  - apply length_rev.
  - intros i Hi. rewrite nth_error_rev.
    destruct (Nat.ltb_spec i
                (length (map citation
                           (filter processed (Publication_table db)))));
      [reflexivity|lia].
Qed.

(** ** PDF resolver *)

Lemma split_nonempty (sep : N) (s : pystr) : split sep s <> [].
Proof.
  destruct s as [|c s]; simpl; [discriminate|].
  destruct (c =? sep)%N; [discriminate|].
  destruct (split sep s); discriminate.
Qed.

Lemma split_one (sep : N) (s b : pystr) :
  split sep s = [b] -> s = b /\ ~ In sep b.
Proof.
  revert b. induction s as [|c s IH]; simpl; intros b H.
  - injection H as <-. split; [reflexivity|intros []].
  - destruct (N.eqb_spec c sep) as [->|Hc].
    + injection H as _ H. destruct (split_nonempty _ _ H).
    + destruct (split sep s) as [|p [|q l]] eqn:E;
        [destruct (split_nonempty _ _ E)| |discriminate].
      injection H as <-. destruct (IH p eq_refl) as [-> Hp].
      split; [reflexivity|]. intros [F|F]; [congruence|contradiction].
Qed.

Lemma split_two (sep : N) (s a b : pystr) :
  split sep s = [a; b] -> s = a ++ sep :: b /\ ~ In sep a /\ ~ In sep b.
Proof.
  revert a. induction s as [|c s IH]; simpl; intros a H; [discriminate|].
  destruct (N.eqb_spec c sep) as [->|Hc].
  - injection H as <- H. apply split_one in H as [-> Hb].
    split; [reflexivity|]. split; [intros []|exact Hb].
  - destruct (split sep s) as [|p [|q [|q' l]]] eqn:E;
      [destruct (split_nonempty _ _ E)|discriminate| |discriminate].
    injection H as <- <-.
    destruct (IH p eq_refl) as (-> & Hp & Hq).
    split; [reflexivity|]. split; [|exact Hq].
    intros [F|F]; [congruence|contradiction].
Qed.

Lemma split_key_Ok (citekey base year citehash : pystr) :
  split_key citekey = Ok (base, year, citehash) ->
  citekey = base ++ colon :: year ++ citehash.
Proof.
  unfold split_key.
  destruct (split colon citekey) as [|a [|b [|c l]]] eqn:E; try discriminate.
  intros H. injection H as <- <- <-.
  apply split_two in E as (-> & _).
  change (slice b 0 4) with (firstn 4 b). rewrite firstn_skipn. reflexivity.
Qed.

Lemma encodable_firstn (n : nat) (s : pystr) :
  encodable s -> encodable (firstn n s).
Proof.
  rewrite <- (firstn_skipn n s) at 1. rewrite encodable_app. tauto.
Qed.

Lemma sql_bind_ok (s : pystr) : encodable s -> sql_bind s = Ok tt.
Proof. intros [b H]. unfold sql_bind. rewrite H. reflexivity. Qed.

Lemma gen_title_hash_value (title : value) :
  encodable_value title -> exists h, gen_title_hash title = Ok h.
Proof.
  destruct title as [|t]; simpl; [eauto|]. intros H.
  destruct (gen_title_hash_total H) as (x & y & E & _). simpl in E. eauto.
Qed.

Lemma gen_doi_hash_value (doi : value) :
  encodable_value doi -> exists h, gen_doi_hash doi = Ok h.
Proof.
  destruct doi as [|d]; simpl; [eauto|]. intros H.
  destruct (gen_doi_hash_total H) as (x & y & E & _). simpl in E. eauto.
Qed.

(** On text with UTF-8 bytes the comparison of the hashes returns, and it
    says whether the record resolves the hash. *)
Lemma hash_matches_resolves (citehash : pystr) (r : Publication) :
  encodable_value (canonical_title r) -> encodable_value (doi r) ->
  exists m, hash_matches citehash (canonical_title r) (doi r) = Ok m /\
            (m = true <-> resolves citehash r).
Proof.
  intros Ht Hd. unfold hash_matches, resolves.
  destruct (gen_title_hash_value _ Ht) as [th ->].
  destruct (gen_doi_hash_value _ Hd) as [dh ->]. cbn [bind].
  destruct (value_eqb (PyStr citehash) th) eqn:E1.
  - exists true. split; [reflexivity|]. apply value_eqb_eq in E1.
    split; intros _; [left; congruence|reflexivity].
  - exists (value_eqb (PyStr citehash) dh). split; [reflexivity|].
    rewrite value_eqb_eq. split.
    + intros ->. right. reflexivity.
    + intros [H|H]; injection H as ->.
      * assert (T : value_eqb (PyStr citehash) (PyStr citehash) = true)
          by (apply value_eqb_eq; reflexivity).
        congruence.
      * reflexivity.
Qed.

(** ** What SQLite reads of a date *)

Lemma sql_chars_firstn (n : nat) (s : pystr) :
  ~ In 0%N (firstn n s) -> firstn n (sql_chars s) = firstn n s.
Proof.
  revert s. induction n as [|n IH]; intros [|c s] H; try reflexivity.
  cbn [firstn] in H. cbn [sql_chars].
  destruct (N.eqb_spec c 0) as [->|_]; [exfalso; apply H; left; reflexivity|].
  cbn [firstn]. f_equal. apply IH. intros F. apply H. right. exact F.
Qed.

Lemma sql_chars_prefix (s : pystr) : exists rest, s = sql_chars s ++ rest.
Proof.
  induction s as [|c s [rest IH]]; [exists []; reflexivity|].
  cbn [sql_chars]. destruct (c =? 0)%N.
  - exists (c :: s). reflexivity.
  - exists rest. cbn [app]. f_equal. exact IH.
Qed.

Lemma sql_chars_app (t u : pystr) :
  ~ In 0%N t -> sql_chars (t ++ u) = t ++ sql_chars u.
Proof.
  induction t as [|c t IH]; intros H; [reflexivity|].
  cbn [app sql_chars].
  destruct (N.eqb_spec c 0) as [->|_]; [exfalso; apply H; left; reflexivity|].
  f_equal. apply IH. intros F. apply H. right. exact F.
Qed.

Lemma sql_chars_before_nul (s : pystr) : before_nul s (sql_chars s).
Proof.
  unfold before_nul. induction s as [|c s [Hn IH]]; cbn [sql_chars].
  - split; [intros []|left; reflexivity].
  - destruct (N.eqb_spec c 0) as [->|Hc].
    + split; [intros []|right; exists s; reflexivity].
    + split.
      * intros [F|F]; [congruence|exact (Hn F)].
      * destruct IH as [IH|[rest IH]].
        -- left. f_equal. exact IH.
        -- right. exists rest. cbn [app]. f_equal. exact IH.
Qed.

Lemma before_nul_sql_chars (date text : pystr) :
  before_nul date text -> sql_chars date = text.
Proof.
  intros [Hn [->|[rest ->]]].
  - rewrite <- (app_nil_r text) at 1. rewrite (@sql_chars_app _ _ Hn).
    cbn [sql_chars]. apply app_nil_r.
  - rewrite (@sql_chars_app _ _ Hn). cbn [sql_chars].
    change (0 =? 0)%N with true. cbv iota. apply app_nil_r.
Qed.

(** Where the first six characters hold no NUL, SQLite and Python read the
    same year. *)
Lemma slice_sql_chars (s : pystr) :
  ~ In 0%N (firstn 6 s) -> slice (sql_chars s) 2 6 = slice s 2 6.
Proof.
  intros H. unfold slice. change (6 - 2) with 4.
  rewrite !firstn_skipn_comm. change (2 + 4) with 6.
  rewrite (@sql_chars_firstn _ _ H). reflexivity.
Qed.

(** A year of four characters read by SQLite is the one that Python reads. *)
Lemma slice_sql_chars_full (s : pystr) :
  length (slice (sql_chars s) 2 6) = 4 ->
  slice (sql_chars s) 2 6 = slice s 2 6.
Proof.
  destruct (sql_chars_prefix s) as [rest E]. revert E.
  generalize (sql_chars s). intros t -> H. unfold slice in *.
  change (6 - 2) with 4 in *.
  rewrite length_firstn, length_skipn in H.
  rewrite skipn_app, firstn_app, length_skipn.
  replace (2 - length t) with 0 by lia.
  replace (4 - (length t - 2)) with 0 by lia.
  cbn [skipn firstn]. rewrite app_nil_r. reflexivity.
Qed.

(** The first query selects the base and year candidates. *)
Lemma is_candidate_spec (base year : pystr) (r : Publication) :
  is_candidate base year r = true <-> base_year_candidate base year r.
Proof.
  unfold is_candidate, base_year_candidate. rewrite andb_true_iff. split.
  - intros [H1 H2].
    destruct (citekey_base r) as [|b]; [discriminate|].
    apply pystr_eqb_eq in H1. subst b. split; [reflexivity|].
    destruct (publication_date r) as [|d]; [discriminate|].
    apply pystr_eqb_eq in H2. exists d, (sql_chars d).
    split; [reflexivity|]. split; [apply sql_chars_before_nul|exact H2].
  - intros (-> & date & text & -> & Hb & Hy).
    cbn [sql_eq sql_substr]. rewrite (@before_nul_sql_chars _ _ Hb).
    change (firstn 4 (skipn (3 - 1) text)) with (slice text 2 6).
    rewrite Hy, !pystr_eqb_refl. auto.
Qed.

(** The second query returns nothing for a record without attachment path,
    and starts with the first attachment path of a record that has one. *)
Lemma select_paths_first (db : database) (r : Publication) :
  (select_paths db (ROWID r) = [] /\ ~ has_path db r) \/
  (exists pdf_path rest,
     select_paths db (ROWID r) = pdf_path :: rest /\
     first_path db r pdf_path).
Proof.
  unfold select_paths, has_path, first_path.
  induction (PDF_table db) as [|p l IH]; cbn [filter map].
  - left. split; [reflexivity|]. intros (p & [] & _).
  - destruct (Z.eqb_spec (object_id p) (ROWID r)) as [E|E].
    + right. eexists. eexists. split; [reflexivity|].
      exists [], p, l. split; [reflexivity|]. split; [intros p' []|].
      split; [exact E|reflexivity].
    + destruct IH
        as [[E0 Hn]|(q & rest & E0 & pb & p0 & pa & -> & Hb & Ho & Hp)].
      * left. split; [exact E0|]. intros (p0 & [<-|Hin] & Ho);
          [contradiction|]. apply Hn. exists p0. auto.
      * right. exists q, rest. split; [exact E0|].
        exists (p :: pb), p0, pa. split; [reflexivity|]. split; [|auto].
        intros p' [<-|Hin]; auto.
Qed.

Lemma filter_split {A} (f : A -> bool) (l b a : list A) (x : A) :
  filter f l = b ++ x :: a ->
  exists b' a', l = b' ++ x :: a' /\ filter f b' = b /\ f x = true.
Proof.
  revert b. induction l as [|y l IH]; intros b H; cbn [filter] in H.
  - destruct b; discriminate.
  - destruct (f y) eqn:E.
    + destruct b as [|z b]; cbn [app] in H; injection H as -> H.
      * exists [], l. repeat split. exact E.
      * destruct (IH _ H) as (b' & a' & -> & Hb & Hx).
        exists (z :: b'), a'. split; [reflexivity|]. split; [|exact Hx].
        cbn [filter]. rewrite E, Hb. reflexivity.
    + destruct (IH _ H) as (b' & a' & -> & Hb & Hx).
      exists (y :: b'), a'. split; [reflexivity|]. split; [|exact Hx].
      cbn [filter]. rewrite E. exact Hb.
Qed.

(** The first element of a list with a property is unique. *)
Lemma first_unique {A} (P : A -> Prop) (b b' a a' : list A) (x x' : A) :
  b ++ x :: a = b' ++ x' :: a' ->
  (forall y, In y b -> ~ P y) -> P x ->
  (forall y, In y b' -> ~ P y) -> P x' ->
  x = x'.
Proof.
  revert b'. induction b as [|y b IH]; intros [|y' b'] E Hb Hx Hb' Hx';
    cbn [app] in E; injection E as E1 E2.
  - exact E1.
  - exfalso. apply (Hb' y'); [left; reflexivity|]. rewrite <- E1. exact Hx.
  - exfalso. apply (Hb y); [left; reflexivity|]. rewrite E1. exact Hx'.
  - apply (IH b' E2); auto.
    + intros z Hz. apply Hb. right. exact Hz.
    + intros z Hz. apply Hb'. right. exact Hz.
Qed.

(** The loop either finds no candidate that settles the lookup and raises,
    or returns the first path of the first candidate that does. *)
Lemma find_pdf_loop_spec (basepath : pystr) (db : database)
      (citekey citehash : pystr) (candidates : list Publication) :
  Forall (fun r => encodable_value (canonical_title r) /\
                   encodable_value (doi r)) candidates ->
  let loop :=
    find_pdf_loop basepath db citekey citehash
      (map (fun r => (ROWID r, canonical_title r, doi r)) candidates) in
  ((forall r, In r candidates -> ~ settles db citehash r) /\
   loop = Raise (NoMatchingPdf citekey)) \/
  (exists before r after pdf_path,
      candidates = before ++ r :: after /\
      (forall r', In r' before -> ~ settles db citehash r') /\
      resolves citehash r /\
      first_path db r pdf_path /\
      loop = Ok (os_path_join basepath pdf_path)).
Proof.
  intros H. induction H as [|r l [Ht Hd] _ IH]; simpl.
  - left. split; [intros r []|reflexivity].
  - destruct (hash_matches_resolves citehash r Ht Hd) as (m & -> & Hm).
    cbn [bind].
    assert (Skip : ~ settles db citehash r ->
              ((forall r0, In r0 (r :: l) -> ~ settles db citehash r0) /\
               find_pdf_loop basepath db citekey citehash
                 (map (fun r => (ROWID r, canonical_title r, doi r)) l)
               = Raise (NoMatchingPdf citekey)) \/
              (exists before r0 after pdf_path,
                  r :: l = before ++ r0 :: after /\
                  (forall r', In r' before -> ~ settles db citehash r') /\
                  resolves citehash r0 /\
                  first_path db r0 pdf_path /\
                  find_pdf_loop basepath db citekey citehash
                    (map (fun r => (ROWID r, canonical_title r, doi r)) l)
                  = Ok (os_path_join basepath pdf_path))).
    { intros Hn.
      destruct IH as [[Hall E]|(b & r0 & a & p & E & Hb & Hr & Hp & El)].
      - left. split; [|exact E]. intros r0 [<-|Hin]; auto.
      - right. exists (r :: b), r0, a, p. subst l.
        split; [reflexivity|]. split; [|auto].
        intros r' [<-|Hin]; auto. }
    destruct m.
    + destruct (select_paths_first db r) as [[-> Hn]|(p & rest & -> & Hp)].
      * apply Skip. intros [_ Hh]. exact (Hn Hh).
      * right. exists [], r, l, p.
        split; [reflexivity|]. split; [intros r' []|].
        split; [apply Hm; reflexivity|]. split; [exact Hp|reflexivity].
    + apply Skip. intros [Hr _]. apply Hm in Hr. discriminate.
Qed.

(** The lookup on the tables: either no record of the store is a base and
    year candidate that settles the lookup, and [find_pdf] raises; or it
    returns the first path of the first record that is. *)
Lemma find_pdf_table (basepath : pystr) (db : database)
      (citekey base year citehash : pystr) :
  split_key citekey = Ok (base, year, citehash) ->
  encodable citekey ->
  store_text_ok db ->
  ((forall r, In r (Publication_table db) ->
      ~ (base_year_candidate base year r /\ settles db citehash r)) /\
   find_pdf basepath db citekey = Raise (NoMatchingPdf citekey)) \/
  (exists before r after pdf_path,
      Publication_table db = before ++ r :: after /\
      (forall r', In r' before ->
         ~ (base_year_candidate base year r' /\ settles db citehash r')) /\
      base_year_candidate base year r /\
      resolves citehash r /\
      first_path db r pdf_path /\
      find_pdf basepath db citekey = Ok (os_path_join basepath pdf_path)).
Proof.
  intros Hs He Hdb.
  assert (Hbase : encodable base /\ encodable year).
  { pose proof (split_key_Ok _ Hs) as E. rewrite E in He.
    apply encodable_app in He as [Hb Hr]. split; [exact Hb|].
    change (colon :: year ++ citehash)
      with ([colon] ++ year ++ citehash) in Hr.
    apply encodable_app in Hr as [_ Hr].
    apply encodable_app in Hr as [Hy _]. exact Hy. }
  destruct Hbase as [Hb Hy].
  set (candidates := filter (is_candidate base year) (Publication_table db)).
  assert (E : find_pdf basepath db citekey
              = find_pdf_loop basepath db citekey citehash
                  (map (fun r => (ROWID r, canonical_title r, doi r))
                       candidates)).
  { unfold find_pdf, select_candidates. rewrite Hs. cbn [bind].
    rewrite (sql_bind_ok Hb), (sql_bind_ok Hy). reflexivity. }
  assert (Hc : Forall (fun r => encodable_value (canonical_title r) /\
                                encodable_value (doi r)) candidates).
  { apply Forall_forall. intros r Hin. apply filter_In in Hin as [Hin _].
    unfold store_text_ok in Hdb. rewrite Forall_forall in Hdb. auto. }
  pose proof (find_pdf_loop_spec basepath db citekey citehash Hc) as Hloop.
  cbv zeta in Hloop. rewrite <- E in Hloop. clear E.
  destruct Hloop as [[Hall Er]|(b & r & a & p & Ec & Hbf & Hr & Hp & Eo)].
  - left. split; [|exact Er]. intros r Hin [Hcand Hset].
    apply (Hall r); [|exact Hset]. apply filter_In.
    split; [exact Hin|]. apply is_candidate_spec. exact Hcand.
  - right. destruct (@filter_split _ _ _ _ _ _ Ec) as (b' & a' & Et & Hfb & Hx).
    exists b', r, a', p. split; [exact Et|]. split.
    + intros r' Hin [Hcand Hset]. apply (Hbf r'); [|exact Hset].
      rewrite <- Hfb. apply filter_In.
      split; [exact Hin|]. apply is_candidate_spec. exact Hcand.
    + split; [apply is_candidate_spec; exact Hx|]. auto.
Qed.

(** C4: for a citekey that splits into base, year and hash, over a store of
    text with UTF-8 bytes (the columns of [Publication] that the plugin
    reads hold text or NULL, and the [Path] of every row of [PDF] is text),
    [find_pdf] returns a path exactly when some record of [Publication]
    whose [citekey_base] is the base, whose [publication_date] has the year
    at offsets 2 to 5, and whose recomputed title hash or DOI hash is the
    hash of the citekey, has a row of [PDF] with its [ROWID]; the path is
    the base path joined with the [Path] of the first such row for the
    first such record, the matching records before it that have no row
    being passed over; and when no record is such, [find_pdf] raises the
    error that names the citekey. *)
Theorem find_pdf_spec (basepath : pystr) (db : database)
        (citekey base year citehash : pystr) :
  split_key citekey = Ok (base, year, citehash) ->
  encodable citekey ->
  store_text_ok db ->
  ((exists path, find_pdf basepath db citekey = Ok path) <->
   (exists r, In r (Publication_table db) /\
              base_year_candidate base year r /\
              resolves citehash r /\ has_path db r)) /\
  (forall path, find_pdf basepath db citekey = Ok path ->
     exists before r after pdf_path,
       Publication_table db = before ++ r :: after /\
       (forall r', In r' before ->
          ~ (base_year_candidate base year r' /\
             resolves citehash r' /\ has_path db r')) /\
       base_year_candidate base year r /\
       resolves citehash r /\
       first_path db r pdf_path /\
       path = os_path_join basepath pdf_path) /\
  ((forall r, In r (Publication_table db) ->
      ~ (base_year_candidate base year r /\
         resolves citehash r /\ has_path db r)) ->
   find_pdf basepath db citekey = Raise (NoMatchingPdf citekey)).
Proof.
  intros Hs He Hdb.
  destruct (@find_pdf_table basepath db _ _ _ _ Hs He Hdb)
    as [[Hall Er]|(b & r & a & p & Et & Hbf & Hc & Hr & Hp & Eo)].
  - split; [|split].
    + split.
      * intros [path Hpath]. congruence.
      * intros (r & Hin & Hf). exfalso. exact (Hall r Hin Hf).
    + intros path Hpath. congruence.
    + intros _. exact Er.
  - assert (Hin : In r (Publication_table db)).
    { rewrite Et. apply in_or_app. right. left. reflexivity. }
    assert (Hh : has_path db r).
    { destruct Hp as (pb & q & pa & Ep & _ & Ho & _). exists q.
      split; [|exact Ho]. rewrite Ep. apply in_or_app. right. left.
      reflexivity. }
    split; [|split].
    + split; [|eauto]. intros _. exists r. auto.
    + intros path Hpath. exists b, r, a, p.
      repeat split; try assumption; try apply Hc. congruence.
    + intros Hall. exfalso. apply (Hall r Hin). auto.
Qed.

Lemma find_pdf_spec_witness :
  split_key (py "smith:2020br") = Ok (py "smith", py "2020", py "br") /\
  encodable (py "smith:2020br") /\
  store_text_ok duplicate_store /\
  ((exists path,
       find_pdf default_basepath duplicate_store (py "smith:2020br") = Ok path)
   <->
   (exists r,
       In r (Publication_table duplicate_store) /\
       base_year_candidate (py "smith") (py "2020") r /\
       resolves (py "br") r /\ has_path duplicate_store r)).
Proof.
  assert (H1 : split_key (py "smith:2020br")
               = Ok (py "smith", py "2020", py "br")) by reflexivity.
  assert (H2 : encodable (py "smith:2020br"))
    by (eexists; vm_compute; reflexivity).
  assert (H3 : store_text_ok duplicate_store)
    by (repeat constructor; simpl; eexists; vm_compute; reflexivity).
  split; [exact H1|]. split; [exact H2|]. split; [exact H3|].
  exact (proj1 (@find_pdf_spec default_basepath duplicate_store
                  _ _ _ _ H1 H2 H3)).
Defined.

(** The duplicate without a file is passed over. *)
Example find_pdf_duplicate :
  find_pdf default_basepath duplicate_store (py "smith:2020br")
  = Ok (py "/Users/username/Papers2/a/b.pdf").
Proof. vm_compute. reflexivity. Qed.

Example find_pdf_unresolved :
  find_pdf default_basepath duplicate_store (py "smith:2020bz")
  = Raise (NoMatchingPdf (py "smith:2020bz")).
Proof. vm_compute. reflexivity. Qed.

Lemma doi_hash_xyz : gen_doi_hash (PyStr (py "10.1/xyz")) = Ok (PyStr (py "br")).
Proof. vm_compute. reflexivity. Qed.

(** C1, as stated, fails.  In a store that holds the record and, before it,
    another paper of base ["smith"] and year ["2020"] whose DOI has the same
    hash, the citekey resolves to the file of the other paper.  And in a
    store that holds just the record, with a date that has ["2020"] at
    offsets 2 to 5 after a NUL character, the citekey resolves to no file:
    the query reads the date up to the NUL. *)
Lemma find_pdf_smith_2020_counterexample :
  (In (smith_2020 7) (Publication_table two_store) /\
   citekey_base (smith_2020 7) = PyStr (py "smith") /\
   (exists date, publication_date (smith_2020 7) = PyStr date /\
                 slice date 2 6 = py "2020") /\
   doi (smith_2020 7) = PyStr (py "10.1/xyz") /\
   map Path (filter (fun p => (object_id p =? ROWID (smith_2020 7))%Z)
                    (PDF_table two_store)) = [py "a/b.pdf"] /\
   exists h,
     gen_doi_hash (PyStr (py "10.1/xyz")) = Ok (PyStr h) /\
     find_pdf default_basepath two_store (py "smith:2020" ++ h)
     = Ok (os_path_join default_basepath (py "c/d.pdf")) /\
     find_pdf default_basepath two_store (py "smith:2020" ++ h)
     <> Ok (os_path_join default_basepath (py "a/b.pdf"))) /\
  (Publication_table nul_store = [nul_date_record] /\
   citekey_base nul_date_record = PyStr (py "smith") /\
   (exists date, publication_date nul_date_record = PyStr date /\
                 slice date 2 6 = py "2020") /\
   doi nul_date_record = PyStr (py "10.1/xyz") /\
   map Path (filter (fun p => (object_id p =? ROWID nul_date_record)%Z)
                    (PDF_table nul_store)) = [py "a/b.pdf"] /\
   exists h,
     gen_doi_hash (PyStr (py "10.1/xyz")) = Ok (PyStr h) /\
     find_pdf default_basepath nul_store (py "smith:2020" ++ h)
     = Raise (NoMatchingPdf (py "smith:2020" ++ h))).
Proof.
  split.
  - split; [right; left; reflexivity|]. split; [reflexivity|].
    split; [eexists; split; reflexivity|]. split; [reflexivity|].
    split; [reflexivity|]. exists (py "br").
    split; [exact doi_hash_xyz|]. split; [vm_compute; reflexivity|].
    vm_compute. discriminate.
  - split; [reflexivity|]. split; [reflexivity|].
    split; [eexists; split; reflexivity|]. split; [reflexivity|].
    split; [reflexivity|]. exists (py "br").
    split; [exact doi_hash_xyz|]. vm_compute. reflexivity.
Qed.

(** C1, amended: in a store of text with UTF-8 bytes that holds a record of
    base ["smith"], with a date that has ["2020"] at offsets 2 to 5 and no
    NUL character before, with the DOI ["10.1/xyz"] and with attachment
    rows that all carry the path ["a/b.pdf"], and where no record before it
    is a candidate of base ["smith"] and year ["2020"] that resolves the
    same hash and has an attachment path, [find_pdf] resolves the citekey
    ["smith:2020"] followed by the DOI hash to the base directory joined
    with ["a/b.pdf"]: the two concatenated when the base directory is empty
    or ends with a slash. *)
Theorem find_pdf_smith_2020 (basepath : pystr) (db : database)
        (before after : list Publication) (r : Publication)
        (date h : pystr) :
  store_text_ok db ->
  Publication_table db = before ++ r :: after ->
  citekey_base r = PyStr (py "smith") ->
  publication_date r = PyStr date ->
  slice date 2 6 = py "2020" -> ~ In 0%N (firstn 2 date) ->
  doi r = PyStr (py "10.1/xyz") ->
  has_path db r ->
  (forall p, In p (PDF_table db) -> object_id p = ROWID r ->
             Path p = py "a/b.pdf") ->
  gen_doi_hash (PyStr (py "10.1/xyz")) = Ok (PyStr h) ->
  (forall r', In r' before ->
     ~ (base_year_candidate (py "smith") (py "2020") r' /\
        resolves h r' /\ has_path db r')) ->
  find_pdf basepath db (py "smith:2020" ++ h)
  = Ok (os_path_join basepath (py "a/b.pdf")) /\
  (basepath = [] \/ endswith slash basepath = true ->
   os_path_join basepath (py "a/b.pdf") = basepath ++ py "a/b.pdf").
Proof.
  intros Hdb Ht Hbase Hdate Hyear Hnul Hdoi Hhas Hpaths Hh Hbefore.
  rewrite doi_hash_xyz in Hh. injection Hh as <-.
  split.
  - assert (Hcand : base_year_candidate (py "smith") (py "2020") r).
    { split; [exact Hbase|]. exists date, (sql_chars date).
      split; [exact Hdate|]. split; [apply sql_chars_before_nul|].
      rewrite slice_sql_chars; [exact Hyear|].
      destruct date as [|c0 [|c1 s]]; try discriminate.
      change (slice (c0 :: c1 :: s) 2 6) with (firstn 4 s) in Hyear.
      change (firstn 6 (c0 :: c1 :: s)) with (c0 :: c1 :: firstn 4 s).
      rewrite Hyear. intros [F|[F|F]].
      - apply Hnul. left. exact F.
      - apply Hnul. right. left. exact F.
      - vm_compute in F. intuition discriminate. }
    assert (Hres : resolves (py "br") r).
    { right. rewrite Hdoi. exact doi_hash_xyz. }
    assert (Hs : split_key (py "smith:2020" ++ py "br")
                 = Ok (py "smith", py "2020", py "br")) by reflexivity.
    assert (He : encodable (py "smith:2020" ++ py "br"))
      by (eexists; vm_compute; reflexivity).
    destruct (@find_pdf_table basepath db _ _ _ _ Hs He Hdb)
      as [[Hall _]|(b & r0 & a & p & Et & Hbf & Hc & Hr & Hp & Eo)].
    + exfalso. apply (Hall r).
      * rewrite Ht. apply in_or_app. right. left. reflexivity.
      * split; [exact Hcand|]. split; [exact Hres|exact Hhas].
    + rewrite Eo. f_equal. f_equal.
      assert (Hh0 : has_path db r0).
      { destruct Hp as (pb & q & pa & Ep & _ & Ho & _). exists q.
        split; [|exact Ho]. rewrite Ep. apply in_or_app. right. left.
        reflexivity. }
      assert (Er : r = r0).
      { rewrite Ht in Et.
        apply (@first_unique _
                 (fun x => base_year_candidate (py "smith") (py "2020") x /\
                           settles db (py "br") x)
                 _ _ _ _ _ _ Et).
        - exact Hbefore.
        - split; [exact Hcand|]. split; [exact Hres|exact Hhas].
        - exact Hbf.
        - split; [exact Hc|]. split; [exact Hr|exact Hh0]. }
      subst r0. destruct Hp as (pb & q & pa & Ep & _ & Ho & <-).
      apply Hpaths; [|exact Ho]. rewrite Ep. apply in_or_app. right. left.
      reflexivity.
  - intros [->|He]; [reflexivity|].
    unfold os_path_join. change (startswith slash (py "a/b.pdf")) with false.
    cbv iota. rewrite He. destruct basepath; reflexivity.
Qed.

Lemma find_pdf_smith_2020_witness :
  find_pdf default_basepath single_store (py "smith:2020" ++ py "br")
  = Ok (os_path_join default_basepath (py "a/b.pdf")) /\
  (default_basepath = [] \/ endswith slash default_basepath = true ->
   os_path_join default_basepath (py "a/b.pdf")
   = default_basepath ++ py "a/b.pdf").
Proof.
  apply (@find_pdf_smith_2020 default_basepath single_store [] []
           (smith_2020 7) (py "99202000000000000000222000") (py "br")).
  - repeat constructor; simpl; eexists; vm_compute; reflexivity.
  - reflexivity.
  - reflexivity.
  - reflexivity.
  - reflexivity.
  - vm_compute. intuition discriminate.
  - reflexivity.
  - eexists. split; [left; reflexivity|reflexivity].
  - intros p [<-|[]] _. reflexivity.
  - exact doi_hash_xyz.
  - intros r' [].
Defined.

(** ** Citation text parser *)

Lemma count_while_le (p : N -> bool) (s : pystr) :
  count_while p s <= length s.
Proof.
  induction s as [|c s IH]; simpl; [lia|]. destruct (p c); simpl; lia.
Qed.

Lemma count_while_firstn (p : N -> bool) (s : pystr) (n : nat) :
  n <= count_while p s -> Forall (fun c => p c = true) (firstn n s).
Proof.
  revert n. induction s as [|c s IH]; intros n H.
  - rewrite firstn_nil. constructor.
  - destruct n; [constructor|]. simpl in *.
    destruct (p c) eqn:E; [|lia]. constructor; [exact E|]. apply IH. lia.
Qed.

Lemma length_slice (s : pystr) (loc n : nat) :
  loc + n <= length s -> length (slice s loc (loc + n)) = n.
Proof.
  intros H. unfold slice. rewrite length_firstn, length_skipn. lia.
Qed.

(** What a successful [Word] with only [exact] set has matched. *)
Lemma Word_inv (chars : pystr) (exact : nat) (instring : pystr)
      (loc loc' : nat) (tokens : list token) :
  parseImpl (Word chars 1 0 exact) instring loc = Some (loc', tokens) ->
  exists w,
    tokens = [Tok w] /\ w = slice instring loc loc' /\
    loc' = loc + length w /\ loc' <= length instring /\
    1 <= length w /\ (exact <> 0 -> length w = exact) /\
    Forall (fun c => mem c chars = true) w.
Proof.
  unfold Word. cbn [parseImpl].
  destruct (nth_error instring loc) as [c|] eqn:Ec; [|discriminate].
  destruct (mem c chars) eqn:Em; [|discriminate]. cbn [negb].
  set (run := count_while (fun x => mem x chars) (skipn loc instring)).
  assert (Hrun : run <= length instring - loc).
  { unfold run. rewrite <- length_skipn. apply count_while_le. }
  assert (Hloc : loc < length instring).
  { apply nth_error_Some. congruence. }
  assert (Hrun1 : 1 <= run).
  { unfold run. rewrite (nth_error_nth' instring 0%N Hloc) in Ec.
    injection Ec as Ec.
    destruct (skipn loc instring) as [|x l] eqn:Es.
    - apply (f_equal (@length N)) in Es. rewrite length_skipn in Es.
      simpl in Es. lia.
    - assert (x = c).
      { rewrite <- Ec. rewrite <- (firstn_skipn loc instring) at 1.
        rewrite Es, app_nth2; rewrite length_firstn; [|lia].
        replace (loc - Nat.min loc (length instring)) with 0 by lia.
        reflexivity. }
      subst x. simpl. rewrite Em. lia. }
  set (n := match (if exact =? 0 then None else Some exact) with
            | Some m => Nat.min run m
            | None => run
            end).
  assert (Hn : n <= run).
  { unfold n. destruct (exact =? 0); lia. }
  change (match
        (if exact =? 0 then if 0 =? 0 then None else Some 0 else Some exact)
      with
      | Some m => Nat.min run m
      | None => run
      end) with n.
  destruct (Nat.ltb_spec n (if exact =? 0 then 1 else exact)) as [|Hmin];
    [discriminate|].
  cbn [Nat.eqb negb andb]. intros H. injection H as <- <-.
  exists (slice instring loc (loc + n)).
  assert (Hlen : length (slice instring loc (loc + n)) = n)
    by (apply length_slice; lia).
  split; [reflexivity|]. split; [reflexivity|]. rewrite Hlen.
  split; [reflexivity|]. split; [lia|]. split.
  { destruct (Nat.eqb_spec exact 0); lia. }
  split.
  { intros He. unfold n in *. destruct (Nat.eqb_spec exact 0); lia. }
  unfold slice. replace (loc + n - loc) with n by lia.
  apply count_while_firstn. exact Hn.
Qed.

Lemma parseAction_Word (chars : pystr) (min max exact : nat) :
  parseAction (Word chars min max exact) = None.
Proof. reflexivity. Qed.

Lemma parseAction_Literal (m : pystr) : parseAction (Literal m) = None.
Proof. reflexivity. Qed.

(** An element with no parse action that skips no whitespace parses as its
    [parseImpl]. *)
Lemma parse_leaveWhitespace (e : ParserElement) (callPreParse : bool)
      (instring : pystr) (loc : nat) :
  parseAction e = None ->
  _parse (leaveWhitespace e) callPreParse instring loc
  = parseImpl e instring loc.
Proof.
  intros H. unfold _parse, preParse. cbn [leaveWhitespace skipWhitespace parseImpl parseAction].
  rewrite H. destruct callPreParse; destruct (parseImpl e instring loc) as [[l t]|]; reflexivity.
Qed.

Local Opaque Word Literal.

Lemma citekey_parse_unfold (callPreParse : bool) (instring : pystr) (loc : nat) :
  _parse citekey_expr callPreParse instring loc
  = let start := if callPreParse then preParse citekey_expr instring loc else loc in
    match parseImpl (Word alphas 1 0 0) instring start with
    | None => None
    | Some (l1, t1) =>
        match parseImpl (Literal (py ":")) instring l1 with
        | None => None
        | Some (l2, t2) =>
            match parseImpl (Word nums 1 0 4) instring l2 with
            | None => None
            | Some (l3, t3) =>
                match parseImpl (Word alphas 1 0 2) instring l3 with
                | None => None
                | Some (l4, t4) =>
                    Some (l4, [Located start
                                 (Tok (concat (map asString
                                                   (((t1 ++ t2) ++ t3) ++ t4))))])
                end
            end
        end
    end.
Proof.
  unfold _parse at 1. cbv zeta.
  set (start := if callPreParse then preParse citekey_expr instring loc else loc).
  unfold citekey_expr, setParseAction, Combine. cbn [parseImpl parseAction].
  unfold _parse at 1. cbn [leaveWhitespace parseImpl parseAction And].
  rewrite parse_leaveWhitespace by apply parseAction_Word.
  destruct (parseImpl (Word alphas 1 0 0) instring start) as [[l1 t1]|]; [|reflexivity].
  cbn [And_rest map]. rewrite parse_leaveWhitespace by apply parseAction_Literal.
  destruct (parseImpl (Literal (py ":")) instring l1) as [[l2 t2]|]; [|reflexivity].
  rewrite parse_leaveWhitespace by apply parseAction_Word.
  destruct (parseImpl (Word nums 1 0 4) instring l2) as [[l3 t3]|]; [|reflexivity].
  rewrite parse_leaveWhitespace by apply parseAction_Word.
  destruct (parseImpl (Word alphas 1 0 2) instring l3) as [[l4 t4]|]; [|reflexivity].
  cbn [add_loc]. reflexivity.
Qed.

Lemma slice_app (s : pystr) (a b c : nat) :
  a <= b -> b <= c -> slice s a b ++ slice s b c = slice s a c.
Proof.
  intros Hab Hbc. unfold slice.
  replace (c - a) with ((b - a) + (c - b)) by lia.
  rewrite <- (firstn_skipn (b - a) (firstn (b - a + (c - b)) (skipn a s))).
  rewrite firstn_firstn, skipn_firstn_comm, skipn_skipn.
  replace (Nat.min (b - a) (b - a + (c - b))) with (b - a) by lia.
  replace (b - a + (c - b) - (b - a)) with (c - b) by lia.
  replace (b - a + a) with b by lia. reflexivity.
Qed.

Lemma is_prefix_firstn (m s : pystr) :
  is_prefix m s = true -> firstn (length m) s = m /\ length m <= length s.
Proof.
  revert s. induction m as [|x m IH]; intros s H; simpl.
  - split; [reflexivity|lia].
  - destruct s as [|y s]; simpl in H; [discriminate|].
    apply andb_true_iff in H as [E H]. apply N.eqb_eq in E. subst y.
    destruct (IH s H) as [-> Hl]. simpl. split; [reflexivity|lia].
Qed.

Local Transparent Literal.

Lemma Literal_inv (m instring : pystr) (loc loc' : nat) (tokens : list token) :
  parseImpl (Literal m) instring loc = Some (loc', tokens) ->
  tokens = [Tok m] /\ loc' = loc + length m /\
  slice instring loc loc' = m /\ loc' <= length instring.
Proof.
  unfold Literal. cbn [parseImpl].
  destruct (is_prefix m (skipn loc instring)) eqn:E; [|discriminate].
  destruct (Nat.ltb_spec loc (length instring)) as [Hlt|]; [|discriminate].
  cbn [andb]. intros H. injection H as <- <-.
  apply is_prefix_firstn in E as [E Hl]. rewrite length_skipn in Hl.
  split; [reflexivity|]. split; [reflexivity|]. split; [|lia].
  unfold slice. replace (loc + length m - loc) with (length m) by lia.
  exact E.
Qed.

Local Opaque Literal.

(** Soundness of the key grammar: what [citekey_expr] matches is a key, found
    in the text from the reported offset to the end of the match. *)
Lemma citekey_parse_inv (callPreParse : bool) (instring : pystr)
      (loc loc' : nat) (tokens : list token) :
  _parse citekey_expr callPreParse instring loc = Some (loc', tokens) ->
  exists start key,
    tokens = [Located start (Tok key)] /\ is_citekey key /\
    key = slice instring start loc' /\
    start = (if callPreParse then preParse citekey_expr instring loc else loc) /\
    loc' = start + length key /\ loc' <= length instring.
Proof.
  rewrite citekey_parse_unfold. cbv zeta.
  set (start := if callPreParse then preParse citekey_expr instring loc
                else loc).
  destruct (parseImpl (Word alphas 1 0 0) instring start)
    as [[l1 t1]|] eqn:E1; [|discriminate].
  destruct (parseImpl (Literal (py ":")) instring l1)
    as [[l2 t2]|] eqn:E2; [|discriminate].
  destruct (parseImpl (Word nums 1 0 4) instring l2)
    as [[l3 t3]|] eqn:E3; [|discriminate].
  destruct (parseImpl (Word alphas 1 0 2) instring l3)
    as [[l4 t4]|] eqn:E4; [|discriminate].
  intros H. injection H as <- <-.
  apply Word_inv in E1 as (a & -> & Ea & El1 & _ & Ha1 & _ & Ha).
  apply Literal_inv in E2 as (-> & El2 & Ec & _).
  apply Word_inv in E3 as (d & -> & Ed & El3 & _ & _ & Hd4 & Hd).
  apply Word_inv in E4 as (h & -> & Eh & El4 & Hle & _ & Hh2 & Hh).
  specialize (Hd4 ltac:(discriminate)). specialize (Hh2 ltac:(discriminate)).
  change (length (py ":")) with 1 in El2.
  exists start, (a ++ py ":" ++ d ++ h).
  split.
  { cbn [app map concat asString]. rewrite app_nil_r. reflexivity. }
  split.
  { exists a, d, h. split; [reflexivity|].
    split; [destruct a; [simpl in Ha1; lia|discriminate]|].
    repeat split; assumption. }
  split.
  { rewrite Ea at 1. rewrite <- Ec at 1. rewrite Ed at 1. rewrite Eh at 1.
    rewrite !slice_app by lia. reflexivity. }
  split; [reflexivity|]. split; [|exact Hle].
  rewrite !length_app. change (length (py ":")) with 1. lia.
Qed.

Lemma count_while_app (p : N -> bool) (w rest : pystr) :
  Forall (fun c => p c = true) w ->
  count_while p (w ++ rest) = length w + count_while p rest.
Proof.
  induction 1 as [|c w Hc _ IH]; simpl; [reflexivity|].
  rewrite Hc, IH. reflexivity.
Qed.

Lemma skipn_app_length {A} (pre x : list A) : skipn (length pre) (pre ++ x) = x.
Proof. induction pre as [|a pre IH]; simpl; auto. Qed.

Lemma slice_middle (pre w rest : pystr) :
  slice (pre ++ w ++ rest) (length pre) (length pre + length w) = w.
Proof.
  unfold slice. rewrite skipn_app_length.
  replace (length pre + length w - length pre) with (length w) by lia.
  rewrite firstn_app, firstn_all, Nat.sub_diag. simpl. apply app_nil_r.
Qed.

Local Transparent Word Literal.

Lemma Word_parse (chars : pystr) (exact : nat) (pre w rest : pystr) :
  w <> [] -> Forall (fun c => mem c chars = true) w ->
  (if exact =? 0 then count_while (fun c => mem c chars) rest = 0
   else length w = exact) ->
  parseImpl (Word chars 1 0 exact) (pre ++ w ++ rest) (length pre)
  = Some (length pre + length w, [Tok w]).
Proof.
  intros Hw Hall Hex. unfold Word. cbn [parseImpl].
  destruct w as [|c w']; [congruence|]. set (w := c :: w') in *.
  assert (Hc : mem c chars = true) by (inversion Hall; assumption).
  replace (nth_error (pre ++ w ++ rest) (length pre)) with (Some c).
  2:{ rewrite nth_error_app2 by lia. rewrite Nat.sub_diag. reflexivity. }
  rewrite Hc. cbn [negb]. rewrite skipn_app_length.
  rewrite (count_while_app _ rest Hall).
  cbn [Nat.eqb negb andb].
  destruct (Nat.eqb_spec exact 0) as [E|E].
  - rewrite Hex, Nat.add_0_r.
    destruct (Nat.ltb_spec (length w) 1) as [L|L]; [simpl in L; lia|].
    rewrite slice_middle. reflexivity.
  - rewrite <- Hex. rewrite Nat.min_r by lia.
    rewrite Nat.ltb_irrefl. rewrite slice_middle. reflexivity.
Qed.

Lemma is_prefix_app (m rest : pystr) : is_prefix m (m ++ rest) = true.
Proof.
  induction m as [|x m IH]; simpl; [reflexivity|].
  rewrite N.eqb_refl, IH. reflexivity.
Qed.

Lemma Literal_parse (m pre rest : pystr) :
  m <> [] ->
  parseImpl (Literal m) (pre ++ m ++ rest) (length pre)
  = Some (length pre + length m, [Tok m]).
Proof.
  intros Hm. unfold Literal. cbn [parseImpl].
  rewrite skipn_app_length, is_prefix_app.
  destruct (Nat.ltb_spec (length pre) (length (pre ++ m ++ rest))) as [|L];
    [reflexivity|].
  rewrite !length_app in L. destruct m; [congruence|simpl in L; lia].
Qed.

Local Opaque Word Literal.

(** Completeness of the key grammar: a key is matched wherever it stands,
    whatever follows it. *)
Lemma citekey_parse_complete (pre key rest : pystr) :
  is_citekey key ->
  _parse citekey_expr false (pre ++ key ++ rest) (length pre)
  = Some (length pre + length key, [Located (length pre) (Tok key)]).
Proof.
  intros (a & d & h & -> & Ha0 & Ha & Hd4 & Hd & Hh2 & Hh).
  rewrite citekey_parse_unfold. cbv zeta.
  rewrite <- !app_assoc.
  rewrite (@Word_parse alphas 0 pre a (py ":" ++ d ++ h ++ rest) Ha0 Ha)
    by reflexivity.
  replace (length pre + length a) with (length (pre ++ a))
    by apply length_app.
  rewrite (app_assoc pre a).
  rewrite (@Literal_parse (py ":") (pre ++ a) (d ++ h ++ rest))
    by discriminate.
  replace (length (pre ++ a) + length (py ":"))
    with (length ((pre ++ a) ++ py ":")) by apply length_app.
  rewrite (app_assoc (pre ++ a) (py ":")).
  rewrite (@Word_parse nums 4 ((pre ++ a) ++ py ":") d (h ++ rest));
    [|destruct d; [discriminate|discriminate]|exact Hd|exact Hd4].
  replace (length ((pre ++ a) ++ py ":") + length d)
    with (length (((pre ++ a) ++ py ":") ++ d)) by apply length_app.
  rewrite (app_assoc ((pre ++ a) ++ py ":") d).
  rewrite (@Word_parse alphas 2 (((pre ++ a) ++ py ":") ++ d) h rest);
    [|destruct h; [discriminate|discriminate]|exact Hh|exact Hh2].
  cbn [app map concat asString]. rewrite app_nil_r.
  rewrite !length_app. f_equal. f_equal. lia.
Qed.

Lemma is_prefix_not_In (c : N) (s : pystr) :
  ~ In c s -> is_prefix [c] s = false.
Proof.
  destruct s as [|x s]; simpl; [reflexivity|]. intros H.
  destruct (N.eqb_spec c x); [exfalso; auto|reflexivity].
Qed.

Lemma In_skipn {A} (x : A) (n : nat) (l : list A) :
  In x (skipn n l) -> In x l.
Proof.
  intros H. rewrite <- (firstn_skipn n l). apply in_or_app. right. exact H.
Qed.

Lemma In_expandtabs (c : N) (column : nat) (s : pystr) :
  In c (expandtabs_from column s) -> In c s \/ c = ord " ".
Proof.
  revert column. induction s as [|x s IH]; simpl; intros column H; [tauto|].
  destruct (x =? 9)%N.
  - apply in_app_or in H as [H|H].
    + apply repeat_spec in H. auto.
    + destruct (IH _ H); auto.
  - destruct ((x =? 10) || (x =? 13))%N; destruct H as [H|H]; auto;
      destruct (IH _ H); auto.
Qed.

Local Transparent Literal.

(** A citation group starts with an opening brace. *)
Lemma citations_parse_no_brace (instring : pystr) (callPreParse : bool)
      (loc : nat) :
  ~ In (ord "{") instring ->
  _parse citations_expr callPreParse instring loc = None.
Proof.
  intros H. unfold _parse at 1.
  generalize (if callPreParse then preParse citations_expr instring loc
              else loc).
  intros start. unfold citations_expr.
  cbn [And parseImpl parseAction]. unfold _parse at 1.
  cbn [Suppress parseImpl parseAction]. unfold _parse at 1.
  cbn [Literal parseImpl parseAction].
  change (py "{") with [ord "{"]. rewrite is_prefix_not_In; [reflexivity|].
  intros Hin. apply H. eapply In_skipn. exact Hin.
Qed.

Local Opaque Literal.

Lemma scan_no_match (e : ParserElement) (instring : pystr) :
  (forall callPreParse loc, _parse e callPreParse instring loc = None) ->
  forall fuel loc, scan fuel e instring loc = [].
Proof.
  intros H fuel. induction fuel as [|fuel IH]; intros loc; simpl;
    [reflexivity|].
  destruct (length instring <? loc); [reflexivity|].
  rewrite H. apply IH.
Qed.

Lemma scanString_no_brace (text : pystr) :
  ~ In (ord "{") text -> scanString citations_expr text = [].
Proof.
  intros H. unfold scanString. apply scan_no_match.
  intros callPreParse loc. apply citations_parse_no_brace.
  intros Hin. apply In_expandtabs in Hin as [Hin|Hin]; [auto|discriminate].
Qed.

(** The bounds of the loops are never reached: [scan] moves forward at each
    turn, and so does the repetition of an element that consumes input. *)
Lemma preParse_ge (e : ParserElement) (instring : pystr) (loc : nat) :
  loc <= preParse e instring loc.
Proof. unfold preParse. destruct (skipWhitespace e); lia. Qed.

Lemma scan_fuel (e : ParserElement) (instring : pystr) (fuel fuel' loc : nat) :
  S (length instring) - loc < fuel ->
  S (length instring) - loc < fuel' ->
  scan fuel e instring loc = scan fuel' e instring loc.
Proof.
  revert fuel' loc. induction fuel as [|fuel IH]; intros fuel' loc H H';
    [lia|].
  destruct fuel' as [|fuel']; [lia|]. simpl.
  destruct (Nat.ltb_spec (length instring) loc) as [|Hle]; [reflexivity|].
  pose proof (preParse_ge e instring loc) as Hpre.
  destruct (_parse e false instring (preParse e instring loc))
    as [[nextLoc tokens]|].
  - destruct (Nat.ltb_spec loc nextLoc).
    + f_equal. apply IH; lia.
    + apply IH; lia.
  - apply IH; lia.
Qed.

Lemma OneOrMore_loop_fuel (e : ParserElement) (instring : pystr)
      (fuel fuel' loc : nat) (tokens : list token) :
  consumes e instring ->
  length instring - loc < fuel ->
  length instring - loc < fuel' ->
  OneOrMore_loop fuel e instring loc tokens
  = OneOrMore_loop fuel' e instring loc tokens.
Proof.
  intros Hc. revert fuel' loc tokens.
  induction fuel as [|fuel IH]; intros fuel' loc tokens H H'; [lia|].
  destruct fuel' as [|fuel']; [lia|]. simpl.
  destruct (_parse e true instring loc) as [[loc' t]|] eqn:E; [|reflexivity].
  apply Hc in E. apply IH; lia.
Qed.

Lemma preParse_le (e : ParserElement) (instring : pystr) (loc : nat) :
  loc <= length instring -> preParse e instring loc <= length instring.
Proof.
  intros H. unfold preParse. destruct (skipWhitespace e); [|exact H].
  pose proof (count_while_le (fun c => mem c whiteChars) (skipn loc instring))
    as L.
  rewrite length_skipn in L. lia.
Qed.

Local Transparent Literal.

Lemma optional_comma (instring : pystr) (loc loc' : nat)
      (tokens : list token) :
  loc <= length instring ->
  _parse (Suppress (Optional (Literal (py ",")))) true instring loc
  = Some (loc', tokens) ->
  tokens = [] /\ loc <= loc' <= length instring.
Proof.
  intros Hloc. unfold _parse at 1.
  pose proof (preParse_ge (Suppress (Optional (Literal (py ","))))
                          instring loc) as Hge.
  pose proof (@preParse_le (Suppress (Optional (Literal (py ","))))
                           instring loc Hloc) as Hle.
  revert Hge Hle.
  generalize (preParse (Suppress (Optional (Literal (py ",")))) instring loc).
  intros start Hge Hle.
  cbn [Suppress parseImpl parseAction]. unfold _parse at 1.
  cbn [Optional parseImpl parseAction]. unfold _parse at 1.
  cbn [parseAction Literal].
  destruct (parseImpl (Literal (py ",")) instring start)
    as [[l t]|] eqn:E; intros H; injection H as <- <-.
  - apply Literal_inv in E as (_ & -> & _ & Hl). split; [reflexivity|lia].
  - split; [reflexivity|lia].
Qed.

Local Opaque Literal.

(** One turn of the repetition matches one key, and consumes input. *)
Lemma group_item_inv (callPreParse : bool) (instring : pystr)
      (loc loc' : nat) (tokens : list token) :
  _parse group_item callPreParse instring loc = Some (loc', tokens) ->
  exists t, tokens = [t] /\ key_token instring loc loc' t /\
            loc < loc' <= length instring.
Proof.
  unfold _parse at 1.
  assert (Hge : loc <= (if callPreParse then preParse group_item instring loc
                        else loc)).
  { destruct callPreParse; [apply preParse_ge|lia]. }
  revert Hge.
  generalize (if callPreParse then preParse group_item instring loc else loc).
  intros start Hge. unfold group_item. cbn [And parseImpl parseAction].
  destruct (_parse citekey_expr false instring start)
    as [[l1 t1]|] eqn:E1; [|discriminate].
  cbn [And_rest].
  apply citekey_parse_inv in E1
    as (start' & key & -> & Hkey & Ek & -> & El1 & Hl1).
  destruct (_parse (Suppress (Optional (Literal (py ",")))) true instring l1)
    as [[l2 t2]|] eqn:E2; [|discriminate].
  apply optional_comma in E2 as [-> Hl2]; [|exact Hl1].
  intros H. injection H as <- <-.
  exists (Located start (Tok key)). split; [reflexivity|].
  assert (Hlen : 8 <= length key).
  { destruct Hkey as (a & d & h & -> & Ha0 & _ & Hd & _ & Hh & _).
    rewrite !length_app, Hd, Hh. change (length (py ":")) with 1.
    destruct a; [congruence|simpl; lia]. }
  split; [|lia].
  exists start, key. split; [reflexivity|]. split; [exact Hkey|].
  split; [rewrite <- El1; symmetry; exact Ek|]. lia.
Qed.

Lemma group_item_consumes (instring : pystr) : consumes group_item instring.
Proof.
  intros loc loc' tokens H.
  apply group_item_inv in H as (t & _ & _ & H). exact H.
Qed.

(** The bound of the repetition in [citations_expr] is never reached. *)
Lemma group_loop_fuel (instring : pystr) (fuel loc : nat)
      (tokens : list token) :
  S (length instring) <= fuel ->
  OneOrMore_loop fuel group_item instring loc tokens
  = OneOrMore_loop (S (length instring)) group_item instring loc tokens.
Proof.
  intros H. apply OneOrMore_loop_fuel; [apply group_item_consumes|lia|lia].
Qed.

Lemma scanString_fuel (e : ParserElement) (text : pystr) (fuel : nat) :
  S (S (length (expandtabs text))) <= fuel ->
  scan fuel e (expandtabs text) 0 = scanString e text.
Proof. intros H. unfold scanString. apply scan_fuel; lia. Qed.

Lemma key_token_weaken (instring : pystr) (lo hi lo' hi' : nat) (t : token) :
  lo' <= lo -> hi <= hi' ->
  key_token instring lo hi t -> key_token instring lo' hi' t.
Proof.
  intros Hlo Hhi (locn & key & -> & Hk & Es & H1 & H2).
  exists locn, key. repeat split; try assumption; lia.
Qed.

Lemma group_loop_inv (instring : pystr) (lo : nat) (fuel loc loc' : nat)
      (tokens tokens' : list token) :
  Forall (key_token instring lo loc) tokens ->
  lo <= loc <= length instring ->
  OneOrMore_loop fuel group_item instring loc tokens = (loc', tokens') ->
  Forall (key_token instring lo loc') tokens' /\
  loc <= loc' <= length instring /\ length tokens <= length tokens'.
Proof.
  revert loc tokens. induction fuel as [|fuel IH]; intros loc tokens Ht Hl;
    simpl.
  - intros H. injection H as <- <-. split; [exact Ht|lia].
  - destruct (_parse group_item true instring loc) as [[l t]|] eqn:E.
    + apply group_item_inv in E as (k & -> & Hk & Hlt). intros H.
      apply IH in H; [|apply Forall_app; split|lia].
      * destruct H as (H1 & H2 & H3). split; [exact H1|].
        rewrite length_app in H3. simpl in H3. lia.
      * eapply Forall_impl; [|exact Ht]. intros a.
        apply key_token_weaken; lia.
      * constructor; [|constructor].
        eapply key_token_weaken; [| |exact Hk]; lia.
    + intros H. injection H as <- <-. split; [exact Ht|lia].
Qed.

Lemma slice_one (s : pystr) (loc : nat) (c : N) :
  slice s loc (loc + 1) = [c] -> nth_error s loc = Some c.
Proof.
  unfold slice. replace (loc + 1 - loc) with 1 by lia.
  rewrite <- (firstn_skipn loc s) at 2. intros H.
  destruct (Nat.le_gt_cases (length s) loc) as [L|L].
  - rewrite skipn_all2 in H by exact L. discriminate.
  - rewrite nth_error_app2; rewrite length_firstn; [|lia].
    replace (loc - Nat.min loc (length s)) with 0 by lia.
    destruct (skipn loc s); [discriminate|]. simpl in *. congruence.
Qed.

Local Transparent Literal.

Lemma suppressed_literal (c : N) (callPreParse : bool) (instring : pystr)
      (loc loc' : nat) (tokens : list token) :
  _parse (Suppress (Literal [c])) callPreParse instring loc
  = Some (loc', tokens) ->
  tokens = [] /\ loc <= loc' - 1 /\ 0 < loc' <= length instring /\
  nth_error instring (loc' - 1) = Some c /\
  (callPreParse = false -> loc' = loc + 1).
Proof.
  unfold _parse at 1.
  assert (Hge : loc <= (if callPreParse
                        then preParse (Suppress (Literal [c])) instring loc
                        else loc)).
  { destruct callPreParse; [apply preParse_ge|lia]. }
  assert (Hf : callPreParse = false ->
               (if callPreParse
                then preParse (Suppress (Literal [c])) instring loc
                else loc) = loc) by (intros ->; reflexivity).
  revert Hge Hf.
  generalize (if callPreParse
              then preParse (Suppress (Literal [c])) instring loc else loc).
  intros start Hge Hf.
  cbn [Suppress parseImpl parseAction]. unfold _parse at 1.
  cbn [parseAction Literal].
  destruct (parseImpl (Literal [c]) instring start) as [[l t]|] eqn:E;
    [|discriminate].
  intros H. injection H as <- <-.
  apply Literal_inv in E as (_ & -> & Es & Hl). simpl in Hl.
  split; [reflexivity|]. split; [simpl; lia|]. split; [simpl; lia|].
  split.
  - replace (start + length [c] - 1) with start by (simpl; lia).
    apply slice_one. exact Es.
  - intros Hc. rewrite (Hf Hc). reflexivity.
Qed.

Local Opaque Literal.

(** Soundness of the group grammar. *)
Lemma citations_parse_inv (instring : pystr) (start loc' : nat)
      (tokens : list token) :
  _parse citations_expr false instring start = Some (loc', tokens) ->
  group_match instring (tokens, start, loc').
Proof.
  unfold _parse at 1. unfold citations_expr.
  change (And citekey_expr [Suppress (Optional (Literal (py ",")))])
    with group_item.
  cbn [And parseImpl parseAction].
  destruct (_parse (Suppress (Literal (py "{"))) false instring start)
    as [[l0 t0]|] eqn:E0; [|discriminate].
  apply suppressed_literal in E0 as (-> & _ & Hl0 & Hopen & El0).
  specialize (El0 eq_refl). subst l0.
  replace (start + 1 - 1) with start in Hopen by lia.
  cbn [And_rest]. unfold _parse at 1.
  pose proof (preParse_ge (OneOrMore group_item) instring (start + 1)) as Hge.
  pose proof (@preParse_le (OneOrMore group_item) instring (start + 1)
                ltac:(lia)) as Hle.
  revert Hge Hle.
  generalize (preParse (OneOrMore group_item) instring (start + 1)).
  intros p Hge Hle. cbn [OneOrMore parseImpl parseAction].
  destruct (_parse group_item false instring p) as [[l1 t1]|] eqn:E1;
    [|discriminate].
  apply group_item_inv in E1 as (k & -> & Hk & Hl1).
  destruct (OneOrMore_loop (S (length instring)) group_item instring l1 [k])
    as [l2 t2] eqn:E2.
  apply (@group_loop_inv instring (S start)) in E2;
    [|constructor; [|constructor];
      eapply key_token_weaken; [| |exact Hk]; lia|lia].
  destruct E2 as (Hkeys & Hl2 & Hlen).
  destruct (_parse (Suppress (Literal (py "}"))) true instring l2)
    as [[l3 t3]|] eqn:E3; [|discriminate].
  apply suppressed_literal in E3 as (-> & Hl3 & Hl3' & Hclose & _).
  intros H. injection H as <- <-. cbn [app]. rewrite app_nil_r.
  unfold group_match. split; [exact Hopen|]. split; [exact Hclose|].
  split; [lia|]. split.
  - destruct t2; [simpl in Hlen; lia|discriminate].
  - eapply Forall_impl; [|exact Hkeys]. intros a.
    apply key_token_weaken; lia.
Qed.

Lemma scan_inv (instring : pystr) (fuel loc : nat) :
  Forall (group_match instring) (scan fuel citations_expr instring loc).
Proof.
  revert loc. induction fuel as [|fuel IH]; intros loc; simpl;
    [constructor|].
  destruct (length instring <? loc); [constructor|].
  destruct (_parse citations_expr false instring
                   (preParse citations_expr instring loc))
    as [[nextLoc tokens]|] eqn:E; [|apply IH].
  destruct (loc <? nextLoc); [|apply IH].
  constructor; [|apply IH]. apply citations_parse_inv. exact E.
Qed.

(** C9: scanning the example line gives one match, whose span is the
    bracketed group and whose tokens are the two keys, in order, each with
    the offset at which it stands; what the grammar takes for a key is
    exactly one or more letters, a colon, four digits and two letters; every
    match of a scan runs from an opening to a closing brace and holds keys of
    that shape; and a text without an opening brace has no match. *)
Theorem scan_citations :
  (scanString citations_expr example_line
   = [([Located 5 (Tok (py "smith:2020ab"));
        Located 19 (Tok (py "jones:2019cd"))], 4, 32)] /\
   slice example_line 4 32 = py "{smith:2020ab, jones:2019cd}" /\
   slice example_line 5 17 = py "smith:2020ab" /\
   slice example_line 19 31 = py "jones:2019cd" /\
   parse_line example_line
   = Ok [(Int 4, Int 32);
         (Int 5, Obj (Tok (py "smith:2020ab")));
         (Int 19, Obj (Tok (py "jones:2019cd")))]) /\
  (forall callPreParse instring loc loc' tokens,
     _parse citekey_expr callPreParse instring loc = Some (loc', tokens) ->
     exists start key,
       tokens = [Located start (Tok key)] /\ is_citekey key /\
       key = slice instring start loc') /\
  (forall pre key rest,
     is_citekey key ->
     _parse citekey_expr false (pre ++ key ++ rest) (length pre)
     = Some (length pre + length key, [Located (length pre) (Tok key)])) /\
  (forall text,
     Forall (group_match (expandtabs text)) (scanString citations_expr text)) /\
  (forall text fuel,
     S (S (length (expandtabs text))) <= fuel ->
     scan fuel citations_expr (expandtabs text) 0
     = scanString citations_expr text) /\
  (forall text,
     ~ In (ord "{") text ->
     scanString citations_expr text = [] /\ parse_line text = Ok []).
Proof.
  split.
  { repeat split; vm_compute; reflexivity. }
  split.
  { intros cp instring loc loc' tokens H.
    apply citekey_parse_inv in H as (start & key & Ht & Hk & Es & _).
    exists start, key. auto. }
  split; [exact citekey_parse_complete|].
  split; [intros text; apply scan_inv|].
  split; [intros text fuel; apply scanString_fuel|].
  intros text H. unfold parse_line.
  rewrite (scanString_no_brace text H). split; reflexivity.
Qed.

(** * Further properties *)

Local Transparent Word Literal.

(** ** The hash engine: errors and ranges *)

Lemma utf8_char_Raise (c : N) (e : exn) :
  utf8_char c = Raise e -> e = UnicodeEncodeError.
Proof.
  unfold utf8_char.
  repeat match goal with
         | |- context [if ?b then _ else _] => destruct b
         end; congruence.
Qed.

Lemma utf8_encode_Raise (s : pystr) (e : exn) :
  utf8_encode s = Raise e -> e = UnicodeEncodeError.
Proof.
  induction s as [|c s IH]; simpl; [discriminate|].
  destruct (utf8_char c) as [b|e1] eqn:E1; simpl.
  - destruct (utf8_encode s) as [bs|e2]; simpl; [discriminate|].
    intros H. injection H as <-. apply IH. reflexivity.
  - intros H. injection H as <-. eapply utf8_char_Raise; eauto.
Qed.

Lemma utf8_encode_cases (s : pystr) :
  (forallb scalar_value s = true /\ exists b, utf8_encode s = Ok b) \/
  (forallb scalar_value s = false /\ utf8_encode s = Raise UnicodeEncodeError).
Proof.
  destruct (utf8_encode s) as [b|e] eqn:E.
  - left. split; [|eauto]. apply encodable_forallb. exists b. exact E.
  - right. split.
    + destruct (forallb scalar_value s) eqn:F; [|reflexivity].
      apply encodable_forallb in F as [b Hb]. congruence.
    + f_equal. eapply utf8_encode_Raise; eauto.
Qed.

Lemma utf8_encode_ascii (s : pystr) : ascii_text s -> utf8_encode s = Ok s.
Proof.
  induction 1 as [|c s Hc _ IH]; simpl; [reflexivity|].
  unfold utf8_char. destruct (N.ltb_spec c 0x80) as [_|L]; [|lia].
  simpl. rewrite IH. reflexivity.
Qed.

(** X1: [gen_crc] returns a number below 2^32 for every text whose code
    points are all Unicode scalar values, and raises [UnicodeEncodeError]
    for every other text (one that holds a surrogate); for a text of ASCII
    characters the number is the CRC-32 of the characters themselves. *)
Theorem gen_crc_cases (s : pystr) :
  (forallb scalar_value s = true ->
   exists n, gen_crc s = Ok n /\ (n < 2 ^ 32)%N) /\
  (forallb scalar_value s = false -> gen_crc s = Raise UnicodeEncodeError) /\
  (ascii_text s -> gen_crc s = Ok (crc32 s)).
Proof.
  split; [|split].
  - intros H. apply encodable_forallb in H as [b Hb].
    destruct (gen_crc_crc32 s Hb) as [E L]. eauto.
  - intros H. destruct (utf8_encode_cases s) as [[F _]|[_ E]]; [congruence|].
    unfold gen_crc. rewrite E. reflexivity.
  - intros H. apply utf8_encode_ascii in H.
    apply (gen_crc_crc32 s H).
Qed.

(** X2: [gen_hash] has three outcomes: [UnicodeEncodeError] when the text
    holds a code point that is not a scalar value, whatever the suffix
    table; [ZeroDivisionError] when the text is encodable and the table is
    empty; and otherwise an element of the table followed by one lowercase
    letter: with a table that is not empty, of any length, no index is out
    of range. *)
Theorem gen_hash_cases (text : pystr) (suffixes : list pystr) :
  (forallb scalar_value text = false ->
   gen_hash text suffixes = Raise UnicodeEncodeError) /\
  (forallb scalar_value text = true -> suffixes = [] ->
   gen_hash text suffixes = Raise ZeroDivisionError) /\
  (forallb scalar_value text = true -> suffixes <> [] ->
   exists s c, In s suffixes /\ lowercase c /\
               gen_hash text suffixes = Ok (s ++ [c])).
Proof.
  split; [|split].
  - intros H. destruct (utf8_encode_cases text) as [[F _]|[_ E]]; [congruence|].
    unfold gen_hash, gen_crc. rewrite E. reflexivity.
  - intros H ->. apply encodable_forallb in H as [b Hb].
    unfold gen_hash. rewrite (proj1 (gen_crc_crc32 text Hb)). reflexivity.
  - intros H Hs. apply encodable_forallb in H.
    destruct (gen_hash_total H Hs) as [h Hh].
    destruct (gen_hash_shape _ _ Hh) as (s & c & Hin & Hc & ->).
    exists s, c. auto.
Qed.

(** ** The citekey codec: errors, shape and inverse *)

Lemma not_encodable_Raise (s : pystr) :
  ~ encodable s -> utf8_encode s = Raise UnicodeEncodeError.
Proof.
  intros H. destruct (utf8_encode_cases s) as [[_ [b Hb]]|[_ E]]; [|exact E].
  exfalso. apply H. exists b. exact Hb.
Qed.

Lemma gen_hash_not_encodable (text : pystr) (suffixes : list pystr) :
  ~ encodable text -> gen_hash text suffixes = Raise UnicodeEncodeError.
Proof.
  intros H. unfold gen_hash, gen_crc. rewrite (not_encodable_Raise H).
  reflexivity.
Qed.

Lemma encodable_dec (s : pystr) : encodable s \/ ~ encodable s.
Proof.
  destruct (forallb scalar_value s) eqn:E.
  - left. apply encodable_forallb. exact E.
  - right. intros H. apply encodable_forallb in H. congruence.
Qed.

Lemma gen_citekey_total (base year doi title : value) :
  encodable_value (if truthy doi then doi else title) ->
  exists key, gen_citekey base year doi title = Ok key.
Proof.
  unfold gen_citekey. destruct (truthy doi); intros H.
  - destruct (gen_doi_hash_value _ H) as [h ->]. simpl. eauto.
  - destruct (gen_title_hash_value _ H) as [h ->]. simpl. eauto.
Qed.

(** X3: [gen_citekey] depends on the text that it hashes only, the DOI when
    it is non-empty and the title otherwise: when that text is absent or has
    UTF-8 bytes the key is made, whatever the base, the year and the other
    text are; when it has none, [gen_citekey] raises
    [UnicodeEncodeError]. *)
Theorem gen_citekey_errors (base year doi title : value) :
  let hashed := if truthy doi then doi else title in
  (encodable_value hashed ->
   exists h,
     (if truthy doi then gen_doi_hash doi else gen_title_hash title) = Ok h /\
     gen_citekey base year doi title = Ok (format_citekey base year h)) /\
  (~ encodable_value hashed ->
   gen_citekey base year doi title = Raise UnicodeEncodeError).
Proof.
  intros hashed. unfold hashed, gen_citekey. destruct (truthy doi); split.
  - intros H. destruct (gen_doi_hash_value _ H) as [h Hh].
    exists h. rewrite Hh. auto.
  - intros H. destruct doi as [|d]; simpl in H; [tauto|].
    simpl. rewrite (gen_hash_not_encodable _ H). reflexivity.
  - intros H. destruct (gen_title_hash_value _ H) as [h Hh].
    exists h. rewrite Hh. auto.
  - intros H. destruct title as [|t]; simpl in H; [tauto|].
    simpl. rewrite (gen_hash_not_encodable _ H). reflexivity.
Qed.

Lemma gen_citekey_Ok (base year : pystr) (doi title : value) (key : pystr) :
  gen_citekey (PyStr base) (PyStr year) doi title = Ok key ->
  truthy doi = true \/ title <> PyNone ->
  exists x y,
    key = base ++ py ":" ++ year ++ [x; y] /\
    expected_hash doi title = Ok (PyStr [x; y]) /\
    lowercase y /\
    (truthy doi = true -> (ord "b" <= x <= ord "k")%N) /\
    (truthy doi = false -> (ord "t" <= x <= ord "w")%N).
Proof.
  unfold gen_citekey, expected_hash. intros H Hp.
  destruct (truthy doi) eqn:T.
  - destruct doi as [|d]; [discriminate|].
    apply bind_Ok in H as (h & Hh & E). injection E as <-.
    destruct (gen_doi_hash_shape _ Hh) as (x & y & -> & Hx & Hy).
    exists x, y. split; [reflexivity|]. split; [exact Hh|].
    split; [exact Hy|]. split; [auto|discriminate].
  - destruct Hp as [Hp|Hp]; [discriminate|].
    destruct title as [|t]; [congruence|].
    apply bind_Ok in H as (h & Hh & E). injection E as <-.
    destruct (gen_title_hash_shape _ Hh) as (x & y & -> & Hx & Hy).
    exists x, y. split; [reflexivity|]. split; [exact Hh|].
    split; [exact Hy|]. split; [discriminate|auto].
Qed.

(** X4: a key made from a non-empty DOI or from a title ends in two letters,
    and the first one tells where the hash comes from: b to k for a DOI,
    t to w for a title; the second one is a lowercase letter. *)
Theorem gen_citekey_hash_letters (base year : pystr) (doi title : value)
        (key : pystr) :
  gen_citekey (PyStr base) (PyStr year) doi title = Ok key ->
  truthy doi = true \/ title <> PyNone ->
  exists x y,
    key = base ++ py ":" ++ year ++ [x; y] /\ lowercase y /\
    (truthy doi = true -> (ord "b" <= x <= ord "k")%N) /\
    (truthy doi = false -> (ord "t" <= x <= ord "w")%N).
Proof.
  intros H Hp. destruct (@gen_citekey_Ok _ _ _ _ _ H Hp) as (x & y & E & _ & R).
  exists x, y. auto.
Qed.

Lemma gen_citekey_hash_letters_witness :
  exists x y,
    py "smith:2020br" = py "smith" ++ py ":" ++ py "2020" ++ [x; y] /\
    lowercase y /\
    (truthy (PyStr (py "10.1/xyz")) = true -> (ord "b" <= x <= ord "k")%N) /\
    (truthy (PyStr (py "10.1/xyz")) = false -> (ord "t" <= x <= ord "w")%N).
Proof.
  apply (@gen_citekey_hash_letters (py "smith") (py "2020")
           (PyStr (py "10.1/xyz")) (PyStr (py "a title")) (py "smith:2020br")).
  - vm_compute. reflexivity.
  - left. reflexivity.
Defined.

Lemma lowercase_alphas (c : N) : lowercase c -> mem c alphas = true.
Proof.
  unfold lowercase. change (ord "a") with 97%N. change (ord "z") with 122%N.
  intros [H1 H2].
  assert (E : exists k, k < 26 /\ c = (97 + N.of_nat k)%N).
  { exists (N.to_nat (c - 97)). split; lia. }
  destruct E as (k & Hk & ->).
  do 26 (destruct k as [|k]; [vm_compute; reflexivity|]). lia.
Qed.

Lemma letter_range_lowercase (x lo hi : N) :
  (ord "a" <= lo)%N -> (hi <= ord "z")%N -> (lo <= x <= hi)%N -> lowercase x.
Proof. unfold lowercase. lia. Qed.

(** X5: for a base of one or more ASCII letters and a year of four digits,
    the key that [gen_citekey] makes from a non-empty DOI or from a title is
    a key of the grammar: [citekey_expr] matches it in full wherever it
    stands in a text. *)
Theorem gen_citekey_is_citekey (base year : pystr) (doi title : value)
        (key : pystr) :
  base <> [] -> alphabetic base ->
  length year = 4 -> Forall (fun c => mem c nums = true) year ->
  truthy doi = true \/ title <> PyNone ->
  gen_citekey (PyStr base) (PyStr year) doi title = Ok key ->
  is_citekey key /\
  forall pre rest,
    _parse citekey_expr false (pre ++ key ++ rest) (length pre)
    = Some (length pre + length key, [Located (length pre) (Tok key)]).
Proof.
  intros Hb0 Hb Hy4 Hy Hp H.
  destruct (@gen_citekey_Ok _ _ _ _ _ H Hp) as (x & y & -> & _ & Hly & Hd & Ht).
  assert (K : is_citekey (base ++ py ":" ++ year ++ [x; y])).
  { exists base, year, [x; y]. repeat split; try assumption.
    constructor; [|constructor; [|constructor]].
    - apply lowercase_alphas. destruct (truthy doi).
      + eapply letter_range_lowercase; [| |apply Hd; reflexivity];
          vm_compute; discriminate.
      + eapply letter_range_lowercase; [| |apply Ht; reflexivity];
          vm_compute; discriminate.
    - apply lowercase_alphas. exact Hly. }
  split; [exact K|]. intros pre rest. apply citekey_parse_complete. exact K.
Qed.

Lemma gen_citekey_is_citekey_witness :
  is_citekey (py "smith:2020br") /\
  forall pre rest,
    _parse citekey_expr false (pre ++ py "smith:2020br" ++ rest) (length pre)
    = Some (length pre + length (py "smith:2020br"),
            [Located (length pre) (Tok (py "smith:2020br"))]).
Proof.
  apply (@gen_citekey_is_citekey (py "smith") (py "2020")
           (PyStr (py "10.1/xyz")) (PyStr (py "a title")) (py "smith:2020br")).
  - discriminate.
  - repeat constructor.
  - reflexivity.
  - repeat constructor.
  - left. reflexivity.
  - vm_compute. reflexivity.
Defined.

Lemma length_split (sep : N) (s : pystr) :
  length (split sep s) = S (count_occ N.eq_dec s sep).
Proof.
  induction s as [|c s IH]; simpl; [reflexivity|].
  destruct (N.eqb_spec c sep) as [->|Hc].
  - destruct (N.eq_dec sep sep); [|congruence]. simpl. rewrite IH. reflexivity.
  - destruct (N.eq_dec c sep); [congruence|].
    destruct (split sep s) as [|p l] eqn:E; [destruct (split_nonempty _ _ E)|].
    simpl in *. exact IH.
Qed.

Lemma split_key_count (citekey : pystr) (r : pystr * pystr * pystr) :
  split_key citekey = Ok r -> count_occ N.eq_dec citekey colon = 1.
Proof.
  pose proof (length_split colon citekey) as L. unfold split_key.
  destruct (split colon citekey) as [|a [|b [|c l]]]; try discriminate.
  intros _. simpl in L. lia.
Qed.

Lemma split_key_Raise (citekey : pystr) :
  count_occ N.eq_dec citekey colon <> 1 ->
  split_key citekey = Raise ValueError.
Proof.
  pose proof (length_split colon citekey) as L. unfold split_key.
  destruct (split colon citekey) as [|a [|b [|c l]]]; try reflexivity.
  simpl in L. intros H. lia.
Qed.

Lemma split_key_returns (citekey : pystr) :
  count_occ N.eq_dec citekey colon = 1 -> exists r, split_key citekey = Ok r.
Proof.
  intros H. destruct (split_key citekey) as [r|e] eqn:E; [eauto|].
  destruct (Nat.eq_dec (count_occ N.eq_dec citekey colon) 1) as [_|Hn];
    [|contradiction].
  pose proof (length_split colon citekey) as L. unfold split_key in E.
  destruct (split colon citekey) as [|a [|b [|c l]]]; simpl in L;
    try lia. discriminate.
Qed.

(** X6: [split_key] returns exactly for the citekeys that hold one colon;
    for every other citekey, with no colon or with several, it raises
    [ValueError]. *)
Theorem split_key_one_colon_iff (citekey : pystr) :
  ((exists r, split_key citekey = Ok r) <->
   count_occ N.eq_dec citekey colon = 1) /\
  (count_occ N.eq_dec citekey colon <> 1 ->
   split_key citekey = Raise ValueError).
Proof.
  split; [split|].
  - intros [r Hr]. exact (split_key_count _ Hr).
  - apply split_key_returns.
  - apply split_key_Raise.
Qed.

(** The parts that [split_key] returns hold no colon, and the year is cut
    at four characters. *)
Lemma split_key_Ok_shape (citekey base year citehash : pystr) :
  split_key citekey = Ok (base, year, citehash) ->
  ~ In colon base /\ ~ In colon year /\ ~ In colon citehash /\
  length year <= 4 /\ (citehash <> [] -> length year = 4).
Proof.
  intros H. unfold split_key in H.
  destruct (split colon citekey) as [|a [|s [|c l]]] eqn:E; try discriminate.
  injection H as E1 E2 E3.
  change (firstn 4 s = year) in E2. change (skipn 4 s = citehash) in E3.
  subst base. apply split_two in E as (_ & Ha & Hs).
  split; [exact Ha|]. split.
  { intros Hin. apply Hs. rewrite <- (firstn_skipn 4 s).
    apply in_or_app. left. rewrite E2. exact Hin. }
  split.
  { intros Hin. apply Hs. apply (@In_skipn _ colon 4 s). rewrite E3.
    exact Hin. }
  rewrite <- E2, length_firstn. split; [lia|].
  intros Hne.
  destruct (Nat.le_gt_cases 4 (length s)) as [L|L]; [lia|].
  rewrite skipn_all2 in E3 by lia. congruence.
Qed.

(** X7: what [split_key] returns puts the citekey back together: the
    citekey is the base, a colon, the year and the hash, and splitting that
    text gives the same three parts again; none of the parts holds a colon,
    the year has at most four characters, and exactly four when the hash is
    not empty. *)
Theorem split_key_parts (citekey base year citehash : pystr) :
  split_key citekey = Ok (base, year, citehash) ->
  citekey = base ++ py ":" ++ year ++ citehash /\
  split_key (base ++ py ":" ++ year ++ citehash)
  = Ok (base, year, citehash) /\
  ~ In colon base /\ ~ In colon year /\ ~ In colon citehash /\
  length year <= 4 /\ (citehash <> [] -> length year = 4).
Proof.
  intros H. pose proof (@split_key_Ok _ _ _ _ H) as E.
  change (colon :: year ++ citehash) with (py ":" ++ year ++ citehash) in E.
  split; [exact E|]. split; [rewrite <- E; exact H|].
  exact (@split_key_Ok_shape _ _ _ _ H).
Qed.

Lemma split_key_parts_witness :
  py "smith:2020br" = py "smith" ++ py ":" ++ py "2020" ++ py "br" /\
  split_key (py "smith" ++ py ":" ++ py "2020" ++ py "br")
  = Ok (py "smith", py "2020", py "br") /\
  ~ In colon (py "smith") /\ ~ In colon (py "2020") /\ ~ In colon (py "br") /\
  length (py "2020") <= 4 /\ (py "br" <> [] -> length (py "2020") = 4).
Proof.
  apply (@split_key_parts (py "smith:2020br")). reflexivity.
Defined.

(** X8: a generated key splits back into its base, its year and its hash
    only under these conditions: the base and the year hold no colon, the
    year has four characters, the DOI is non-empty or the title is present,
    and the hashed text has UTF-8 bytes. *)
Theorem roundtrip_conditions (base year : pystr) (doi title : value) :
  roundtrip base year doi title ->
  ~ In colon base /\ ~ In colon year /\ length year = 4 /\
  (truthy doi = true \/ title <> PyNone) /\
  encodable_value (if truthy doi then doi else title).
Proof.
  intros (key & h & c & Hk & Hh & Hs & <-).
  assert (Hp : truthy doi = true \/ title <> PyNone).
  { unfold expected_hash in Hh. destruct (truthy doi); [auto|].
    right. intros ->. discriminate. }
  assert (He : encodable_value (if truthy doi then doi else title)).
  { unfold expected_hash in Hh. destruct (truthy doi).
    - destruct doi as [|d]; [exact I|]. simpl in *.
      apply bind_Ok in Hh as (x & Hx & _). eapply gen_hash_encodable; eauto.
    - destruct title as [|t]; [exact I|]. simpl in *.
      apply bind_Ok in Hh as (x & Hx & _). eapply gen_hash_encodable; eauto. }
  destruct (@gen_citekey_Ok _ _ _ _ _ Hk Hp) as (x & y & -> & Hxy & _).
  rewrite Hxy in Hh. injection Hh as <-.
  destruct (@split_key_Ok_shape _ _ _ _ Hs) as (Hb & Hy & _ & _ & H4).
  repeat split; try assumption. apply H4. discriminate.
Qed.

Lemma roundtrip_conditions_witness :
  ~ In colon (py "smith") /\ ~ In colon (py "2020") /\ length (py "2020") = 4 /\
  (truthy (PyStr (py "10.1/xyz")) = true \/ PyStr (py "a title") <> PyNone) /\
  encodable_value (if truthy (PyStr (py "10.1/xyz")) then PyStr (py "10.1/xyz")
                   else PyStr (py "a title")).
Proof.
  apply (@roundtrip_conditions (py "smith") (py "2020")
           (PyStr (py "10.1/xyz")) (PyStr (py "a title"))).
  exists (py "smith:2020br"), (PyStr (py "br")), (py "br").
  repeat split; vm_compute; reflexivity.
Defined.

(** ** Listing and lookup together *)

Lemma find_pdf_candidates (basepath : pystr) (db : database)
      (citekey base year citehash : pystr) :
  split_key citekey = Ok (base, year, citehash) ->
  encodable base -> encodable year ->
  find_pdf basepath db citekey
  = find_pdf_loop basepath db citekey citehash
      (map (fun r => (ROWID r, canonical_title r, doi r))
           (filter (is_candidate base year) (Publication_table db))).
Proof.
  intros Hs Hb Hy. unfold find_pdf, select_candidates. rewrite Hs.
  cbn [bind]. rewrite (sql_bind_ok Hb), (sql_bind_ok Hy). reflexivity.
Qed.

Lemma hash_matches_true (citehash : pystr) (r : Publication) :
  hash_matches citehash (canonical_title r) (doi r) = Ok true ->
  resolves citehash r.
Proof.
  unfold hash_matches, resolves. intros H.
  apply bind_Ok in H as (th & Ht & H).
  destruct (value_eqb (PyStr citehash) th) eqn:E.
  - left. apply value_eqb_eq in E. congruence.
  - apply bind_Ok in H as (dh & Hd & H).
    assert (M : value_eqb (PyStr citehash) dh = true) by congruence.
    right. apply value_eqb_eq in M. congruence.
Qed.

Lemma find_pdf_loop_Ok (basepath : pystr) (db : database)
      (citekey citehash path : pystr) (candidates : list Publication) :
  find_pdf_loop basepath db citekey citehash
    (map (fun r => (ROWID r, canonical_title r, doi r)) candidates) = Ok path ->
  exists r pdf_path rest,
    In r candidates /\ resolves citehash r /\
    select_paths db (ROWID r) = pdf_path :: rest /\
    path = os_path_join basepath pdf_path.
Proof.
  induction candidates as [|r l IH]; simpl; [discriminate|].
  intros H. apply bind_Ok in H as (m & Hm & H).
  assert (Next : find_pdf_loop basepath db citekey citehash
                   (map (fun r => (ROWID r, canonical_title r, doi r)) l)
                 = Ok path ->
                 exists r0 pdf_path rest,
                   (r = r0 \/ In r0 l) /\ resolves citehash r0 /\
                   select_paths db (ROWID r0) = pdf_path :: rest /\
                   path = os_path_join basepath pdf_path).
  { intros H'. destruct (IH H') as (r0 & p & rest & Hin & Hr).
    exists r0, p, rest. auto. }
  destruct m; [|auto].
  destruct (select_paths db (ROWID r)) as [|p rest] eqn:Ep; [auto|].
  injection H as <-. exists r, p, rest.
  split; [left; reflexivity|]. split; [apply hash_matches_true; exact Hm|].
  split; [exact Ep|reflexivity].
Qed.

Lemma resolves_shape (citehash : pystr) (r : Publication) :
  resolves citehash r ->
  exists x y, citehash = [x; y] /\ lowercase y /\
    ((ord "t" <= x <= ord "w")%N \/ (ord "b" <= x <= ord "k")%N).
Proof.
  intros [H|H].
  - destruct (canonical_title r) as [|t]; [discriminate|].
    destruct (gen_title_hash_shape _ H) as (x & y & E & Hx & Hy).
    injection E as ->. exists x, y. auto.
  - destruct (doi r) as [|d]; [discriminate|].
    destruct (gen_doi_hash_shape _ H) as (x & y & E & Hx & Hy).
    injection E as ->. exists x, y. auto.
Qed.

(** X9: whatever the store holds, a path returned by [find_pdf] is the base
    path joined with a stored path of a record of the store whose citekey
    base and year (the characters at offsets 2 to 5 of its date) are those
    of the citekey, and whose title hash or DOI hash is the hash of the
    citekey; the citekey then has a year of four characters and a hash of
    two. *)
Theorem find_pdf_sound (basepath : pystr) (db : database)
        (citekey path : pystr) :
  find_pdf basepath db citekey = Ok path ->
  exists base year x y r date pdf_path,
    citekey = base ++ py ":" ++ year ++ [x; y] /\
    length year = 4 /\ lowercase y /\
    In r (Publication_table db) /\
    citekey_base r = PyStr base /\
    publication_date r = PyStr date /\ slice date 2 6 = year /\
    resolves [x; y] r /\
    In pdf_path (select_paths db (ROWID r)) /\
    path = os_path_join basepath pdf_path.
Proof.
  unfold find_pdf. intros H.
  apply bind_Ok in H as ([[base year] citehash] & Hs & H). cbv zeta in H.
  unfold select_candidates in H.
  apply bind_Ok in H as (candidates & Hc & H).
  apply bind_Ok in Hc as ([] & _ & Hc). apply bind_Ok in Hc as ([] & _ & Hc).
  injection Hc as <-.
  apply find_pdf_loop_Ok in H as (r & p & rest & Hin & Hr & Hp & ->).
  apply filter_In in Hin as [Hin Hcand].
  apply is_candidate_spec in Hcand as (Hb & date & text & Hd & Hn & Hy).
  destruct (@resolves_shape _ _ Hr) as (x & y & -> & Hly & _).
  pose proof (@split_key_Ok _ _ _ _ Hs) as E.
  destruct (@split_key_Ok_shape _ _ _ _ Hs) as (_ & _ & _ & _ & H4).
  assert (L : length year = 4) by (apply H4; discriminate).
  rewrite <- (@before_nul_sql_chars _ _ Hn) in Hy.
  rewrite slice_sql_chars_full in Hy by (rewrite Hy; exact L).
  exists base, year, x, y, r, date, p.
  split; [exact E|]. split; [exact L|].
  split; [exact Hly|]. split; [exact Hin|]. split; [exact Hb|].
  split; [exact Hd|]. split; [exact Hy|]. split; [exact Hr|].
  split; [rewrite Hp; left; reflexivity|reflexivity].
Qed.

Lemma find_pdf_sound_witness :
  exists base year x y r date pdf_path,
    py "smith:2020br" = base ++ py ":" ++ year ++ [x; y] /\
    length year = 4 /\ lowercase y /\
    In r (Publication_table duplicate_store) /\
    citekey_base r = PyStr base /\
    publication_date r = PyStr date /\ slice date 2 6 = year /\
    resolves [x; y] r /\
    In pdf_path (select_paths duplicate_store (ROWID r)) /\
    py "/Users/username/Papers2/a/b.pdf" = os_path_join default_basepath pdf_path.
Proof.
  apply (@find_pdf_sound default_basepath duplicate_store (py "smith:2020br")).
  vm_compute. reflexivity.
Defined.

Lemma split_key_encodable (citekey base year citehash : pystr) :
  split_key citekey = Ok (base, year, citehash) ->
  encodable citekey -> encodable base /\ encodable year.
Proof.
  intros Hs He. pose proof (@split_key_Ok _ _ _ _ Hs) as E. rewrite E in He.
  apply encodable_app in He as [Hb Hr]. split; [exact Hb|].
  change (colon :: year ++ citehash) with ([colon] ++ year ++ citehash) in Hr.
  apply encodable_app in Hr as [_ Hr].
  apply encodable_app in Hr as [Hy _]. exact Hy.
Qed.

Lemma store_text_candidates (db : database) (f : Publication -> bool) :
  store_text_ok db ->
  Forall (fun r => encodable_value (canonical_title r) /\
                   encodable_value (doi r))
         (filter f (Publication_table db)).
Proof.
  intros Hdb. apply Forall_forall. intros r Hin.
  apply filter_In in Hin as [Hin _].
  unfold store_text_ok in Hdb. rewrite Forall_forall in Hdb. auto.
Qed.

(** X10: [find_pdf] raises [ValueError] for a citekey that does not hold
    exactly one colon, whatever the store; [UnicodeEncodeError] when the
    base or the year of the citekey has no UTF-8 bytes; and, over a store
    of encodable text, the error that names the citekey when the hash part
    of the citekey does not have two characters: such a key, for instance
    one with no hash or one that ends in [None], resolves to no file. *)
Theorem find_pdf_errors (basepath : pystr) (db : database) (citekey : pystr) :
  (count_occ N.eq_dec citekey colon <> 1 ->
   find_pdf basepath db citekey = Raise ValueError) /\
  (forall base year citehash,
     split_key citekey = Ok (base, year, citehash) ->
     ~ (encodable base /\ encodable year) ->
     find_pdf basepath db citekey = Raise UnicodeEncodeError) /\
  (forall base year citehash,
     split_key citekey = Ok (base, year, citehash) ->
     encodable citekey -> store_text_ok db ->
     length citehash <> 2 ->
     find_pdf basepath db citekey = Raise (NoMatchingPdf citekey)).
Proof.
  split; [|split].
  - intros H. unfold find_pdf.
    rewrite (split_key_Raise _ H). reflexivity.
  - intros base year citehash Hs Hn. unfold find_pdf, select_candidates.
    rewrite Hs. cbn [bind]. unfold sql_bind.
    destruct (encodable_dec base) as [[b Hb]|Hb].
    + rewrite Hb. cbn [bind].
      destruct (encodable_dec year) as [Hy|Hy].
      * exfalso. apply Hn. split; [exists b; exact Hb|exact Hy].
      * rewrite (@not_encodable_Raise _ Hy). reflexivity.
    + rewrite (@not_encodable_Raise _ Hb). reflexivity.
  - intros base year citehash Hs He Hdb Hl.
    destruct (@split_key_encodable _ _ _ _ Hs He) as [Hb Hy].
    rewrite (@find_pdf_candidates basepath db _ _ _ _ Hs Hb Hy).
    destruct (@find_pdf_loop_spec basepath db citekey citehash _
                (@store_text_candidates db (is_candidate base year) Hdb))
      as [[_ E]|(b & r & a & p & _ & _ & Hr & _)]; [exact E|].
    destruct (@resolves_shape _ _ Hr) as (x & y & -> & _). simpl in Hl. lia.
Qed.

(** X11: over a store of encodable text, a record with a colon-free base, a
    date of at least six characters, none of the first six a NUL character
    and none of those at offsets 2 to 5 a colon, a non-empty DOI or a
    title, and an attached file is listed by [list_citations] with a key
    that [find_pdf] resolves to a path. *)
Theorem listed_key_resolves (basepath : pystr) (db : database)
        (r : Publication) (base date : pystr) :
  store_text_ok db ->
  In r (Publication_table db) ->
  citekey_base r = PyStr base -> ~ In colon base -> encodable base ->
  publication_date r = PyStr date -> 6 <= length date ->
  ~ In 0%N (firstn 6 date) ->
  ~ In colon (slice date 2 6) -> encodable date ->
  truthy (doi r) = true \/ canonical_title r <> PyNone ->
  select_paths db (ROWID r) <> [] ->
  exists key path,
    In (format_label (author_year_string r) (attributed_title r), key)
       (list_citations db) /\
    find_pdf basepath db key = Ok path.
Proof.
  intros Hdb Hin Hbase Hb He Hdate Hlen Hnul Hy Hed Hp Hpdf.
  set (year := slice date 2 6) in *.
  assert (Hy4 : length year = 4).
  { unfold year, slice. rewrite length_firstn, length_skipn. lia. }
  assert (Hey : encodable year).
  { unfold year, slice. apply encodable_firstn.
    rewrite <- (firstn_skipn 2 date) in Hed.
    apply encodable_app in Hed. tauto. }
  assert (Hr : encodable_value (canonical_title r) /\ encodable_value (doi r)).
  { unfold store_text_ok in Hdb. rewrite Forall_forall in Hdb. auto. }
  assert (Hh : encodable_value (if truthy (doi r) then doi r
                                else canonical_title r))
    by (destruct (truthy (doi r)); tauto).
  assert (Ht : try_citekey r
               = gen_citekey (PyStr base) (PyStr year) (doi r)
                             (canonical_title r)).
  { unfold try_citekey. rewrite Hdate, Hbase. reflexivity. }
  destruct (gen_citekey_total (PyStr base) (PyStr year) (doi r)
                              (canonical_title r) Hh) as (key0 & Hk).
  destruct (@gen_citekey_Ok _ _ _ _ _ Hk Hp)
    as (x & y & Ek & Hxy & Hly & Hd & Htl).
  rewrite Ek in Hk. clear Ek key0.
  set (key := base ++ py ":" ++ year ++ [x; y]) in *.
  exists key.
  assert (Hs : split_key key = Ok (base, year, [x; y])).
  { apply split_key_format; try assumption.
    apply hash_no_colon; [|exact Hly].
    destruct (truthy (doi r));
      [specialize (Hd eq_refl)|specialize (Htl eq_refl)];
      change (ord "b") with 98%N in *; change (ord "w") with 119%N in *;
      change (ord "k") with 107%N in *; change (ord "t") with 116%N in *;
      lia. }
  assert (Hc : In r (filter (is_candidate base year) (Publication_table db))).
  { apply filter_In. split; [exact Hin|]. unfold is_candidate.
    rewrite Hbase, Hdate. cbn [sql_eq sql_substr].
    change (firstn 4 (skipn (3 - 1) (sql_chars date)))
      with (slice (sql_chars date) 2 6).
    rewrite (@slice_sql_chars _ Hnul). fold year.
    rewrite !pystr_eqb_refl. reflexivity. }
  assert (Hset : settles db [x; y] r).
  { split.
    - unfold resolves. unfold expected_hash in Hxy.
      destruct (truthy (doi r)); auto.
    - destruct (select_paths_first db r) as [[E _]|(p & rest & _ & Hf)];
        [contradiction|].
      destruct Hf as (pb & q & pa & Ep & _ & Ho & _). exists q.
      split; [|exact Ho]. rewrite Ep. apply in_or_app. right. left.
      reflexivity. }
  rewrite (@find_pdf_candidates basepath db _ _ _ _ Hs He Hey).
  destruct (@find_pdf_loop_spec basepath db key [x; y] _
              (@store_text_candidates db (is_candidate base year) Hdb))
    as [[Hall _]|(b & r0 & a & p & _ & _ & _ & _ & E)].
  - exfalso. exact (Hall r Hc Hset).
  - exists (os_path_join basepath p). split; [|exact E].
    unfold list_citations. rewrite list_citations_from_map.
    apply in_map_iff. exists r. split.
    + unfold citation. rewrite Ht, Hk. reflexivity.
    + apply filter_In. split; [exact Hin|]. unfold processed.
      rewrite Ht, Hk. reflexivity.
Qed.

Lemma listed_key_resolves_witness :
  exists key path,
    In (format_label (author_year_string (smith_2020 7))
                     (attributed_title (smith_2020 7)), key)
       (list_citations single_store) /\
    find_pdf default_basepath single_store key = Ok path.
Proof.
  apply (@listed_key_resolves default_basepath single_store (smith_2020 7)
           (py "smith") (py "99202000000000000000222000")).
  - repeat constructor; simpl; eexists; vm_compute; reflexivity.
  - left. reflexivity.
  - reflexivity.
  - vm_compute. intuition discriminate.
  - eexists. vm_compute. reflexivity.
  - reflexivity.
  - vm_compute. lia.
  - vm_compute. intuition discriminate.
  - vm_compute. intuition discriminate.
  - eexists. vm_compute. reflexivity.
  - left. reflexivity.
  - vm_compute. discriminate.
Defined.

(** ** Formatting and scanning a group *)

Lemma alphas_not_white (c : N) : mem c alphas = true -> mem c whiteChars = false.
Proof.
  unfold mem at 1. rewrite existsb_exists. intros (x & Hx & E).
  apply N.eqb_eq in E. subst x. vm_compute in Hx.
  repeat (destruct Hx as [<-|Hx]; [reflexivity|]). contradiction.
Qed.

Lemma citekey_head (key : pystr) :
  is_citekey key -> exists c k, key = c :: k /\ mem c alphas = true.
Proof.
  intros (a & d & h & -> & Ha0 & Ha & _).
  destruct a as [|c a]; [congruence|]. inversion Ha; subst.
  exists c, (a ++ py ":" ++ d ++ h). split; [reflexivity|assumption].
Qed.

Lemma count_while_white_key (key tail : pystr) :
  is_citekey key -> count_while (fun c => mem c whiteChars) (key ++ tail) = 0.
Proof.
  intros H. destruct (citekey_head H) as (c & k & -> & Hc).
  cbn [app count_while]. rewrite (alphas_not_white _ Hc). reflexivity.
Qed.

Local Opaque Word.

Lemma skipWhitespace_group_item : skipWhitespace group_item = true.
Proof. reflexivity. Qed.

Lemma group_item_parse (cp : bool) (pre ws key : pystr) (sep : N)
      (tail : pystr) :
  is_citekey key ->
  Forall (fun c => mem c whiteChars = true) ws ->
  (cp = false -> ws = []) ->
  sep = ord "," \/ sep = ord "}" ->
  _parse group_item cp (pre ++ ws ++ key ++ sep :: tail) (length pre)
  = Some (length pre + length ws + length key
          + (if (sep =? ord ",")%N then 1 else 0),
          [Located (length pre + length ws) (Tok key)]).
Proof.
  intros Hk Hws Hcp Hsep.
  set (T := pre ++ ws ++ key ++ sep :: tail).
  unfold _parse at 1.
  assert (Hpre : (if cp then preParse group_item T (length pre) else length pre)
                 = length pre + length ws).
  { destruct cp.
    - unfold preParse. rewrite skipWhitespace_group_item. unfold T.
      rewrite skipn_app_length, (count_while_app _ _ Hws).
      rewrite (count_while_white_key _ Hk). lia.
    - rewrite (Hcp eq_refl). simpl. lia. }
  rewrite Hpre. unfold group_item at 1. cbn [And parseImpl parseAction].
  assert (E1 : _parse citekey_expr false T (length pre + length ws)
               = Some (length pre + length ws + length key,
                       [Located (length pre + length ws) (Tok key)])).
  { unfold T. rewrite <- length_app, (app_assoc pre ws).
    apply citekey_parse_complete. exact Hk. }
  rewrite E1. cbn [And_rest].
  unfold _parse at 1.
  set (S := Suppress (Optional (Literal (py ",")))).
  assert (ET : T = ((pre ++ ws) ++ key) ++ [sep] ++ tail).
  { unfold T. rewrite <- !app_assoc. reflexivity. }
  assert (EL : length pre + length ws + length key
               = length ((pre ++ ws) ++ key)) by (rewrite !length_app; lia).
  assert (Hp2 : preParse S T (length pre + length ws + length key)
                = length pre + length ws + length key).
  { unfold preParse. cbn [S Suppress skipWhitespace Optional].
    replace (skipWhitespace (Literal (py ","))) with true by reflexivity.
    rewrite ET, EL, skipn_app_length.
    destruct Hsep as [->| ->]; simpl; lia. }
  rewrite Hp2. unfold S. cbn [Suppress parseImpl parseAction].
  unfold _parse at 1. cbn [Optional parseImpl parseAction].
  unfold _parse at 1. rewrite parseAction_Literal.
  rewrite ET, EL. destruct Hsep as [->| ->].
  - change [ord ","] with (py ",").
    rewrite (@Literal_parse (py ",") ((pre ++ ws) ++ key) tail)
      by discriminate.
    cbn [app]. reflexivity.
  - unfold Literal. cbn [parseImpl]. rewrite skipn_app_length.
    cbn [app is_prefix N.eqb]. simpl. rewrite Nat.add_0_r. reflexivity.
Qed.

Lemma join_body (key : pystr) (keys : list pystr) :
  join (py ", ") (key :: keys) = key ++ comma keys ++ body keys.
Proof.
  revert key. induction keys as [|k ks IH]; intros key.
  - simpl. rewrite app_nil_r. reflexivity.
  - change (join (py ", ") (key :: k :: ks))
      with (key ++ py ", " ++ join (py ", ") (k :: ks)).
    rewrite IH. reflexivity.
Qed.

Local Transparent Word.

Lemma Word_fail (chars : pystr) (min max exact : nat) (instring : pystr)
      (loc : nat) :
  match nth_error instring loc with
  | Some c => mem c chars = false
  | None => True
  end ->
  parseImpl (Word chars min max exact) instring loc = None.
Proof.
  unfold Word. cbn [parseImpl].
  destruct (nth_error instring loc) as [c|]; [|reflexivity].
  intros ->. reflexivity.
Qed.

Local Opaque Word.

Lemma citekey_parse_fail (instring : pystr) (loc : nat) :
  match nth_error instring loc with
  | Some c => mem c alphas = false
  | None => True
  end ->
  _parse citekey_expr false instring loc = None.
Proof.
  intros H. rewrite citekey_parse_unfold. cbv zeta.
  rewrite (Word_fail alphas 1 0 0 instring loc H). reflexivity.
Qed.

Lemma group_item_stop (pre tail : pystr) (c : N) :
  mem c whiteChars = false -> mem c alphas = false ->
  _parse group_item true (pre ++ c :: tail) (length pre) = None.
Proof.
  intros Hw Ha. unfold _parse at 1.
  assert (Hp : preParse group_item (pre ++ c :: tail) (length pre)
               = length pre).
  { unfold preParse. rewrite skipWhitespace_group_item, skipn_app_length.
    cbn [count_while]. rewrite Hw. lia. }
  rewrite Hp. unfold group_item at 1. cbn [And parseImpl parseAction].
  rewrite citekey_parse_fail; [reflexivity|].
  rewrite nth_error_app2 by lia. rewrite Nat.sub_diag. exact Ha.
Qed.

Lemma length_body_ge (keys : list pystr) : length keys <= length (body keys).
Proof.
  induction keys as [|k ks IH]; simpl; [lia|]. rewrite !length_app. lia.
Qed.

Lemma group_loop_complete (keys : list pystr) (tail : pystr) :
  Forall is_citekey keys ->
  forall (pre : pystr) (tokens : list token) (fuel : nat),
    length keys < fuel ->
    OneOrMore_loop fuel group_item
                   (pre ++ body keys ++ ord "}" :: tail) (length pre) tokens
    = (length pre + length (body keys),
       tokens ++ locate (S (length pre)) keys).
Proof.
  induction 1 as [|k ks Hk _ IH]; intros pre tokens fuel Hf;
    (destruct fuel as [|fuel]; [simpl in Hf; lia|]); cbn [OneOrMore_loop].
  - cbn [body app]. rewrite group_item_stop by reflexivity.
    simpl. rewrite Nat.add_0_r, app_nil_r. reflexivity.
  - cbn [body]. rewrite <- !app_assoc.
    assert (E : comma ks ++ body ks ++ ord "}" :: tail
                = (if match ks with [] => true | _ => false end
                   then ord "}" else ord ",")
                    :: body ks ++ match ks with
                                  | [] => tail
                                  | _ => ord "}" :: tail
                                  end).
    { destruct ks; reflexivity. }
    rewrite E.
    rewrite (@group_item_parse true pre (py " ") k _ _ Hk);
      [|repeat constructor|discriminate|destruct ks; auto].
    assert (E2 : pre ++ py " " ++ k ++
                 (if match ks with [] => true | _ => false end
                  then ord "}" else ord ",")
                     :: body ks ++ match ks with
                                   | [] => tail
                                   | _ => ord "}" :: tail
                                   end
                 = (pre ++ py " " ++ k ++ comma ks)
                     ++ body ks ++ ord "}" :: tail).
    { rewrite <- E. rewrite <- !app_assoc. reflexivity. }
    rewrite E2.
    replace (length pre + length (py " ") + length k +
             (if ((if match ks with [] => true | _ => false end
                   then ord "}" else ord ",") =? ord ",")%N then 1 else 0))
      with (length (pre ++ py " " ++ k ++ comma ks)).
    2:{ rewrite !length_app. destruct ks; simpl; lia. }
    rewrite IH by (simpl in Hf; lia).
    f_equal.
    + rewrite !length_app. lia.
    + rewrite <- app_assoc. cbn [locate app]. f_equal. f_equal.
      * f_equal. simpl. lia.
      * destruct ks; [reflexivity|]. f_equal. rewrite !length_app.
        simpl. lia.
Qed.

Lemma format_citekeys_body (key : pystr) (keys : list pystr) (tail : pystr) :
  format_citekeys (key :: keys) ++ tail
  = py "{" ++ key ++ comma keys ++ body keys ++ ord "}" :: tail.
Proof.
  unfold format_citekeys. rewrite join_body, <- !app_assoc. reflexivity.
Qed.

Lemma length_format_citekeys (key : pystr) (keys : list pystr) :
  length (format_citekeys (key :: keys))
  = 1 + length key + length (comma keys) + length (body keys) + 1.
Proof.
  unfold format_citekeys. rewrite join_body, !length_app. simpl. lia.
Qed.

Lemma citations_parse_complete (pre tail key : pystr) (keys : list pystr) :
  Forall is_citekey (key :: keys) ->
  _parse citations_expr false
         (pre ++ format_citekeys (key :: keys) ++ tail) (length pre)
  = Some (length pre + length (format_citekeys (key :: keys)),
          locate (S (length pre)) (key :: keys)).
Proof.
  intros H. inversion H as [|k ks Hk Hks]; subst.
  rewrite format_citekeys_body, length_format_citekeys.
  set (T := pre ++ py "{" ++ key ++ comma keys ++ body keys ++ ord "}" :: tail).
  unfold _parse at 1. unfold citations_expr.
  change (And citekey_expr [Suppress (Optional (Literal (py ",")))])
    with group_item.
  cbn [And parseImpl parseAction].
  assert (E0 : _parse (Suppress (Literal (py "{"))) false T (length pre)
               = Some (length pre + 1, [])).
  { unfold _parse at 1. cbn [Suppress parseImpl parseAction].
    unfold _parse at 1. rewrite parseAction_Literal. unfold T.
    rewrite (@Literal_parse (py "{") pre _) by discriminate. reflexivity. }
  rewrite E0. cbn [And_rest]. unfold _parse at 1.
  assert (ET : T = (pre ++ py "{") ++ [] ++ key
                     ++ (if match keys with [] => true | _ => false end
                         then ord "}" else ord ",")
                     :: body keys ++ match keys with
                                     | [] => tail
                                     | _ => ord "}" :: tail
                                     end).
  { unfold T. rewrite <- !app_assoc. destruct keys; reflexivity. }
  assert (EL : length pre + 1 = length (pre ++ py "{"))
    by (rewrite length_app; reflexivity).
  assert (Hp : preParse (OneOrMore group_item) T (length pre + 1)
               = length pre + 1).
  { unfold preParse. cbn [OneOrMore skipWhitespace].
    rewrite skipWhitespace_group_item, ET, EL, skipn_app_length.
    cbn [app]. rewrite (count_while_white_key _ Hk). lia. }
  rewrite Hp. cbn [OneOrMore parseImpl parseAction].
  rewrite ET at 1. rewrite EL.
  rewrite (@group_item_parse false (pre ++ py "{") [] key _ _ Hk);
    [|constructor|reflexivity|destruct keys; auto].
  assert (ET2 : T = ((pre ++ py "{") ++ key ++ comma keys)
                      ++ body keys ++ ord "}" :: tail).
  { unfold T. rewrite <- !app_assoc. reflexivity. }
  replace (length (pre ++ py "{") + length (@nil N) + length key +
           (if ((if match keys with [] => true | _ => false end
                 then ord "}" else ord ",") =? ord ",")%N then 1 else 0))
    with (length ((pre ++ py "{") ++ key ++ comma keys)).
  2:{ rewrite !length_app. destruct keys; simpl; lia. }
  rewrite ET2 at 2.
  rewrite group_loop_complete; [|exact Hks|].
  2:{ rewrite ET2, !length_app. pose proof (length_body_ge keys). lia. }
  set (P := (pre ++ py "{") ++ key ++ comma keys).
  assert (E3 : _parse (Suppress (Literal (py "}"))) true T
                      (length P + length (body keys))
               = Some (length P + length (body keys) + 1, [])).
  { unfold _parse at 1.
    assert (ET3 : T = (P ++ body keys) ++ py "}" ++ tail).
    { unfold P, T. rewrite <- !app_assoc. reflexivity. }
    assert (Hp3 : preParse (Suppress (Literal (py "}"))) T
                           (length P + length (body keys))
                  = length P + length (body keys)).
    { unfold preParse. cbn [Suppress skipWhitespace].
      replace (skipWhitespace (Literal (py "}"))) with true by reflexivity.
      rewrite ET3, <- length_app, skipn_app_length. simpl. lia. }
    rewrite Hp3. cbn [Suppress parseImpl parseAction].
    unfold _parse at 1. rewrite parseAction_Literal.
    rewrite ET3, <- length_app.
    rewrite (@Literal_parse (py "}") (P ++ body keys) tail) by discriminate.
    reflexivity. }
  rewrite E3. cbn [And_rest app]. rewrite app_nil_r. f_equal. f_equal.
  - unfold P. rewrite !length_app. simpl. lia.
  - cbn [locate]. f_equal.
    + f_equal. rewrite length_app. simpl. lia.
    + destruct keys; [reflexivity|]. f_equal. unfold P.
      rewrite !length_app. simpl. lia.
Qed.

(** Scanning a line *)

Lemma expandtabs_from_notab (column : nat) (s : pystr) :
  ~ In tab s -> expandtabs_from column s = s.
Proof.
  revert column. induction s as [|c s IH]; intros column H; [reflexivity|].
  cbn [expandtabs_from].
  destruct (N.eqb_spec c 9) as [->|_]; [exfalso; apply H; left; reflexivity|].
  assert (Hs : ~ In tab s) by (intros Hin; apply H; right; exact Hin).
  destruct ((c =? 10) || (c =? 13))%N; rewrite IH by exact Hs; reflexivity.
Qed.

Lemma expandtabs_notab (s : pystr) : ~ In tab s -> expandtabs s = s.
Proof. apply expandtabs_from_notab. Qed.

Lemma citations_parse_not_brace (instring : pystr) (loc : nat) :
  nth_error instring loc <> Some (ord "{") ->
  _parse citations_expr false instring loc = None.
Proof.
  intros H. destruct (_parse citations_expr false instring loc)
    as [[l t]|] eqn:E; [|reflexivity].
  apply citations_parse_inv in E. destruct E as (E & _). congruence.
Qed.

Lemma skipWhitespace_citations_expr : skipWhitespace citations_expr = true.
Proof. reflexivity. Qed.

Lemma scan_tail_nil (instring : pystr) (fuel loc : nat) :
  (forall l, loc <= l -> nth_error instring l <> Some (ord "{")) ->
  scan fuel citations_expr instring loc = [].
Proof.
  revert loc. induction fuel as [|fuel IH]; intros loc H; [reflexivity|].
  cbn [scan]. destruct (length instring <? loc); [reflexivity|].
  pose proof (preParse_ge citations_expr instring loc) as Hge.
  rewrite citations_parse_not_brace by (apply H; exact Hge).
  apply IH. intros l Hl. apply H. lia.
Qed.

Lemma count_while_stop (p : N -> bool) (s : pystr) (c : N) (tail : pystr) :
  p c = false -> count_while p (s ++ c :: tail) <= length s.
Proof.
  intros Hc. induction s as [|x s IH]; simpl.
  - rewrite Hc. lia.
  - destruct (p x); lia.
Qed.

Lemma preParse_before (e : ParserElement) (pre tail : pystr) (c : N)
      (loc : nat) :
  mem c whiteChars = false -> loc <= length pre ->
  loc <= preParse e (pre ++ c :: tail) loc <= length pre.
Proof.
  intros Hc Hl. split; [apply preParse_ge|]. unfold preParse.
  destruct (skipWhitespace e); [|exact Hl].
  rewrite skipn_app. replace (loc - length pre) with 0 by lia.
  cbn [skipn].
  pose proof (count_while_stop (fun x => mem x whiteChars) (skipn loc pre)
                               c tail Hc) as L.
  rewrite length_skipn in L. lia.
Qed.

Lemma scan_reach (pre tail : pystr) (nextLoc : nat) (tokens : list token) :
  ~ In (ord "{") pre ->
  _parse citations_expr false (pre ++ ord "{" :: tail) (length pre)
  = Some (nextLoc, tokens) ->
  forall n loc fuel,
    length pre - loc <= n -> loc <= length pre ->
    S (length (pre ++ ord "{" :: tail)) - loc < fuel ->
    scan fuel citations_expr (pre ++ ord "{" :: tail) loc
    = (tokens, length pre, nextLoc)
        :: scan (S (S (length (pre ++ ord "{" :: tail)))) citations_expr
                (pre ++ ord "{" :: tail) nextLoc.
Proof.
  intros Hpre Hparse. set (T := pre ++ ord "{" :: tail) in *.
  assert (Hnext : length pre < nextLoc).
  { apply citations_parse_inv in Hparse. destruct Hparse as (_ & _ & H & _).
    lia. }
  assert (HT : length pre < length T).
  { unfold T. rewrite length_app. simpl. lia. }
  set (R := scan (S (S (length T))) citations_expr T nextLoc).
  induction n as [|n IH]; intros loc fuel Hn Hl Hf;
    (destruct fuel as [|fuel]; [lia|]); cbn [scan];
    (destruct (Nat.ltb_spec (length T) loc) as [|_]; [lia|]);
    destruct (@preParse_before citations_expr pre tail (ord "{") loc
                eq_refl Hl) as [Hge Hle]; fold T in Hge, Hle.
  - assert (E : preParse citations_expr T loc = length pre) by lia.
    rewrite E, Hparse.
    destruct (Nat.ltb_spec loc nextLoc); [|lia].
    f_equal. unfold R. apply scan_fuel; lia.
  - destruct (Nat.eq_dec (preParse citations_expr T loc) (length pre))
      as [E|E].
    + rewrite E, Hparse.
      destruct (Nat.ltb_spec loc nextLoc); [|lia].
      f_equal. unfold R. apply scan_fuel; lia.
    + rewrite citations_parse_not_brace.
      * apply IH; lia.
      * unfold T in *. rewrite nth_error_app1 by lia. intros Hn'.
        apply nth_error_In in Hn'. contradiction.
Qed.

Lemma In_join (c : N) (sep : pystr) (items : list pystr) :
  In c (join sep items) ->
  In c sep \/ exists x, In x items /\ In c x.
Proof.
  induction items as [|x [|y l] IH]; [intros []| |].
  - simpl. intros H. right. exists x. auto.
  - change (join sep (x :: y :: l)) with (x ++ sep ++ join sep (y :: l)).
    intros H. apply in_app_or in H as [H|H].
    + right. exists x. split; [left; reflexivity|exact H].
    + apply in_app_or in H as [H|H]; [left; exact H|].
      destruct (IH H) as [H'|(z & Hz & Hc)]; [left; exact H'|].
      right. exists z. split; [right; exact Hz|exact Hc].
Qed.

Lemma mem_app (c : N) (a b : pystr) : mem c (a ++ b) = mem c a || mem c b.
Proof. unfold mem. apply existsb_app. Qed.

Lemma citekey_chars (key : pystr) :
  is_citekey key -> Forall (fun c => mem c key_chars = true) key.
Proof.
  intros (a & d & h & -> & _ & Ha & _ & Hd & _ & Hh).
  unfold key_chars. repeat (apply Forall_app; split).
  - eapply Forall_impl; [|exact Ha]. intros c Hc. cbv beta in *.
    rewrite mem_app, Hc. reflexivity.
  - repeat constructor.
  - eapply Forall_impl; [|exact Hd]. intros c Hc. cbv beta in *.
    rewrite !mem_app, Hc. apply orb_true_iff. right. reflexivity.
  - eapply Forall_impl; [|exact Hh]. intros c Hc. cbv beta in *.
    rewrite mem_app, Hc. reflexivity.
Qed.

Lemma In_format_citekeys (c : N) (keys : list pystr) :
  Forall is_citekey keys -> In c (format_citekeys keys) ->
  mem c (key_chars ++ py "{, }") = true.
Proof.
  intros Hk H. unfold format_citekeys in H. rewrite mem_app.
  apply in_app_or in H as [H|H].
  { destruct H as [<-|[]]. reflexivity. }
  apply in_app_or in H as [H|H].
  - apply In_join in H as [H|(x & Hx & Hc)].
    + destruct H as [<-|[<-|[]]]; reflexivity.
    + rewrite Forall_forall in Hk. pose proof (citekey_chars (Hk x Hx)) as F.
      rewrite Forall_forall in F. rewrite (F c Hc). reflexivity.
  - destruct H as [<-|[]]. reflexivity.
Qed.

Lemma expandtabs_group (pre tail : pystr) (keys : list pystr) :
  Forall is_citekey keys -> ~ In tab pre -> ~ In tab tail ->
  expandtabs (pre ++ format_citekeys keys ++ tail)
  = pre ++ format_citekeys keys ++ tail.
Proof.
  intros Hk Htp Htt. apply expandtabs_notab.
  intros H. apply in_app_or in H as [H|H]; [auto|].
  apply in_app_or in H as [H|H]; [|auto].
  apply (In_format_citekeys Hk) in H. discriminate.
Qed.

(** The scan of a line that holds one formatted group and no other opening
    brace. *)
Lemma scan_group (pre tail : pystr) (keys : list pystr) :
  keys <> [] -> Forall is_citekey keys ->
  ~ In (ord "{") pre -> ~ In (ord "{") tail ->
  scan (S (S (length (pre ++ format_citekeys keys ++ tail)))) citations_expr
       (pre ++ format_citekeys keys ++ tail) 0
  = [(locate (S (length pre)) keys, length pre,
      length pre + length (format_citekeys keys))].
Proof.
  intros Hne Hk Hpre Htail.
  destruct keys as [|key keys]; [congruence|].
  pose proof (@citations_parse_complete pre tail key keys Hk) as P.
  set (nl := length pre + length (format_citekeys (key :: keys))) in *.
  assert (ET : pre ++ format_citekeys (key :: keys) ++ tail
               = pre ++ ord "{" :: (join (py ", ") (key :: keys) ++ py "}")
                     ++ tail).
  { unfold format_citekeys. rewrite <- !app_assoc. reflexivity. }
  rewrite ET in *.
  rewrite (@scan_reach pre _ nl _ Hpre P (length pre) 0); try lia.
  f_equal. apply scan_tail_nil. intros l Hl Hn.
  rewrite <- ET in Hn.
  rewrite app_assoc in Hn. rewrite nth_error_app2 in Hn
    by (rewrite length_app; unfold nl in Hl; lia).
  apply nth_error_In in Hn. contradiction.
Qed.

(** X12: a group written by [format_citekeys] is read back by the scan: in a
    line without tab and without other opening brace, the scan finds one
    match, whose span is the text of the group and whose tokens are the keys
    of the group in order, each with the offset at which it stands. *)
Theorem scan_format_citekeys (pre tail : pystr) (keys : list pystr) :
  keys <> [] -> Forall is_citekey keys ->
  ~ In (ord "{") pre -> ~ In (ord "{") tail ->
  ~ In tab pre -> ~ In tab tail ->
  scanString citations_expr (pre ++ format_citekeys keys ++ tail)
  = [(locate (S (length pre)) keys, length pre,
      length pre + length (format_citekeys keys))] /\
  slice (pre ++ format_citekeys keys ++ tail) (length pre)
        (length pre + length (format_citekeys keys))
  = format_citekeys keys.
Proof.
  intros Hne Hk Hpre Htail Htp Htt. split.
  - unfold scanString. rewrite (@expandtabs_group pre tail _ Hk Htp Htt).
    apply scan_group; assumption.
  - apply slice_middle.
Qed.

Lemma is_citekey_smith : is_citekey (py "smith:2020ab").
Proof.
  exists (py "smith"), (py "2020"), (py "ab").
  split; [reflexivity|]. split; [discriminate|].
  repeat split; repeat constructor.
Qed.

Lemma is_citekey_jones : is_citekey (py "jones:2019cd").
Proof.
  exists (py "jones"), (py "2019"), (py "cd").
  split; [reflexivity|]. split; [discriminate|].
  repeat split; repeat constructor.
Qed.

Lemma scan_format_citekeys_witness :
  scanString citations_expr
    (py "see " ++ format_citekeys [py "smith:2020ab"; py "jones:2019cd"]
        ++ py " for details")
  = [(locate 5 [py "smith:2020ab"; py "jones:2019cd"], 4,
      4 + length (format_citekeys [py "smith:2020ab"; py "jones:2019cd"]))] /\
  slice (py "see " ++ format_citekeys [py "smith:2020ab"; py "jones:2019cd"]
            ++ py " for details")
        4 (4 + length (format_citekeys [py "smith:2020ab"; py "jones:2019cd"]))
  = format_citekeys [py "smith:2020ab"; py "jones:2019cd"].
Proof.
  apply (@scan_format_citekeys (py "see ") (py " for details")
           [py "smith:2020ab"; py "jones:2019cd"]).
  - discriminate.
  - repeat constructor; [exact is_citekey_smith|exact is_citekey_jones].
  - vm_compute. intuition discriminate.
  - vm_compute. intuition discriminate.
  - vm_compute. intuition discriminate.
  - vm_compute. intuition discriminate.
Defined.

(** ** The matches of a scan and the cursor *)

Lemma spans_from_weaken (lo lo' : nat) (results : list (list token * nat * nat)) :
  lo' <= lo -> spans_from lo results -> spans_from lo' results.
Proof.
  destruct results as [|[[t s] e] rest]; simpl; [auto|].
  intros H (H1 & H2 & H3). repeat split; try assumption. lia.
Qed.

Lemma scan_spans (instring : pystr) (fuel loc : nat) :
  spans_from loc (scan fuel citations_expr instring loc).
Proof.
  revert loc. induction fuel as [|fuel IH]; intros loc; cbn [scan];
    [exact I|].
  destruct (length instring <? loc); [exact I|].
  pose proof (preParse_ge citations_expr instring loc) as Hge.
  destruct (_parse citations_expr false instring
                   (preParse citations_expr instring loc))
    as [[nextLoc tokens]|] eqn:E.
  - destruct (loc <? nextLoc).
    + apply citations_parse_inv in E. destruct E as (_ & _ & Hl & _).
      cbn [spans_from]. split; [exact Hge|]. split; [lia|apply IH].
    + eapply spans_from_weaken; [|apply IH]. lia.
  - eapply spans_from_weaken; [|apply IH]. lia.
Qed.

(** X13: the matches of a scan come left to right and do not overlap: each
    one starts at or after the end of the one before, ends after its start,
    and ends within the text (with its tabs expanded). *)
Theorem scanString_spans (text : pystr) :
  spans_from 0 (scanString citations_expr text) /\
  Forall (fun m => snd m <= length (expandtabs text))
         (scanString citations_expr text).
Proof.
  split; [apply scan_spans|].
  eapply Forall_impl; [|apply scan_inv]. intros [[t s] e] H.
  destruct H as (_ & _ & H & _). simpl. lia.
Qed.

(** X14: the Markdown links that [format_markdown] writes for keys without
    opening brace hold no citation group: the scan finds no match in
    them. *)
Theorem scan_format_markdown (keys : list pystr) :
  Forall (fun key => ~ In (ord "{") key) keys ->
  scanString citations_expr (format_markdown keys) = [].
Proof.
  intros H. apply scanString_no_brace. intros Hin.
  unfold format_markdown in Hin.
  apply In_join in Hin as [Hin|(x & Hx & Hin)].
  - vm_compute in Hin. intuition discriminate.
  - apply in_map_iff in Hx as (key & <- & Hk).
    rewrite Forall_forall in H. specialize (H key Hk).
    repeat (apply in_app_or in Hin as [Hin|Hin];
            [try contradiction; vm_compute in Hin; intuition discriminate|]).
    vm_compute in Hin. intuition discriminate.
Qed.

Lemma scan_format_markdown_witness :
  scanString citations_expr
             (format_markdown [py "smith:2020ab"; py "jones:2019cd"]) = [].
Proof.
  apply scan_format_markdown.
  repeat constructor; vm_compute; intuition discriminate.
Defined.

(** The cursor *)

Lemma unpack_keys_tokens (instring : pystr) (lo hi : nat)
      (tokens : list token) :
  Forall (key_token instring lo hi) tokens ->
  exists pairs,
    unpack_keys tokens = Ok pairs /\
    Forall (fun p => is_citekey (snd p) /\
                     slice instring (fst p) (fst p + length (snd p)) = snd p /\
                     lo <= fst p /\ fst p + length (snd p) <= hi) pairs.
Proof.
  induction 1 as [|t l (locn & key & -> & Hk & Hs & H1 & H2) _
                    (pairs & E & F)].
  - exists []. split; [reflexivity|constructor].
  - exists ((locn, key) :: pairs). cbn [unpack_keys unpack_key bind].
    rewrite E. cbn [bind]. split; [reflexivity|].
    constructor; [|exact F]. simpl. auto.
Qed.

Lemma key_at_Some (offset : Z) (pairs : list (nat * pystr)) (key : pystr) :
  key_at offset pairs = Some key ->
  exists pos, In (pos, key) pairs /\
    (Z.of_nat pos <= offset <= Z.of_nat (pos + length key))%Z.
Proof.
  induction pairs as [|[pos k] l IH]; simpl; [discriminate|].
  destruct ((Z.of_nat pos <=? offset)
            && (offset <=? Z.of_nat pos + Z.of_nat (length k)))%Z eqn:E.
  - intros H. injection H as <-. exists pos. split; [left; reflexivity|].
    apply andb_true_iff in E as [E1 E2]. lia.
  - intros H. destruct (IH H) as (p & Hin & Hp). exists p. auto.
Qed.

Lemma group_at_spec (instring : pystr) (offset line_a : Z)
      (results : list (list token * nat * nat)) :
  Forall (group_match instring) results ->
  exists found,
    group_at offset line_a results = Ok found /\
    match found with
    | None => True
    | Some (key, keys, (s, e)) =>
        exists start end_,
          s = (Z.of_nat start + line_a)%Z /\ e = (Z.of_nat end_ + line_a)%Z /\
          (Z.of_nat start <= offset <= Z.of_nat end_)%Z /\
          key_under_cursor instring offset key keys start end_
    end.
Proof.
  induction 1 as [|[[tokens start] end_] l
                    (Hopen & Hclose & Hl & Hne & Hk) _ IH].
  - exists None. split; [reflexivity|exact I].
  - cbn [group_at].
    destruct (unpack_keys_tokens Hk) as (pairs & -> & F). cbn [bind].
    destruct ((Z.of_nat start <=? offset) && (offset <=? Z.of_nat end_))%Z
      eqn:E; [|exact IH].
    destruct (key_at offset pairs) as [key|] eqn:K; [|exact IH].
    eexists. split; [reflexivity|]. cbv beta iota.
    exists start, end_. apply andb_true_iff in E as [E1 E2].
    split; [reflexivity|]. split; [reflexivity|]. split; [lia|].
    apply key_at_Some in K as (pos & Hin & Hpos).
    exists pos. rewrite Forall_forall in F.
    pose proof (F _ Hin) as (Hc & Hs & H1 & H2). simpl in Hc, Hs, H1, H2.
    split; [apply in_map_iff; exists (pos, key); auto|].
    split.
    { apply Forall_forall. intros k Hk'.
      apply in_map_iff in Hk' as (p & <- & Hp). apply (F _ Hp). }
    repeat split; try assumption; lia.
Qed.

Lemma is_citekey_nonempty (key : pystr) : is_citekey key -> key <> [].
Proof.
  intros H. destruct (citekey_head H) as (c & k & -> & _). discriminate.
Qed.

(** With a selection the cursor is looked up without error, and a key that
    is found is not empty. *)
Lemma citekeys_at_cursor_Ok (view : View) (loc : Region.t)
      (others : list Region.t) :
  sel view = loc :: others ->
  exists citekey group location,
    citekeys_at_cursor view = Ok (citekey, group, location) /\
    (citekey = PyNone \/ exists key, citekey = PyStr key /\ key <> []).
Proof.
  intros Hsel. unfold citekeys_at_cursor. rewrite Hsel.
  cbn [getitem N.to_nat nth_error bind].
  set (ln := line view (Region.a loc)).
  destruct (@group_at_spec (expandtabs (substr view ln))
              (Region.a loc - Region.a ln) (Region.a ln)
              (scanString citations_expr (substr view ln))
              (scan_inv _ _ _))
    as (found & -> & Hf).
  cbn [bind]. destruct found as [[[key keys] [s e]]|].
  - destruct Hf as (start & end_ & _ & _ & _ & pos & Hin & Hall & _).
    exists (PyStr key), keys, (s, e). split; [reflexivity|]. right.
    exists key. split; [reflexivity|]. apply is_citekey_nonempty.
    rewrite Forall_forall in Hall. exact (Hall key Hin).
  - exists PyNone, [], (Region.a loc, Region.b loc).
    split; [reflexivity|]. left. reflexivity.
Qed.

(** X15: with a selection, [citekeys_at_cursor] does not fail; it returns
    either no key, no group and the selected region, or a key of the grammar
    together with the keys of its bracketed group and the span of that group
    shifted by the start of the line: the key stands in the line (with its
    tabs expanded) inside the group, and the offset of the cursor in the
    line is between the start and the end of the key. *)
Theorem citekeys_at_cursor_spec (view : View) (loc : Region.t)
        (others : list Region.t) :
  sel view = loc :: others ->
  let ln := line view (Region.a loc) in
  let text := expandtabs (substr view ln) in
  let offset := (Region.a loc - Region.a ln)%Z in
  exists found,
    citekeys_at_cursor view = Ok found /\
    (found = (PyNone, [], (Region.a loc, Region.b loc)) \/
     exists key keys start end_,
       found = (PyStr key, keys,
                (Z.of_nat start + Region.a ln, Z.of_nat end_ + Region.a ln)%Z)
       /\ (Z.of_nat start <= offset <= Z.of_nat end_)%Z
       /\ key_under_cursor text offset key keys start end_).
Proof.
  intros Hsel ln text offset. unfold citekeys_at_cursor. rewrite Hsel.
  cbn [getitem N.to_nat nth_error bind]. fold ln. fold offset.
  destruct (@group_at_spec text offset (Region.a ln)
              (scanString citations_expr (substr view ln))
              (scan_inv _ _ _))
    as (found & -> & Hf).
  cbn [bind]. destruct found as [[[key keys] [s e]]|].
  - destruct Hf as (start & end_ & -> & -> & Ho & Hk).
    eexists. split; [reflexivity|]. right.
    exists key, keys, start, end_. auto.
  - eexists. split; [reflexivity|]. left. reflexivity.
Qed.

Lemma citekeys_at_cursor_spec_witness :
  exists found,
    citekeys_at_cursor example_view = Ok found /\
    (found = (PyNone, [], (107, 107)%Z) \/
     exists key keys start end_,
       found = (PyStr key, keys, (Z.of_nat start + 100, Z.of_nat end_ + 100)%Z)
       /\ (Z.of_nat start <= 107 - 100 <= Z.of_nat end_)%Z
       /\ key_under_cursor (expandtabs example_line) (107 - 100) key keys
                           start end_).
Proof.
  apply (@citekeys_at_cursor_spec example_view
           {| Region.a := 107; Region.b := 107 |} []).
  reflexivity.
Defined.

Example citekeys_at_cursor_example :
  citekeys_at_cursor example_view
  = Ok (PyStr (py "smith:2020ab"), [py "smith:2020ab"; py "jones:2019cd"],
        (104, 132)%Z).
Proof. vm_compute. reflexivity. Qed.

Lemma unpack_keys_locate (pos : nat) (keys : list pystr) :
  unpack_keys (locate pos keys) = Ok (positions pos keys).
Proof.
  revert pos. induction keys as [|k ks IH]; intros pos; [reflexivity|].
  cbn [locate unpack_keys unpack_key bind positions]. rewrite IH. reflexivity.
Qed.

Lemma map_snd_positions (pos : nat) (keys : list pystr) :
  map snd (positions pos keys) = keys.
Proof.
  revert pos. induction keys as [|k ks IH]; intros pos; [reflexivity|].
  cbn [positions map snd]. rewrite IH. reflexivity.
Qed.

Lemma width_cons (key : pystr) (keys : list pystr) :
  width (key :: keys) = length key + 2 + width keys.
Proof. unfold width. cbn [map concat]. rewrite !length_app. simpl. lia. Qed.

Lemma width_app (before after : list pystr) :
  width (before ++ after) = width before + width after.
Proof.
  unfold width. rewrite map_app, concat_app, length_app. reflexivity.
Qed.

Lemma positions_app (pos : nat) (before after : list pystr) :
  positions pos (before ++ after)
  = positions pos before ++ positions (pos + width before) after.
Proof.
  revert pos. induction before as [|k ks IH]; intros pos.
  - cbn [app positions]. unfold width. simpl. rewrite Nat.add_0_r. reflexivity.
  - cbn [app positions]. rewrite IH, width_cons. f_equal. f_equal. f_equal.
    lia.
Qed.

Lemma positions_before (pos : nat) (keys : list pystr) :
  Forall (fun p => fst p + length (snd p) < pos + width keys)
         (positions pos keys).
Proof.
  revert pos. induction keys as [|k ks IH]; intros pos; [constructor|].
  cbn [positions]. rewrite width_cons. constructor; [simpl; lia|].
  eapply Forall_impl; [|apply IH]. intros p Hp. simpl in *. lia.
Qed.

Lemma key_at_app (offset : Z) (skipped rest : list (nat * pystr)) :
  Forall (fun p => (Z.of_nat (fst p + length (snd p)) < offset)%Z) skipped ->
  key_at offset (skipped ++ rest) = key_at offset rest.
Proof.
  induction 1 as [|[pos k] l H _ IH]; [reflexivity|].
  cbn [app key_at]. cbn [fst snd] in H.
  destruct (Z.leb_spec offset (Z.of_nat pos + Z.of_nat (length k))); [exfalso; lia|].
  rewrite andb_false_r. exact IH.
Qed.

Lemma length_join (key : pystr) (keys : list pystr) :
  length (join (py ", ") (keys ++ [key])) = width keys + length key.
Proof.
  induction keys as [|k ks IH]; [reflexivity|].
  rewrite width_cons. destruct ks as [|k' ks'].
  - unfold width. cbn [app join map concat]. rewrite !length_app.
    cbn [length py map list_ascii_of_string]. lia.
  - change (join (py ", ") ((k :: k' :: ks') ++ [key]))
      with (k ++ py ", " ++ join (py ", ") ((k' :: ks') ++ [key])).
    rewrite !length_app, IH. simpl. lia.
Qed.

Lemma length_format_ge (before after : list pystr) (key : pystr) :
  S (width before) + length key < length (format_citekeys (before ++ key :: after)).
Proof.
  unfold format_citekeys. rewrite !length_app. simpl.
  assert (H : width before + length key
              <= length (join (py ", ") (before ++ key :: after))).
  { revert before key. induction after as [|k ks IH] using rev_ind;
      intros before key.
    - rewrite length_join. lia.
    - replace (before ++ key :: ks ++ [k])
        with ((before ++ key :: ks) ++ [k]) by (rewrite <- app_assoc; reflexivity).
      rewrite length_join, width_app, width_cons. lia. }
  lia.
Qed.

(** X16: with the cursor in, or at either end of, a key of a group written
    by [format_citekeys], in a line without tab and without other opening
    brace, [citekeys_at_cursor] returns that key, the keys of the group and
    the span of the group in the buffer. *)
Theorem cursor_on_key (view : View) (loc : Region.t) (others : list Region.t)
        (pre tail : pystr) (before after : list pystr) (key : pystr) :
  sel view = loc :: others ->
  let ln := line view (Region.a loc) in
  let keys := before ++ key :: after in
  let pos := S (length pre) + width before in
  substr view ln = pre ++ format_citekeys keys ++ tail ->
  Forall is_citekey keys ->
  ~ In (ord "{") pre -> ~ In (ord "{") tail ->
  ~ In tab pre -> ~ In tab tail ->
  (Z.of_nat pos <= Region.a loc - Region.a ln
   <= Z.of_nat (pos + length key))%Z ->
  citekeys_at_cursor view
  = Ok (PyStr key, keys,
        (Z.of_nat (length pre) + Region.a ln,
         Z.of_nat (length pre + length (format_citekeys keys))
         + Region.a ln)%Z).
Proof.
  intros Hsel ln keys pos Htext Hk Hpre Htail Htp Htt Hoff.
  unfold citekeys_at_cursor. rewrite Hsel.
  cbn [getitem N.to_nat nth_error bind]. fold ln. rewrite Htext.
  unfold scanString. rewrite (@expandtabs_group pre tail _ Hk Htp Htt).
  rewrite scan_group; try assumption.
  2:{ unfold keys. destruct before; discriminate. }
  cbn [group_at]. rewrite unpack_keys_locate. cbn [bind].
  rewrite map_snd_positions.
  pose proof (length_format_ge before after key) as L. fold keys in L.
  assert (E : ((Z.of_nat (length pre) <=? Region.a loc - Region.a ln)
               && (Region.a loc - Region.a ln
                   <=? Z.of_nat (length pre + length (format_citekeys keys))))%Z
              = true).
  { apply andb_true_iff. split; [apply Z.leb_le|apply Z.leb_le]; lia. }
  rewrite E. unfold keys at 1. rewrite positions_app.
  rewrite key_at_app.
  2:{ eapply Forall_impl; [|apply positions_before]. intros p Hp.
      cbv beta in *. unfold pos in Hoff. lia. }
  cbn [positions key_at].
  assert (E2 : ((Z.of_nat (S (length pre) + width before)
                 <=? Region.a loc - Region.a ln)
                && (Region.a loc - Region.a ln
                    <=? Z.of_nat (S (length pre) + width before)
                        + Z.of_nat (length key)))%Z = true).
  { apply andb_true_iff. unfold pos in Hoff.
    split; [apply Z.leb_le|apply Z.leb_le]; lia. }
  rewrite E2. reflexivity.
Qed.

Lemma cursor_on_key_witness :
  citekeys_at_cursor example_view
  = Ok (PyStr (py "smith:2020ab"), [py "smith:2020ab"; py "jones:2019cd"],
        (Z.of_nat 4 + 100,
         Z.of_nat (4 + length (format_citekeys
                                 [py "smith:2020ab"; py "jones:2019cd"]))
         + 100)%Z).
Proof.
  apply (@cursor_on_key example_view {| Region.a := 107; Region.b := 107 |} []
           (py "see ") (py " for details") [] [py "jones:2019cd"]
           (py "smith:2020ab")).
  - reflexivity.
  - reflexivity.
  - repeat constructor; [exact is_citekey_smith|exact is_citekey_jones].
  - vm_compute. intuition discriminate.
  - vm_compute. intuition discriminate.
  - vm_compute. intuition discriminate.
  - vm_compute. intuition discriminate.
  - vm_compute. split; discriminate.
Defined.

(** ** The command: [run] *)

Lemma combine_fst_snd {A B} (l : list (A * B)) :
  combine (map fst l) (map snd l) = l.
Proof.
  induction l as [|[x y] l IH]; simpl; [reflexivity|]. rewrite IH. reflexivity.
Qed.

(** X17: [run] raises [ValueError] when the listing is empty (there is
    nothing to unpack), and [IndexError] when there are citations and no
    selection; otherwise it shows the panel of its commands followed by its
    citations, where the citations and the citekeys are, pairwise, the
    labels and the keys of the listing in reverse order, and the commands
    are none without a key under the cursor, and the entry that opens the
    PDF of that key followed by a separator with one. *)
Theorem run_spec (db : database) (view : View) :
  (list_citations db = [] -> run db view = Raise ValueError) /\
  (sel view = [] -> list_citations db <> [] ->
   run db view = Raise IndexError) /\
  (sel view <> [] -> list_citations db <> [] ->
   exists cmd,
     run db view = Ok (cmd, commands cmd ++ citations cmd) /\
     combine (citations cmd) (citekeys cmd) = rev (list_citations db) /\
     length (citations cmd) = length (citekeys cmd) /\
     citekeys_at_cursor view = Ok (citekey cmd, group cmd, location cmd) /\
     (citekey cmd = PyNone -> commands cmd = []) /\
     (forall key, citekey cmd = PyStr key ->
        commands cmd = [key ++ py ": Open PDF"; py "-----------------"])).
Proof.
  unfold run, get_citations. split; [|split].
  - intros ->. reflexivity.
  - intros Hs Hl. destruct (rev (list_citations db)) as [|p l] eqn:E.
    { apply (f_equal (@rev _)) in E. rewrite rev_involutive in E.
      simpl in E. congruence. }
    cbn [unzip bind]. unfold citekeys_at_cursor. rewrite Hs. reflexivity.
  - intros Hs Hl. destruct (rev (list_citations db)) as [|p l] eqn:E.
    { apply (f_equal (@rev _)) in E. rewrite rev_involutive in E.
      simpl in E. congruence. }
    cbn [unzip bind]. destruct (sel view) as [|loc others] eqn:Es; [congruence|].
    destruct (@citekeys_at_cursor_Ok view loc others Es)
      as (ck & keys & region & Hf & Hcases).
    rewrite Hf. cbn [bind].
    destruct Hcases as [->|(key & -> & Hne)].
    + cbn [truthy].
      match goal with |- exists _, Ok (?c, _) = _ /\ _ => exists c end.
      split; [reflexivity|].
      cbn [citations citekeys citekey group location commands].
      split; [apply combine_fst_snd|]. split; [rewrite !length_map; reflexivity|].
      split; [reflexivity|]. split; [reflexivity|]. intros key H. discriminate.
    + assert (T : truthy (PyStr key) = true).
      { destruct key; [congruence|reflexivity]. }
      cbv zeta. rewrite T.
      match goal with |- exists _, Ok (?c, _) = _ /\ _ => exists c end.
      split; [reflexivity|].
      cbn [citations citekeys citekey group location commands].
      split; [apply combine_fst_snd|]. split; [rewrite !length_map; reflexivity|].
      split; [reflexivity|]. split; [discriminate|].
      intros k H. injection H as <-. reflexivity.
Qed.

(** ** The command: [on_citekey] *)

Lemma str_ltb_asym (a b : pystr) : str_ltb a b = true -> str_ltb b a = false.
Proof.
  revert b. induction a as [|x a IH]; intros [|y b]; simpl; try congruence.
  intros H. apply orb_true_iff in H as [H|H].
  - apply N.ltb_lt in H.
    destruct (N.ltb_spec y x); [lia|]. destruct (N.eqb_spec y x); [lia|].
    reflexivity.
  - apply andb_true_iff in H as [E H]. apply N.eqb_eq in E. subst y.
    rewrite N.ltb_irrefl, N.eqb_refl. simpl. apply IH. exact H.
Qed.

Lemma year_of_Ok (k : pystr) :
  one_colon k -> exists y, year_of k = Ok y.
Proof.
  intros H. apply split_key_returns in H as [[[b y] h] E].
  exists y. unfold year_of. rewrite E. reflexivity.
Qed.

Lemma year_of_Raise (k : pystr) :
  ~ one_colon k -> year_of k = Raise ValueError.
Proof.
  intros H. unfold year_of.
  rewrite (split_key_Raise _ H). reflexivity.
Qed.

Lemma one_colon_dec (k : pystr) : one_colon k \/ ~ one_colon k.
Proof.
  unfold one_colon.
  destruct (Nat.eq_dec (count_occ N.eq_dec k colon) 1); auto.
Qed.

Lemma decorate_Ok (keys : list pystr) :
  Forall one_colon keys ->
  exists d, decorate keys = Ok d /\ map snd d = keys /\
            Forall (fun p => year_of (snd p) = Ok (fst p)) d.
Proof.
  induction 1 as [|k l Hk _ (d & E & Hm & Hf)].
  - exists []. repeat split. constructor.
  - destruct (year_of_Ok Hk) as [y Hy].
    exists ((y, k) :: d). cbn [decorate]. rewrite Hy, E. cbn [bind].
    split; [reflexivity|]. split; [simpl; rewrite Hm; reflexivity|].
    constructor; [exact Hy|exact Hf].
Qed.

Lemma decorate_Raise (keys : list pystr) :
  Exists (fun k => ~ one_colon k) keys -> decorate keys = Raise ValueError.
Proof.
  induction keys as [|k l IH]; intros H; [inversion H|].
  cbn [decorate]. destruct (one_colon_dec k) as [Hk|Hk].
  - destruct (year_of_Ok Hk) as [y ->]. cbn [bind].
    rewrite IH; [reflexivity|]. inversion H; subst; [contradiction|assumption].
  - rewrite (year_of_Raise Hk). reflexivity.
Qed.

Lemma insert_perm (p : pystr * pystr) (l : list (pystr * pystr)) :
  Permutation (insert p l) (p :: l).
Proof.
  induction l as [|q l IH]; simpl; [reflexivity|].
  destruct (str_ltb (fst q) (fst p)); [|reflexivity].
  rewrite IH. apply perm_swap.
Qed.

Lemma fold_insert_perm (d : list (pystr * pystr)) :
  Permutation (fold_right insert [] d) d.
Proof.
  induction d as [|p d IH]; simpl; [reflexivity|].
  rewrite insert_perm. constructor. exact IH.
Qed.

Lemma insert_sorted (p : pystr * pystr) (l : list (pystr * pystr)) :
  Sorted (fun a b => str_ltb (fst b) (fst a) = false) l ->
  Sorted (fun a b => str_ltb (fst b) (fst a) = false) (insert p l).
Proof.
  induction 1 as [|q l Hs IH Hd]; simpl; [repeat constructor|].
  destruct (str_ltb (fst q) (fst p)) eqn:E.
  - constructor; [exact IH|].
    destruct l as [|r l]; simpl.
    + constructor. apply str_ltb_asym. exact E.
    + inversion Hd; subst.
      destruct (str_ltb (fst r) (fst p)); constructor;
        [assumption|apply str_ltb_asym; exact E].
  - constructor; [constructor; assumption|]. constructor. exact E.
Qed.

Lemma fold_insert_sorted (d : list (pystr * pystr)) :
  Sorted (fun a b => str_ltb (fst b) (fst a) = false) (fold_right insert [] d).
Proof.
  induction d as [|p d IH]; simpl; [constructor|].
  apply insert_sorted. exact IH.
Qed.

Lemma Sorted_map_snd (d : list (pystr * pystr)) :
  Forall (fun p => year_of (snd p) = Ok (fst p)) d ->
  Sorted (fun a b => str_ltb (fst b) (fst a) = false) d ->
  Sorted year_le (map snd d).
Proof.
  intros Hf Hs. induction Hs as [|p d Hs IH Hd]; simpl; [constructor|].
  inversion Hf as [|? ? Hp Hfd]; subst.
  constructor; [apply IH; exact Hfd|].
  destruct d as [|q d]; simpl; [constructor|].
  inversion Hd; subst. inversion Hfd; subst. constructor.
  exists (fst p), (fst q). auto.
Qed.

(** Sorting by year: a permutation of the keys, in the order of the
    years. *)
Lemma sorted_by_year_Ok (keys : list pystr) :
  Forall one_colon keys ->
  exists sorted,
    sorted_by_year keys = Ok sorted /\
    Permutation sorted keys /\ Sorted year_le sorted.
Proof.
  intros H. destruct (decorate_Ok H) as (d & E & Hm & Hf).
  exists (map snd (fold_right insert [] d)).
  unfold sorted_by_year. rewrite E. cbn [bind].
  split; [reflexivity|]. split.
  - rewrite <- Hm. apply Permutation_map. apply fold_insert_perm.
  - apply Sorted_map_snd; [|apply fold_insert_sorted].
    apply Forall_forall. intros p Hp. rewrite Forall_forall in Hf. apply Hf.
    eapply Permutation_in; [apply fold_insert_perm|exact Hp].
Qed.

Lemma contains_In (x : pystr) (l : list pystr) :
  contains x l = true <-> In x l.
Proof.
  unfold contains. rewrite existsb_exists. split.
  - intros (y & Hy & E). apply pystr_eqb_eq in E. subst y. exact Hy.
  - intros H. exists x. split; [exact H|apply pystr_eqb_refl].
Qed.

Lemma getitem_int_nonneg {A} (l : list A) (i : Z) :
  (0 <= i)%Z ->
  getitem_int l i = match nth_error l (Z.to_nat i) with
                    | Some x => Ok x
                    | None => Raise IndexError
                    end.
Proof.
  intros H. unfold getitem_int, getitem.
  destruct (Z.ltb_spec i 0); [lia|]. rewrite Z_N_nat. reflexivity.
Qed.

Lemma menu_eq (group : list pystr) (key : pystr) :
  [py "Insert {" ++ join (py ", ") group ++ py "}";
   key ++ py ": Open PDF"; py "Insert Markdown link"; py "-----------------"]
  = menu group key.
Proof. reflexivity. Qed.

(** X18: choosing a citation of the panel (an item past the commands) whose
    key, like the keys of the group, holds one colon: the key becomes the
    current one and the group holds the keys it held and this key; when the
    key was in the group the group is unchanged, otherwise the group has no
    repetition and is in the order of the years, whatever the iteration
    order of the set; citations, citekeys and location are unchanged, and
    the panel is shown again with the four commands of the menu, the first
    of which shows the group as [format_citekeys] writes it. *)
Theorem on_citekey_select (set_order : list pystr -> list pystr)
        (open_citekey : value -> result unit)
        (cmd : InsertCitationCommand) (item : Z) (key : pystr) :
  set_order_ok set_order ->
  (Z.of_nat (length (commands cmd)) <= item)%Z ->
  nth_error (citekeys cmd)
            (Z.to_nat (item - Z.of_nat (length (commands cmd)))) = Some key ->
  Forall one_colon (key :: group cmd) ->
  exists cmd',
    on_citekey set_order open_citekey cmd item
    = Ok (cmd', [set_timeout
                   (show_quick_panel (commands cmd' ++ citations cmd')) 10]) /\
    citekey cmd' = PyStr key /\
    citations cmd' = citations cmd /\ citekeys cmd' = citekeys cmd /\
    location cmd' = location cmd /\
    commands cmd' = menu (group cmd') key /\
    (forall k, In k (group cmd') <-> In k (group cmd) \/ k = key) /\
    (In key (group cmd) -> group cmd' = group cmd) /\
    (~ In key (group cmd) ->
     NoDup (group cmd') /\ Sorted year_le (group cmd')).
Proof.
  intros Hset Hitem Hkey Hcolon. unfold on_citekey.
  destruct (Z.leb_spec (Z.of_nat (length (commands cmd))) item) as [_|Hlt];
    [|lia].
  rewrite getitem_int_nonneg by lia. rewrite Hkey. cbn [bind].
  destruct (contains key (group cmd)) eqn:C; cbn [negb].
  - apply contains_In in C. cbn [bind]. rewrite menu_eq.
    match goal with |- exists _, Ok (?c, _) = _ /\ _ => exists c end.
    split; [reflexivity|].
    cbn [citations citekeys citekey group location commands].
    repeat (split; [reflexivity|]). split; [|split].
    + intros k. split; [auto|]. intros [Hk| ->]; assumption.
    + reflexivity.
    + intros H. contradiction.
  - assert (Hn : ~ In key (group cmd)).
    { intros H. apply contains_In in H. congruence. }
    destruct (Hset (group cmd ++ [key])) as [Hnd Hin].
    assert (Hall : Forall one_colon (set_order (group cmd ++ [key]))).
    { apply Forall_forall. intros k Hk. apply Hin in Hk.
      rewrite Forall_forall in Hcolon. apply Hcolon.
      apply in_app_or in Hk as [Hk|[<-|[]]]; [right; exact Hk|left; reflexivity]. }
    destruct (sorted_by_year_Ok Hall) as (sorted & -> & Hperm & Hsorted).
    cbn [bind]. rewrite menu_eq.
    match goal with |- exists _, Ok (?c, _) = _ /\ _ => exists c end.
    split; [reflexivity|].
    cbn [citations citekeys citekey group location commands].
    repeat (split; [reflexivity|]). split; [|split].
    + intros k. split.
      * intros H. apply (Permutation_in _ Hperm) in H. apply Hin in H.
        apply in_app_or in H as [H|[<-|[]]]; auto.
      * intros H. apply (Permutation_in _ (Permutation_sym Hperm)).
        apply Hin. apply in_or_app. destruct H as [H| ->]; [auto|].
        right. left. reflexivity.
    + intros H. contradiction.
    + intros _. split; [|exact Hsorted].
      eapply Permutation_NoDup; [apply Permutation_sym; exact Hperm|exact Hnd].
Qed.

Lemma is_prefix_app_l (m k s : pystr) :
  is_prefix m k = true -> is_prefix m (k ++ s) = true.
Proof.
  revert k. induction m as [|x m IH]; intros k H; [reflexivity|].
  destruct k as [|y k]; [discriminate|]. simpl in *.
  apply andb_true_iff in H as [E H]. rewrite E, (IH _ H). reflexivity.
Qed.

(** A prefix that does not hold the first character of what follows a
    string is a prefix of the string itself. *)
Lemma is_prefix_app_inv (m k s : pystr) (c : N) :
  ~ In c m -> is_prefix m (k ++ c :: s) = is_prefix m k.
Proof.
  revert k. induction m as [|x m IH]; intros k H; [reflexivity|].
  destruct k as [|y k]; simpl.
  - destruct (N.eqb_spec x c) as [->|_]; [|reflexivity].
    exfalso. apply H. left. reflexivity.
  - rewrite IH; [reflexivity|]. intros Hin. apply H. right. exact Hin.
Qed.

Lemma startswith_open_pdf (key prefix : pystr) :
  ~ In colon prefix ->
  str_startswith (key ++ py ": Open PDF") prefix = str_startswith key prefix.
Proof. intros H. unfold str_startswith. apply is_prefix_app_inv. exact H. Qed.

Lemma endswith_open_pdf (key : pystr) :
  str_endswith (key ++ py ": Open PDF") (py "Open PDF") = true.
Proof.
  unfold str_endswith. rewrite rev_app_distr.
  change (rev (py ": Open PDF")) with (rev (py "Open PDF") ++ py " :").
  rewrite <- app_assoc. apply is_prefix_app.
Qed.

(** X19: the entries of the menu after a choice: the first inserts the group
    as [format_citekeys] writes it, at the location found by [run]; the
    third inserts the Markdown links; the separator, and the item -1, do
    nothing; the second opens the PDF of the current key, unless the key
    starts with [Insert]: then a text is inserted and nothing is opened. *)
Theorem on_citekey_menu (set_order : list pystr -> list pystr)
        (open_citekey : value -> result unit)
        (cmd : InsertCitationCommand) (keys : list pystr) (key : pystr) :
  commands cmd = menu keys key ->
  let choose := on_citekey set_order open_citekey cmd in
  choose 0%Z
  = Ok (cmd, [insert_text (format_citekeys (group cmd)) (location cmd)]) /\
  choose 2%Z
  = Ok (cmd, [insert_text (format_markdown (group cmd)) (location cmd)]) /\
  choose 3%Z = Ok (cmd, []) /\
  choose (-1)%Z = Ok (cmd, []) /\
  (str_startswith key (py "Insert") = false ->
   choose 1%Z = (_ <- open_citekey (citekey cmd) ;; Ok (cmd, []))) /\
  (str_startswith key (py "Insert") = true ->
   exists citetext, choose 1%Z = Ok (cmd, [insert_text citetext (location cmd)])).
Proof.
  intros Hc choose. unfold choose, on_citekey. rewrite Hc.
  split; [reflexivity|]. split; [reflexivity|]. split; [reflexivity|].
  split; [reflexivity|].
  change (Z.of_nat (length (menu keys key)) <=? 1)%Z with false.
  change (getitem_int (menu keys key) 1) with (Ok (key ++ py ": Open PDF")).
  cbn [bind]. rewrite !startswith_open_pdf by (vm_compute; intuition discriminate).
  rewrite endswith_open_pdf. split.
  - intros ->. reflexivity.
  - intros ->. eexists. reflexivity.
Qed.

(** X20: [on_citekey] raises [IndexError] for an item past the citations and
    for an item below minus the number of commands (so for -1 when there is
    no command); it raises [ValueError] when the chosen key is new to the
    group and the key, or a key of the group, does not hold exactly one
    colon. *)
Theorem on_citekey_errors (set_order : list pystr -> list pystr)
        (open_citekey : value -> result unit)
        (cmd : InsertCitationCommand) (item : Z) :
  let n := Z.of_nat (length (commands cmd)) in
  ((n + Z.of_nat (length (citekeys cmd)) <= item)%Z ->
   on_citekey set_order open_citekey cmd item = Raise IndexError) /\
  ((item < - n)%Z ->
   on_citekey set_order open_citekey cmd item = Raise IndexError) /\
  (forall key,
     set_order_ok set_order ->
     (n <= item)%Z ->
     nth_error (citekeys cmd) (Z.to_nat (item - n)) = Some key ->
     ~ In key (group cmd) ->
     Exists (fun k => ~ one_colon k) (key :: group cmd) ->
     on_citekey set_order open_citekey cmd item = Raise ValueError).
Proof.
  intros n. unfold on_citekey. fold n. split; [|split].
  - intros H. destruct (Z.leb_spec n item) as [_|Hlt]; [|lia].
    rewrite getitem_int_nonneg by lia.
    destruct (nth_error (citekeys cmd) (Z.to_nat (item - n))) eqn:E;
      [|reflexivity].
    assert (L : Z.to_nat (item - n) < length (citekeys cmd)).
    { apply nth_error_Some. congruence. }
    lia.
  - intros H. destruct (Z.leb_spec n item) as [Hle|_]; [lia|].
    unfold getitem_int. destruct (Z.ltb_spec item 0) as [_|Hge]; [|lia].
    fold n. destruct (Z.ltb_spec (item + n) 0) as [_|Hge]; [reflexivity|lia].
  - intros key Hset Hle Hkey Hn Hex.
    destruct (Z.leb_spec n item) as [_|Hlt]; [|lia].
    rewrite getitem_int_nonneg by lia. rewrite Hkey. cbn [bind].
    assert (C : contains key (group cmd) = false).
    { destruct (contains key (group cmd)) eqn:C; [|reflexivity].
      apply contains_In in C. contradiction. }
    rewrite C. cbn [negb]. unfold sorted_by_year.
    rewrite decorate_Raise; [reflexivity|].
    destruct (Hset (group cmd ++ [key])) as [_ Hin].
    apply Exists_exists in Hex as (k & Hk & Hbad).
    apply Exists_exists. exists k. split; [|exact Hbad].
    apply Hin. apply in_or_app.
    destruct Hk as [<-|Hk]; [right; left; reflexivity|left; exact Hk].
Qed.

Lemma first_seen_ok : set_order_ok first_seen.
Proof.
  intros l. split; [apply NoDup_nodup|]. intros x. apply nodup_In.
Qed.

Lemma on_citekey_select_witness :
  exists cmd',
    on_citekey first_seen (fun _ => Ok tt) example_command 2
    = Ok (cmd', [set_timeout
                   (show_quick_panel (commands cmd' ++ citations cmd')) 10]) /\
    citekey cmd' = PyStr (py "jones:2019cd") /\
    citations cmd' = citations example_command /\
    citekeys cmd' = citekeys example_command /\
    location cmd' = location example_command /\
    commands cmd' = menu (group cmd') (py "jones:2019cd") /\
    (forall k, In k (group cmd') <->
               In k (group example_command) \/ k = py "jones:2019cd") /\
    (In (py "jones:2019cd") (group example_command) ->
     group cmd' = group example_command) /\
    (~ In (py "jones:2019cd") (group example_command) ->
     NoDup (group cmd') /\ Sorted year_le (group cmd')).
Proof.
  apply (@on_citekey_select first_seen (fun _ => Ok tt) example_command 2
           (py "jones:2019cd")).
  - exact first_seen_ok.
  - vm_compute. discriminate.
  - reflexivity.
  - repeat constructor.
Defined.

Lemma on_citekey_menu_witness :
  on_citekey first_seen (fun _ => Ok tt) chosen_command 0
  = Ok (chosen_command,
        [insert_text (format_citekeys (group chosen_command))
                     (location chosen_command)]) /\
  on_citekey first_seen (fun _ => Ok tt) chosen_command 2
  = Ok (chosen_command,
        [insert_text (format_markdown (group chosen_command))
                     (location chosen_command)]).
Proof.
  destruct (@on_citekey_menu first_seen (fun _ => Ok tt) chosen_command
              [py "jones:2019cd"; py "smith:2020ab"] (py "jones:2019cd")
              eq_refl) as (H0 & H2 & _).
  split; [exact H0|exact H2].
Defined.

(** Choosing "Jones 2019" with the cursor on the key of Smith puts the two
    keys in the order of their years. *)
Example on_citekey_example :
  on_citekey first_seen (fun _ => Ok tt) example_command 2
  = Ok (chosen_command,
        [set_timeout
           (show_quick_panel (commands chosen_command
                              ++ citations chosen_command)) 10]).
Proof. vm_compute. reflexivity. Qed.

(** ** The base path, and tabs *)

Lemma find_pdf_loop_basepath (basepath basepath' : pystr) (db : database)
      (citekey citehash : pystr) (candidates : list (Z * value * value)) :
  match find_pdf_loop basepath db citekey citehash candidates with
  | Ok path =>
      exists pdf_path,
        path = os_path_join basepath pdf_path /\
        find_pdf_loop basepath' db citekey citehash candidates
        = Ok (os_path_join basepath' pdf_path)
  | Raise e =>
      find_pdf_loop basepath' db citekey citehash candidates = Raise e
  end.
Proof.
  induction candidates as [|[[rowid title] doi] l IH]; cbn [find_pdf_loop].
  - reflexivity.
  - destruct (hash_matches citehash title doi) as [[|]|e]; cbn [bind].
    + destruct (select_paths db rowid) as [|p rest]; [exact IH|].
      exists p. split; reflexivity.
    + exact IH.
    + reflexivity.
Qed.

(** X21: the base path takes no part in the lookup: whether [find_pdf]
    returns or raises, the error it raises and the stored path it finds are
    the same for every base path; what it returns is the base path joined
    with the stored path, which is the stored path itself when that one is
    absolute. *)
Theorem find_pdf_basepath (basepath basepath' : pystr) (db : database)
        (citekey : pystr) :
  (forall path,
     find_pdf basepath db citekey = Ok path ->
     exists pdf_path,
       path = os_path_join basepath pdf_path /\
       find_pdf basepath' db citekey = Ok (os_path_join basepath' pdf_path) /\
       (startswith slash pdf_path = true -> path = pdf_path)) /\
  (forall e,
     find_pdf basepath db citekey = Raise e ->
     find_pdf basepath' db citekey = Raise e).
Proof.
  unfold find_pdf.
  destruct (split_key citekey) as [[[base year] citehash]|e0]; cbn [bind];
    [|split; [discriminate|auto]].
  destruct (select_candidates db base year) as [candidates|e0]; cbn [bind];
    [|split; [discriminate|auto]].
  pose proof (find_pdf_loop_basepath basepath basepath' db citekey citehash
                                     candidates) as H.
  destruct (find_pdf_loop basepath db citekey citehash candidates)
    as [p|e0].
  - destruct H as (pdf_path & -> & H). split; [|discriminate].
    intros path E. injection E as <-. exists pdf_path.
    split; [reflexivity|]. split; [exact H|].
    intros Hs. unfold os_path_join. rewrite Hs. reflexivity.
  - split; [discriminate|]. intros e E. injection E as <-. exact H.
Qed.

Lemma expandtabs_from_tabs (n k : nat) (rest : pystr) :
  ~ In tab rest ->
  expandtabs_from (8 * k) (repeat tab n ++ rest)
  = repeat (ord " ") (8 * n) ++ rest.
Proof.
  intros Hr. revert k. induction n as [|n IH]; intros k.
  - cbn [repeat app Nat.mul]. apply expandtabs_from_notab. exact Hr.
  - cbn [repeat app expandtabs_from]. change (tab =? 9)%N with true.
    cbv iota.
    assert (E : 8 - (8 * k) mod 8 = 8).
    { rewrite Nat.mul_comm, Nat.Div0.mod_mul. reflexivity. }
    rewrite E. replace (8 * k + 8) with (8 * S k) by lia.
    rewrite IH. replace (8 * S n) with (8 + 8 * n) by lia.
    rewrite repeat_app, <- app_assoc. reflexivity.
Qed.

Lemma In_repeat_space (c : N) (n : nat) :
  c <> ord " " -> ~ In c (repeat (ord " ") n).
Proof. intros H Hin. apply repeat_spec in Hin. congruence. Qed.

(** X22: the offsets of a match count the columns of the line with its tabs
    expanded, eight for each leading tab, while the offset of the cursor
    counts characters: in a line that starts with tabs followed by a group
    written by [format_citekeys], the group is found eight columns per tab
    into the line, and a cursor less than eight characters per tab into the
    line is under no key: so is, after one tab, the cursor on the first
    characters of the first key. *)
Theorem cursor_after_tabs (view : View) (loc : Region.t)
        (others : list Region.t) (n : nat) (keys : list pystr)
        (tail : pystr) :
  sel view = loc :: others ->
  let ln := line view (Region.a loc) in
  substr view ln = repeat tab (S n) ++ format_citekeys keys ++ tail ->
  keys <> [] -> Forall is_citekey keys ->
  ~ In (ord "{") tail -> ~ In tab tail ->
  (Region.a loc - Region.a ln < Z.of_nat (8 * S n))%Z ->
  scanString citations_expr (substr view ln)
  = [(locate (S (8 * S n)) keys, 8 * S n,
      8 * S n + length (format_citekeys keys))] /\
  citekeys_at_cursor view = Ok (PyNone, [], (Region.a loc, Region.b loc)).
Proof.
  intros Hsel ln Htext Hne Hk Htail Htt Hoff.
  assert (Hscan : scanString citations_expr (substr view ln)
                  = [(locate (S (8 * S n)) keys, 8 * S n,
                      8 * S n + length (format_citekeys keys))]).
  { rewrite Htext. unfold scanString, expandtabs.
    change 0 with (8 * 0) at 1 2.
    rewrite expandtabs_from_tabs.
    2:{ intros H. apply in_app_or in H as [H|H]; [|auto].
        apply (In_format_citekeys Hk) in H. discriminate. }
    pose proof (@scan_group (repeat (ord " ") (8 * S n)) tail keys Hne Hk
                  (@In_repeat_space (ord "{") (8 * S n)
                     ltac:(discriminate)) Htail) as S.
    rewrite repeat_length in S. exact S. }
  split; [exact Hscan|].
  unfold citekeys_at_cursor. rewrite Hsel.
  cbn [getitem N.to_nat nth_error bind]. fold ln. rewrite Hscan.
  cbn [group_at]. rewrite unpack_keys_locate. cbn [bind].
  destruct (Z.leb_spec (Z.of_nat (8 * S n)) (Region.a loc - Region.a ln))
    as [Hle|_]; [lia|].
  reflexivity.
Qed.

Lemma cursor_after_tabs_witness :
  scanString citations_expr (substr tabbed_view (line tabbed_view 2))
  = [(locate (S (8 * 1)) [py "smith:2020ab"], 8 * 1,
      8 * 1 + length (format_citekeys [py "smith:2020ab"]))] /\
  citekeys_at_cursor tabbed_view = Ok (PyNone, [], (2, 2)%Z).
Proof.
  apply (@cursor_after_tabs tabbed_view {| Region.a := 2; Region.b := 2 |} []
           0 [py "smith:2020ab"] []).
  - reflexivity.
  - reflexivity.
  - discriminate.
  - repeat constructor. exact is_citekey_smith.
  - intros [].
  - intros [].
  - vm_compute. reflexivity.
Defined.
